(** * ai-gateway: the request orchestration pipeline

    A shallow embedding of the gateway's core: the cost estimator and usage
    journal (package [usage]), the provider registry (package [providers]),
    the route configuration (package [config]), the HTTP handler with its
    retry-then-fallback attempt loop and its streaming pump (package [api]),
    and the stream that the two adapters produce in mock mode (packages
    [openai] and [anthropic]).

    Conventions.
    - Go [int]/[int64] values are [Z]; [float64] values are Rocq's primitive
      binary64 floats, every operation rounded to nearest-even on its own
      (Go may fuse [x*y + z] on some architectures; not on amd64).
    - A handler run is a function from its inputs (the request, the answers of
      the rate limiter, the router, the providers and the clock) to the
      sequence of effects it performs, in program order ([api.Event]).  The
      journal's effect of such a sequence on the database is [api.journal].
    - Tracing is left out, except for the start of every [ProviderAttempt]
      span, which marks the beginning of one iteration of the attempt loop. *)

From Stdlib Require Import ZArith List String Ascii Bool Lia Floats.
Import ListNotations.

Set Warnings "-inexact-float,-notation-for-abbreviation".

Local Open Scope string_scope.
Local Open Scope list_scope.
Local Open Scope Z_scope.

(** ** Go's [error] values *)

Module errors.

(** An error value is its dynamic type together with the text that its
    [Error()] method returns. *)
Record error : Type := mkError { dynType : string; Error : string }.

(** [fmt.Errorf] with no [%w] verb: the value [errors.New] builds. *)
Definition Errorf (text : string) : error :=
  {| dynType := "*errors.errorString"; Error := text |}.

End errors.
Export errors.

(** ** package config *)

Module config.

Record Target : Type := mkTarget { Provider : string; Model : string }.

Record Match : Type := mkMatch { UseCase : string }.

Record Route : Type := mkRoute {
  Name      : string;
  Match_    : Match;
  Primary   : Target;
  Fallbacks : list Target;
  TimeoutMS : Z;
  Retries   : Z
}.

End config.

(** ** package providers *)

Module providers.

Record Message : Type := mkMessage { Role : string; Content : string }.

Record ChatRequest : Type := mkChatRequest {
  Model       : string;
  Messages    : list Message;
  Temperature : float;
  MaxTokens   : Z;
  Stream      : bool
}.

Record Usage : Type := mkUsage {
  PromptTokens     : Z;
  CompletionTokens : Z;
  TotalTokens      : Z
}.

Record Choice : Type := mkChoice {
  Index        : Z;
  Message_     : Message;
  FinishReason : string
}.

Record ChatResponse : Type := mkChatResponse {
  ID      : string;
  Object  : string;
  Created : Z;
  RModel  : string;
  Choices : list Choice;
  Usage_  : Usage
}.

Record ChunkChoice : Type := mkChunkChoice {
  CIndex        : Z;
  Delta_Content : string;
  CFinishReason : string
}.

Record ChatChunk : Type := mkChatChunk {
  CID      : string;
  CObject  : string;
  CCreated : Z;
  CModel   : string;
  CChoices : list ChunkChoice
}.

(** What one iteration of the handler's [select] receives while it pumps a
    stream: a chunk, the close of the chunk channel, a value of the error
    channel ([None] is the nil that a closed error channel yields), or the
    cancellation of the request's context. *)
Inductive Received : Type :=
| RecvChunk (chunk : ChatChunk)
| RecvChunkClosed
| RecvErr (err : option error)
| RecvDone.

(** The [Provider] interface.  A provider call goes out to the network, so
    its answer is a function of the request and of the moment of the call;
    the moment is the handler's attempt counter, which is different at
    every call of one request.  [Chat] answers with Go's pair of a
    response pointer and an error, either of which may be nil.
    [ChatStream] answers with two channels; what the handler observes of
    them is the sequence of values its [select] receives. *)
Record Provider : Type := mkProvider {
  Chat       : ChatRequest -> Z -> option ChatResponse * option error;
  ChatStream : ChatRequest -> Z -> list Received
}.

(** [type Registry map[string]Provider], read-only after start-up. *)
Definition Registry : Type := list (string * Provider).

Fixpoint lookup (r : Registry) (name : string) : option Provider :=
  match r with
  | [] => None
  | (k, p) :: r' => if String.eqb k name then Some p else lookup r' name
  end.

Definition Get (r : Registry) (name : string) : Provider + error :=
  match lookup r name with
  | Some p => inl p
  | None => inr (Errorf ("provider " ++ name ++ " not found")%string)
  end.

End providers.

(** ** package usage *)

Module usage.

(** [type Record struct]. *)
Module Record_.
Record t : Type := mk {
  RequestID        : string;
  Tenant           : string;
  UseCase          : string;
  RouteName        : string;
  Provider         : string;
  Model            : string;
  PromptTokens     : Z;
  CompletionTokens : Z;
  TotalTokens      : Z;
  CostEstimate     : float;
  LatencyMS        : Z;
  StatusCode       : Z;
  ErrorMessage     : string
}.
End Record_.

(** [type Attempt struct]. *)
Module Attempt.
Record t : Type := mk {
  RequestID    : string;
  AttemptNo    : Z;
  Provider     : string;
  Model        : string;
  LatencyMS    : Z;
  StatusCode   : Z;
  ErrorMessage : string
}.
End Attempt.

(** *** The cost estimator *)

(** [float64(n)] for a Go [int]: the nearest binary64, ties to even. *)
Definition float64 (n : Z) : float :=
  SF2Prim (binary_normalize prec emax n 0 false).

(** [math.Round]: the nearest integer, halves away from zero; zeros,
    infinities and NaN are returned as they are. *)
Definition Round (x : float) : float :=
  match Prim2SF x with
  | S754_finite s m e =>
      if 0 <=? e then x
      else
        let d := 2 ^ (- e) in
        let q := Z.pos m / d in
        let r := Z.pos m mod d in
        let n := if d <=? 2 * r then q + 1 else q in
        SF2Prim (binary_normalize prec emax (if s then - n else n) 0 s)
  | _ => x
  end.

(** The [switch] of [EstimateCost]: input and output rate per 1M tokens. *)
Definition rates (model : string) : float * float :=
  if String.eqb model "gpt-4o-mini" then (0.15, 0.60)%float
  else if String.eqb model "gpt-4.1-mini" then (0.30, 1.20)%float
  else if String.eqb model "claude-3-5-sonnet" then (3.00, 15.00)%float
  else (0.15, 0.60)%float.

Definition EstimateCost (model : string) (promptTokens completionTokens : Z)
  : float :=
  let '(inputRate, outputRate) := rates model in
  let cost :=
    ((float64 promptTokens / 1000000.0 * inputRate)
     + (float64 completionTokens / 1000000.0 * outputRate))%float in
  (Round (cost * 1000000) / 1000000)%float.

(** [len(text) / 4]; [len] counts bytes. *)
Definition ApproximateTokens (text : string) : Z :=
  Z.quot (Z.of_nat (String.length text)) 4.

(** *** The journal's tables *)

(** A row of [requests] (migration 001).  [id] stands for the surrogate
    UUID; [created_at], which no statement of the program writes or reads,
    is left out. *)
Record requests_row : Type := mkRequestsRow {
  id                : nat;
  request_id        : string;
  tenant            : string;
  use_case          : string;
  route_name        : string;
  provider          : string;
  model             : string;
  prompt_tokens     : Z;
  completion_tokens : Z;
  total_tokens      : Z;
  cost_estimate_usd : float;
  latency_ms        : Z;
  status_code       : Z;
  error_message     : string
}.

(** Modelled from the spec: migration 002, which creates
    [provider_attempts], is not among the sources.  The columns are those
    that the INSERT of [LogAttempt] names; [fk_request_id] is the column
    [request_id], which holds the surrogate id of the request row. *)
Record provider_attempts_row : Type := mkAttemptsRow {
  fk_request_id   : nat;
  attempt_no      : Z;
  a_provider      : string;
  a_model         : string;
  a_latency_ms    : Z;
  a_status_code   : Z;
  a_error_message : string
}.

(** The database behind a [Store].  [next_id] is the next value of
    [gen_random_uuid()], different from every id handed out before.  The
    database executes every statement it is sent: failures of the
    connection and of column domains, which [Exec] would return as an error
    that the handler drops, are not modelled. *)
Record Store : Type := mkStore {
  requests          : list requests_row;
  provider_attempts : list provider_attempts_row;
  next_id           : nat
}.

Definition empty : Store :=
  {| requests := []; provider_attempts := []; next_id := 0 |}.

Definition has_request_id (rid : string) (row : requests_row) : bool :=
  String.eqb (request_id row) rid.

(** The VALUES of the INSERT of [Log] as a row with surrogate id [i]. *)
Definition inserted (i : nat) (r : Record_.t) (cost : float) : requests_row :=
  {| id := i;
     request_id := Record_.RequestID r;
     tenant := Record_.Tenant r;
     use_case := Record_.UseCase r;
     route_name := Record_.RouteName r;
     provider := Record_.Provider r;
     model := Record_.Model r;
     prompt_tokens := Record_.PromptTokens r;
     completion_tokens := Record_.CompletionTokens r;
     total_tokens := Record_.TotalTokens r;
     cost_estimate_usd := cost;
     latency_ms := Record_.LatencyMS r;
     status_code := Record_.StatusCode r;
     error_message := Record_.ErrorMessage r |}.

(** The row that [Log] stores for a record: its values and the estimated
    cost. *)
Definition logged_row (i : nat) (r : Record_.t) : requests_row :=
  inserted i r
    (EstimateCost (Record_.Model r) (Record_.PromptTokens r)
       (Record_.CompletionTokens r)).

(** ON CONFLICT (request_id) DO UPDATE SET ...: the conflicting row keeps
    [id] and [request_id] and takes the twelve EXCLUDED columns. *)
Definition do_update (r : Record_.t) (cost : float) (row : requests_row)
  : requests_row :=
  if has_request_id (Record_.RequestID r) row
  then inserted (id row) r cost
  else row.

Definition Log (s : Store) (r : Record_.t) : Store :=
  let cost :=
    EstimateCost (Record_.Model r) (Record_.PromptTokens r)
                 (Record_.CompletionTokens r) in
  if existsb (has_request_id (Record_.RequestID r)) (requests s)
  then {| requests := map (do_update r cost) (requests s);
          provider_attempts := provider_attempts s;
          next_id := next_id s |}
  else {| requests := requests s ++ [inserted (next_id s) r cost];
          provider_attempts := provider_attempts s;
          next_id := S (next_id s) |}.

(** INSERT INTO provider_attempts ... SELECT id, $2, ... FROM requests
    WHERE request_id = $1 LIMIT 1: one row when the request row exists,
    none otherwise. *)
Definition LogAttempt (s : Store) (reqCorrelationID : string) (a : Attempt.t)
  : Store :=
  match find (has_request_id reqCorrelationID) (requests s) with
  | Some row =>
      {| requests := requests s;
         provider_attempts :=
           provider_attempts s ++
           [ {| fk_request_id := id row;
                attempt_no := Attempt.AttemptNo a;
                a_provider := Attempt.Provider a;
                a_model := Attempt.Model a;
                a_latency_ms := Attempt.LatencyMS a;
                a_status_code := Attempt.StatusCode a;
                a_error_message := Attempt.ErrorMessage a |} ];
         next_id := next_id s |}
  | None => s
  end.

(** The rows of [requests] with a given [request_id]. *)
Definition rows_of (s : Store) (rid : string) : list requests_row :=
  filter (has_request_id rid) (requests s).

(** The rows of [provider_attempts] that belong to a given [request_id]:
    those whose foreign key is the id of a request row with that key. *)
Definition attempts_of (s : Store) (rid : string)
  : list provider_attempts_row :=
  filter (fun a => existsb (fun row => Nat.eqb (id row) (fk_request_id a))
                           (rows_of s rid))
         (provider_attempts s).

(** The UNIQUE constraint on [requests.request_id]. *)
Definition unique_request_id (s : Store) : Prop :=
  NoDup (map request_id (requests s)).

(** Surrogate ids in use, as keys and as foreign keys, are ids handed out
    before. *)
Definition ids_below (s : Store) : Prop :=
  (forall row, In row (requests s) -> (id row < next_id s)%nat) /\
  (forall a, In a (provider_attempts s) -> (fk_request_id a < next_id s)%nat).

(** *** The estimator as the specification words it *)

(** An embedded price table, keyed by model id, with a default pair. *)
Definition price_table : list (string * (float * float)) :=
  [ ("gpt-4o-mini", (0.15, 0.60)%float);
    ("gpt-4.1-mini", (0.30, 1.20)%float);
    ("claude-3-5-sonnet", (3.00, 15.00)%float) ].

Definition default_pair : float * float := (0.15, 0.60)%float.

Fixpoint price {A : Type} (table : list (string * A)) (model : string)
  : option A :=
  match table with
  | [] => None
  | (k, v) :: table' =>
      if String.eqb k model then Some v else price table' model
  end.

(** The formula evaluated in binary64, every operation rounded to nearest. *)
Definition EstimateCost_binary64 (model : string) (prompt completion : Z)
  : float :=
  let '(input_rate, output_rate) :=
    match price price_table model with
    | Some rate => rate
    | None => default_pair
    end in
  (Round ((float64 prompt / 1000000 * input_rate
           + float64 completion / 1000000 * output_rate) * 1000000)
   / 1000000)%float.

(** The same prices as exact numbers, in hundredths of a dollar. *)
Definition exact_price_table : list (string * (Z * Z)) :=
  [ ("gpt-4o-mini", (15, 60));
    ("gpt-4.1-mini", (30, 120));
    ("claude-3-5-sonnet", (300, 1500)) ].

Definition exact_default_pair : Z * Z := (15, 60).

(** [num / den] rounded to the nearest integer, halves away from zero
    ([den] positive). *)
Definition round_half_away (num den : Z) : Z :=
  if 0 <=? num then (2 * num + den) / (2 * den)
  else - ((2 * (- num) + den) / (2 * den)).

(** The formula in exact arithmetic, rounded to six decimals, as a number
    of millionths of a dollar:
    [(prompt/1e6)*(i/100) + (completion/1e6)*(o/100)] is
    [(prompt*i + completion*o) / 100] millionths. *)
Definition exact_micro_usd (model : string) (prompt completion : Z) : Z :=
  let '(i, o) :=
    match price exact_price_table model with
    | Some rate => rate
    | None => exact_default_pair
    end in
  round_half_away (prompt * i + completion * o) 100.

(** The binary64 nearest to [n] millionths. *)
Definition decimal6 (n : Z) : float := (float64 n / 1000000)%float.

Definition EstimateCost_exact (model : string) (prompt completion : Z)
  : float :=
  decimal6 (exact_micro_usd model prompt completion).

(** *** Reading a row of [requests] *)

(** The twelve value columns of [row] hold the values of the record [r],
    the cost being the estimate for the model and the token counts of
    [r]. *)
Definition stores (row : requests_row) (r : Record_.t) : Prop :=
  tenant row = Record_.Tenant r /\
  use_case row = Record_.UseCase r /\
  route_name row = Record_.RouteName r /\
  provider row = Record_.Provider r /\
  model row = Record_.Model r /\
  prompt_tokens row = Record_.PromptTokens r /\
  completion_tokens row = Record_.CompletionTokens r /\
  total_tokens row = Record_.TotalTokens r /\
  cost_estimate_usd row
  = EstimateCost (Record_.Model r) (Record_.PromptTokens r)
      (Record_.CompletionTokens r) /\
  latency_ms row = Record_.LatencyMS r /\
  status_code row = Record_.StatusCode r /\
  error_message row = Record_.ErrorMessage r.

(** *** The schema's constraints *)

(** The primary key of [requests]. *)
Definition primary_key (s : Store) : Prop :=
  NoDup (map id (requests s)).

(** The foreign key of [provider_attempts]: every attempt row points at a
    request row. *)
Definition referential (s : Store) : Prop :=
  forall a, In a (provider_attempts s) ->
    exists row, In row (requests s) /\ id row = fk_request_id a.

(** A database that satisfies the constraints of the two tables. *)
Definition consistent (s : Store) : Prop :=
  unique_request_id s /\ primary_key s /\ ids_below s /\ referential s.

(** *** The estimator against exact arithmetic *)

(** The exact cost in hundredths of a millionth of a dollar. *)
Definition exact_hundredths (model : string) (prompt completion : Z) : Z :=
  let '(i, o) :=
    match price exact_price_table model with
    | Some rate => rate
    | None => exact_default_pair
    end in
  prompt * i + completion * o.

(** The exact cost lies half-way between two millionths. *)
Definition tie (model : string) (prompt completion : Z) : bool :=
  exact_hundredths model prompt completion mod 100 =? 50.

(** [EstimateCost] returns the exact cost rounded to six decimals, or, at
    a tie, possibly one millionth less. *)
Definition near_exact (model : string) (prompt completion : Z) : bool :=
  let code := EstimateCost model prompt completion in
  let m := exact_micro_usd model prompt completion in
  if tie model prompt completion
  then PrimFloat.Leibniz.eqb code (decimal6 m)
       || PrimFloat.Leibniz.eqb code (decimal6 (m - 1))
  else PrimFloat.Leibniz.eqb code (decimal6 m).

(** [0; 1; ...; n]. *)
Definition upto (n : nat) : list Z := map Z.of_nat (seq 0 (S n)).

(** [near_exact] on every pair of token counts up to [n]. *)
Definition grid (model : string) (n : nat) : bool :=
  forallb (fun p => forallb (near_exact model p) (upto n)) (upto n).

End usage.

(** ** package api *)

Module api.

Import config providers.

(** A decoded JSON value of [map[string]interface{}]; the handler only
    asks whether it is a string. *)
Inductive JSONValue : Type :=
| JString (s : string)
| JOther.

(** [api.ChatRequest]. *)
Record ChatRequest : Type := mkChatRequest {
  Model       : string;
  Messages    : list Message;
  Temperature : float;
  MaxTokens   : Z;
  Stream      : bool;
  Metadata    : list (string * JSONValue)
}.

(** What the handler reads of [*http.Request]: the [x-request-id] header
    (empty when absent) and the outcome of decoding the body into a
    [ChatRequest] ([None] when [Decode] returns an error). *)
Record Request : Type := mkRequest {
  XRequestID : string;
  Body       : option ChatRequest
}.

(** The collaborators a [Handler] holds, by what they answer.  The router
    and the rate limiter are outside this development: their answers are
    inputs. *)
Record Handler : Type := mkHandler {
  router_Route  : string -> Route;
  registry      : Registry;
  limiter_Allow : string -> Z -> bool * option error
}.

(** The rest of the world a run depends on: the oracle
    [router.IsRetryable], which is outside this development, the UUID that
    [uuid.New] draws, and the readings of the clock. *)
Record Env : Type := mkEnv {
  IsRetryable     : error -> bool;
  uuid_New        : string;
  attempt_latency : Z -> Z;
  request_latency : Z;
  stream_latency  : Z
}.

(** What is written to the [http.ResponseWriter]. *)
Inductive Payload : Type :=
| JSONResponse (resp : ChatResponse)
| JSONError (msg requestID : string)
| SSEData (chunk : ChatChunk)
| SSEDone
| SSEError (msg : string).

(** The effects of a run, in program order. *)
Inductive Event : Type :=
| EvAllow (caller : string) (tokens : Z)
| EvLogError (requestID msg : string) (err : error)
| EvLog (r : usage.Record_.t)
| EvLogAttempt (reqCorrelationID : string) (a : usage.Attempt.t)
| EvAttemptSpan (target : Target) (attemptNo : Z)
| EvChat (target : Target) (req : providers.ChatRequest)
| EvChatStream (target : Target) (req : providers.ChatRequest)
| EvHeader (key value : string)
| EvWriteHeader (code : Z)
| EvWrite (p : Payload)
| EvFlush
| EvPanic.

(** How an attempt loop is left: by a [return] of the handler (or a panic
    that unwinds it), or by falling through to what follows the loop, with
    the attempt counter and the last error as they then stand. *)
Inductive Flow : Type :=
| Returned
| Next (attemptNo : Z) (lastErr : option error).

Definition StatusOK : Z := 200.
Definition StatusBadRequest : Z := 400.
Definition StatusTooManyRequests : Z := 429.
Definition StatusBadGateway : Z := 502.

Definition getStatusCode (err : option error) (success : bool) : Z :=
  if success then StatusOK else StatusBadGateway.

Definition getErrorMessage (err : option error) : string :=
  match err with
  | None => ""
  | Some e => Error e
  end.

Definition respondError (code : Z) (msg requestID : string) : list Event :=
  [ EvHeader "Content-Type" "application/json";
    EvHeader "x-request-id" requestID;
    EvWriteHeader code;
    EvWrite (JSONError msg requestID) ].

(** [fmt.Sprintf("%v", messages)]. *)
Fixpoint Sprint_structs (ms : list Message) : string :=
  match ms with
  | [] => ""
  | m :: ms' =>
      let s := ("{" ++ Role m ++ " " ++ Content m ++ "}")%string in
      match ms' with
      | [] => s
      | _ :: _ => (s ++ " " ++ Sprint_structs ms')%string
      end
  end.

Definition Sprint (ms : list Message) : string :=
  ("[" ++ Sprint_structs ms ++ "]")%string.

(** [v, _ := m[key].(string)]. *)
Fixpoint string_at (m : list (string * JSONValue)) (key : string) : string :=
  match m with
  | [] => ""
  | (k, v) :: m' =>
      if String.eqb k key
      then match v with JString s => s | JOther => "" end
      else string_at m' key
  end.

Section Run.

Variable h : Handler.
Variable env : Env.

Section Stream.

Variable req : providers.ChatRequest.
Variables (requestID : string) (route : Route) (target : Target).
Variables (tenant useCase : string) (attemptNo : Z).

(** The final record of a stream that closed cleanly: the token counts are
    approximated from the serialized messages and the accumulated content. *)
Definition stream_record (fullContent : string) : usage.Record_.t :=
  let prompt := usage.ApproximateTokens (Sprint (providers.Messages req)) in
  let completion := usage.ApproximateTokens fullContent in
  usage.Record_.mk requestID tenant useCase (Name route)
    (config.Provider target) (config.Model target)
    prompt completion (prompt + completion) 0%float
    (stream_latency env) StatusOK "".

(** The attempt row of a stream that failed. *)
Definition stream_failure (err : error) : usage.Attempt.t :=
  usage.Attempt.mk requestID attemptNo (config.Provider target)
    (config.Model target) 0 StatusBadGateway (Error err).

(** The [for { select { ... } }] of [handleStream], over what the
    successive [select]s receive.  When nothing more is received the
    pump stays blocked in [select]: the effects end there. *)
Fixpoint pump (received : list Received) (fullContent : string)
  : list Event :=
  match received with
  | [] => []
  | RecvChunk chunk :: rest =>
      let fullContent' :=
        match CChoices chunk with
        | c :: _ => (fullContent ++ Delta_Content c)%string
        | [] => fullContent
        end in
      EvWrite (SSEData chunk) :: EvFlush :: pump rest fullContent'
  | RecvChunkClosed :: _ =>
      [ EvLog (stream_record fullContent); EvWrite SSEDone; EvFlush ]
  | RecvErr (Some err) :: _ =>
      [ EvLogAttempt requestID (stream_failure err);
        EvWrite (SSEError (Error err));
        EvFlush ]
  | RecvErr None :: rest => pump rest fullContent
  | RecvDone :: _ => []
  end.

Definition handleStream (p : Provider) : list Event :=
  [ EvChatStream target req;
    EvHeader "Content-Type" "text/event-stream";
    EvHeader "Cache-Control" "no-cache";
    EvHeader "Connection" "keep-alive";
    EvHeader "x-request-id" requestID;
    EvHeader "x-gw-route" (Name route);
    EvHeader "x-gw-provider" (config.Provider target);
    EvHeader "x-gw-model" (config.Model target) ]
  ++ pump (ChatStream p req attemptNo) "".

End Stream.

Section Attempts.

Variable req : ChatRequest.
Variables (requestID : string) (route : Route).
Variables (tenant useCase : string).

(** The request handed to the provider: the target's model overrides the
    client's. *)
Definition provReq (target : Target) : providers.ChatRequest :=
  providers.mkChatRequest (config.Model target) (Messages req)
    (Temperature req) (MaxTokens req) (Stream req).

(** The attempt row that is journaled after a call to [Chat]. *)
Definition attempt_row (target : Target) (attemptNo : Z)
  (resp : option ChatResponse) (err : option error) : usage.Attempt.t :=
  usage.Attempt.mk requestID attemptNo (config.Provider target)
    (config.Model target) (attempt_latency env attemptNo)
    (getStatusCode err (match resp with Some _ => true | None => false end))
    (getErrorMessage err).

(** One iteration up to the journal write: the span starts, the provider
    is called, the attempt is journaled. *)
Definition call (target : Target) (attemptNo : Z)
  (resp : option ChatResponse) (err : option error) : list Event :=
  [ EvAttemptSpan target attemptNo;
    EvChat target (provReq target);
    EvLogAttempt requestID (attempt_row target attemptNo resp err) ].

(** The final record of a buffered success. *)
Definition success_record (target : Target) (resp : ChatResponse)
  : usage.Record_.t :=
  usage.Record_.mk requestID tenant useCase (Name route)
    (config.Provider target) (config.Model target)
    (PromptTokens (Usage_ resp)) (CompletionTokens (Usage_ resp))
    (TotalTokens (Usage_ resp)) 0%float (request_latency env) StatusOK "".

(** The [if err == nil { ... return }] branch. *)
Definition respond (target : Target) (resp : ChatResponse) : list Event :=
  [ EvLog (success_record target resp);
    EvHeader "x-request-id" requestID;
    EvHeader "x-gw-route" (Name route);
    EvHeader "x-gw-provider" (config.Provider target);
    EvHeader "x-gw-model" (config.Model target);
    EvWrite (JSONResponse resp) ].

(** [for i := 0; i <= route.Retries; i++ { ... }] on one target.  The body
    never reads [i], and the condition holds for exactly
    [Z.to_nat (Retries route + 1)] values of [i]: [n] is the number of
    iterations the loop has left.  With a nil response and a nil error the
    handler dereferences nil at [resp.Usage] and panics. *)
Fixpoint attempt (target : Target) (n : nat) (attemptNo : Z)
  (lastErr : option error) : list Event * Flow :=
  match n with
  | O => ([], Next attemptNo lastErr)
  | S n' =>
      match Get (registry h) (config.Provider target) with
      | inr pErr =>
          ([EvAttemptSpan target attemptNo], Next attemptNo (Some pErr))
      | inl provider =>
          if Stream req then
            (EvAttemptSpan target attemptNo
             :: handleStream (provReq target) requestID route target
                  tenant useCase attemptNo provider,
             Returned)
          else
            let '(resp, err) := Chat provider (provReq target) attemptNo in
            match err with
            | None =>
                match resp with
                | Some r =>
                    (call target attemptNo resp err ++ respond target r,
                     Returned)
                | None =>
                    (call target attemptNo resp err ++ [EvPanic], Returned)
                end
            | Some e =>
                if IsRetryable env e then
                  let '(evs, flow) :=
                    attempt target n' (attemptNo + 1) (Some e) in
                  (call target attemptNo resp err ++ evs, flow)
                else
                  (call target attemptNo resp err
                   ++ [EvLogError requestID "non-retryable error" e],
                   Next (attemptNo + 1) (Some e))
            end
      end
  end.

(** [for _, target := range targets { ... }]. *)
Fixpoint attempts (targets : list Target) (attemptNo : Z)
  (lastErr : option error) : list Event * Flow :=
  match targets with
  | [] => ([], Next attemptNo lastErr)
  | target :: rest =>
      let '(evs, flow) :=
        attempt target (Z.to_nat (Retries route + 1)) attemptNo lastErr in
      match flow with
      | Returned => (evs, Returned)
      | Next attemptNo' lastErr' =>
          let '(evs', flow') := attempts rest attemptNo' lastErr' in
          (evs ++ evs', flow')
      end
  end.

(** The cases of one iteration of the inner loop, by what the registry and
    the provider answer: its effects and how it is left.  [n] is the number
    of iterations the loop has left after this one. *)
Inductive iteration (t : Target) (n : nat) (a : Z)
  : list Event -> Flow -> Prop :=
| it_not_found :
    lookup (registry h) (config.Provider t) = None ->
    iteration t n a [EvAttemptSpan t a]
      (Next a (Some (Errorf ("provider " ++ config.Provider t
                             ++ " not found")%string)))
| it_stream p :
    lookup (registry h) (config.Provider t) = Some p ->
    Stream req = true ->
    iteration t n a
      (EvAttemptSpan t a
       :: handleStream (provReq t) requestID route t tenant useCase a p)
      Returned
| it_success p r :
    lookup (registry h) (config.Provider t) = Some p ->
    Stream req = false ->
    Chat p (provReq t) a = (Some r, None) ->
    iteration t n a (call t a (Some r) None ++ respond t r) Returned
| it_panic p :
    lookup (registry h) (config.Provider t) = Some p ->
    Stream req = false ->
    Chat p (provReq t) a = (None, None) ->
    iteration t n a (call t a None None ++ [EvPanic]) Returned
| it_retry p resp e :
    lookup (registry h) (config.Provider t) = Some p ->
    Stream req = false ->
    Chat p (provReq t) a = (resp, Some e) ->
    IsRetryable env e = true ->
    iteration t n a
      (call t a resp (Some e) ++ fst (attempt t n (a + 1) (Some e)))
      (snd (attempt t n (a + 1) (Some e)))
| it_no_retry p resp e :
    lookup (registry h) (config.Provider t) = Some p ->
    Stream req = false ->
    Chat p (provReq t) a = (resp, Some e) ->
    IsRetryable env e = false ->
    iteration t n a
      (call t a resp (Some e)
       ++ [EvLogError requestID "non-retryable error" e])
      (Next (a + 1) (Some e)).

End Attempts.

(** [requestID]: the header, or a fresh UUID when it is absent or empty. *)
Definition requestID_of (r : Request) : string :=
  if String.eqb (XRequestID r) "" then uuid_New env else XRequestID r.

(** [tenant]: [metadata.tenant], or "anonymous" when absent, not a string
    or empty.  The tenant is also the rate limiter's caller. *)
Definition tenant_of (req : ChatRequest) : string :=
  let tenant := string_at (Metadata req) "tenant" in
  if String.eqb tenant "" then "anonymous" else tenant.

Definition useCase_of (req : ChatRequest) : string :=
  string_at (Metadata req) "use_case".

Definition promptTokens_of (req : ChatRequest) : Z :=
  usage.ApproximateTokens (Sprint (Messages req)).

(** The skeleton record that makes sure the request row exists. *)
Definition skeleton (requestID tenant useCase : string) (route : Route)
  : usage.Record_.t :=
  usage.Record_.mk requestID tenant useCase (Name route)
    "" "" 0 0 0 0%float 0 0 "".

Definition rate_limited (requestID tenant useCase : string)
  : usage.Record_.t :=
  usage.Record_.mk requestID tenant useCase "" "" "" 0 0 0
    0%float 0 StatusTooManyRequests "rate limited".

(** What follows the attempt loops. *)
Definition after_loop (requestID : string) (flow : Flow) : list Event :=
  match flow with
  | Returned => []
  | Next _ (Some lastErr) =>
      respondError StatusBadGateway (Error lastErr) requestID
  | Next _ None => [EvPanic]
  end.

(** The rate-limit check: a failure of the limiter is logged, nothing
    more. *)
Definition admission (requestID caller : string) (promptTokens : Z)
  (err : option error) : list Event :=
  EvAllow caller promptTokens ::
  match err with
  | Some e => [EvLogError requestID "rate limit check failed" e]
  | None => []
  end.

(** The attempt loops of a request: the targets are the primary and then
    the fallbacks, the counter starts at 1, no error has been met. *)
Definition loop (r : Request) (req : ChatRequest) : list Event * Flow :=
  let route := router_Route h (useCase_of req) in
  attempts req (requestID_of r) route (tenant_of req) (useCase_of req)
    (Primary route :: Fallbacks route) 1 None.

Definition HandleChat (r : Request) : list Event :=
  let requestID := requestID_of r in
  match Body r with
  | None => respondError StatusBadRequest "invalid request body" requestID
  | Some req =>
      let tenant := tenant_of req in
      let useCase := useCase_of req in
      let caller := tenant in
      let promptTokens := promptTokens_of req in
      let '(allowed, err) := limiter_Allow h caller promptTokens in
      admission requestID caller promptTokens err ++
      if negb allowed then
        EvLog (rate_limited requestID tenant useCase)
        :: respondError StatusTooManyRequests "rate limited" requestID
      else
        let route := router_Route h useCase in
        let '(evs, flow) := loop r req in
        EvLog (skeleton requestID tenant useCase route)
        :: evs ++ after_loop requestID flow
  end.

End Run.

(** The two loops from the middle of the inner one: [n] iterations are
    left on [target], and [rest] are the targets after it.
    [attempts (target :: rest)] is [attempts_from target rest] with
    all the iterations of the inner loop left. *)
Definition attempts_from (h : Handler) (env : Env) (req : ChatRequest)
  (requestID : string) (route : Route) (tenant useCase : string)
  (target : Target) (rest : list Target) (n : nat) (attemptNo : Z)
  (lastErr : option error) : list Event * Flow :=
  let '(evs, flow) :=
    attempt h env req requestID route tenant useCase target n attemptNo
      lastErr in
  match flow with
  | Returned => (evs, Returned)
  | Next attemptNo' lastErr' =>
      let '(evs', flow') :=
        attempts h env req requestID route tenant useCase rest attemptNo'
          lastErr' in
      (evs ++ evs', flow')
  end.

(** *** Reading a run *)

(** The journal's effect of a run on the database. *)
Definition journal_step (s : usage.Store) (e : Event) : usage.Store :=
  match e with
  | EvLog r => usage.Log s r
  | EvLogAttempt rid a => usage.LogAttempt s rid a
  | _ => s
  end.

Definition journal (s : usage.Store) (run : list Event) : usage.Store :=
  fold_left journal_step run s.

(** The status line of the response: the first [WriteHeader], or 200 when
    the body is written with no [WriteHeader] before it. *)
Fixpoint response_status (run : list Event) : option Z :=
  match run with
  | [] => None
  | EvWriteHeader code :: _ => Some code
  | EvWrite _ :: _ => Some StatusOK
  | _ :: run' => response_status run'
  end.

(** The attempt rows and the request records a run hands to the journal,
    in order. *)
Fixpoint logged_attempts (run : list Event) : list usage.Attempt.t :=
  match run with
  | [] => []
  | EvLogAttempt _ a :: run' => a :: logged_attempts run'
  | _ :: run' => logged_attempts run'
  end.

Fixpoint logged_records (run : list Event) : list usage.Record_.t :=
  match run with
  | [] => []
  | EvLog r :: run' => r :: logged_records run'
  | _ :: run' => logged_records run'
  end.

(** The targets of the calls to [Chat], in order. *)
Fixpoint chat_targets (run : list Event) : list Target :=
  match run with
  | [] => []
  | EvChat t _ :: run' => t :: chat_targets run'
  | _ :: run' => chat_targets run'
  end.

(** The targets handed to the streaming path, in order. *)
Fixpoint stream_targets (run : list Event) : list Target :=
  match run with
  | [] => []
  | EvChatStream t _ :: run' => t :: stream_targets run'
  | _ :: run' => stream_targets run'
  end.

(** The iterations of the attempt loop: target and attempt counter at the
    start of each. *)
Fixpoint iterations (run : list Event) : list (Target * Z) :=
  match run with
  | [] => []
  | EvAttemptSpan t a :: run' => (t, a) :: iterations run'
  | _ :: run' => iterations run'
  end.

(** What is written to the response, in order. *)
Fixpoint written (run : list Event) : list Payload :=
  match run with
  | [] => []
  | EvWrite p :: run' => p :: written run'
  | _ :: run' => written run'
  end.

(** The journal events of a run concern one request id. *)
Definition journals_only (rid : string) (run : list Event) : Prop :=
  Forall (fun e =>
            match e with
            | EvLog r => usage.Record_.RequestID r = rid
            | EvLogAttempt rid' _ => rid' = rid
            | _ => True
            end) run.

(** [a; a+1; ...], [k] numbers. *)
Fixpoint numbers (a : Z) (k : nat) : list Z :=
  match k with
  | O => []
  | S k' => a :: numbers (a + 1) k'
  end.

(** The payloads that complete a successful response: the JSON body of
    the buffered path and the [data: [DONE]] trailer of a stream. *)
Definition completes (p : Payload) : bool :=
  match p with
  | JSONResponse _ | SSEDone => true
  | _ => false
  end.

Definition is_span (e : Event) : bool :=
  match e with
  | EvAttemptSpan _ _ => true
  | _ => false
  end.

Definition is_completion (e : Event) : bool :=
  match e with
  | EvWrite p => completes p
  | _ => false
  end.

(** [P pre e] holds of every selected event [e] of a run and the events
    [pre] that come before it. *)
Definition before_each (sel : Event -> bool)
  (P : list Event -> Event -> Prop) (run : list Event) : Prop :=
  forall pre e post, run = pre ++ e :: post -> sel e = true -> P pre e.

(** The attempt numbers journaled by [run] are [a], [a+1], ..., and the
    counter a loop is left with is the next one. *)
Definition numbered_from (a : Z) (run : list Event) (flow : Flow) : Prop :=
  exists k,
    map usage.Attempt.AttemptNo (logged_attempts run) = numbers a k /\
    forall a' l', flow = Next a' l' -> a' = a + Z.of_nat k.

(** When an iteration with counter [a'] starts, the attempts numbered from
    [a] up to [a' - 1] have been journaled, and no others. *)
Definition journaled_before_spans (a : Z) (run : list Event) : Prop :=
  before_each is_span
    (fun pre e =>
       forall t' a', e = EvAttemptSpan t' a' ->
         a <= a' /\
         map usage.Attempt.AttemptNo (logged_attempts pre)
         = numbers a (Z.to_nat (a' - a)))
    run.

(** Before the payload that completes a successful response is written, a
    record with status 200 has been handed to [Log]. *)
Definition logged_before_completion (run : list Event) : Prop :=
  before_each is_completion
    (fun pre _ =>
       exists r, In r (logged_records pre) /\
                 usage.Record_.StatusCode r = StatusOK)
    run.

(** The text of the last error a run has met, [acc] being the text of the
    last error before the run: an iteration that stops at the registry
    meets the registry's error, an iteration that calls the provider meets
    the error whose text its attempt row carries. *)
Fixpoint last_error_text (run : list Event) (acc : option string)
  : option string :=
  match run with
  | [] => acc
  | EvAttemptSpan t _ :: run' =>
      last_error_text run'
        (Some ("provider " ++ config.Provider t ++ " not found")%string)
  | EvLogAttempt _ a :: run' =>
      last_error_text run' (Some (usage.Attempt.ErrorMessage a))
  | _ :: run' => last_error_text run' acc
  end.

(** The row that [LogAttempt] inserts for a request row with id [i]. *)
Definition attempt_row_of (i : nat) (a : usage.Attempt.t)
  : usage.provider_attempts_row :=
  usage.mkAttemptsRow i (usage.Attempt.AttemptNo a)
    (usage.Attempt.Provider a) (usage.Attempt.Model a)
    (usage.Attempt.LatencyMS a) (usage.Attempt.StatusCode a)
    (usage.Attempt.ErrorMessage a).

(** *** Reading a stream *)

Definition is_write (e : Event) : bool :=
  match e with
  | EvWrite _ => true
  | _ => false
  end.

(** What a [select] receives without ending the pump: a chunk, or a nil
    from the error channel. *)
Definition goes_on (r : Received) : bool :=
  match r with
  | RecvChunk _ | RecvErr None => true
  | _ => false
  end.

(** The chunks among what is received. *)
Fixpoint chunks_in (received : list Received) : list ChatChunk :=
  match received with
  | [] => []
  | RecvChunk chunk :: rest => chunk :: chunks_in rest
  | _ :: rest => chunks_in rest
  end.

(** The text that [handleStream] accumulates over chunks: the content of
    the first choice of each chunk that has one. *)
Fixpoint content_of (chunks : list ChatChunk) : string :=
  match chunks with
  | [] => ""
  | chunk :: rest =>
      match CChoices chunk with
      | c :: _ => (Delta_Content c ++ content_of rest)%string
      | [] => content_of rest
      end
  end.

(** One SSE record, flushed, per chunk. *)
Definition forwarded (chunks : list ChatChunk) : list Event :=
  flat_map (fun chunk => [EvWrite (SSEData chunk); EvFlush]) chunks.

(** No provider of the registry answers with both a response and an
    error. *)
Definition exclusive_answers (reg : Registry) : Prop :=
  forall name p q a resp e,
    lookup reg name = Some p -> Chat p q a = (resp, Some e) -> resp = None.

(** *** Reading the response headers *)

(** The values that [w.Header().Set] gives to one key, in order. *)
Fixpoint header_values (key : string) (run : list Event) : list string :=
  match run with
  | [] => []
  | EvHeader k v :: run' =>
      if String.eqb k key then v :: header_values key run'
      else header_values key run'
  | _ :: run' => header_values key run'
  end.

(** At a write [e] that comes after [pre], the response carries the
    request id: [x-request-id] has been set once, to [rid], and an error
    body names the same id. *)
Definition echoes (rid : string) (pre : list Event) (e : Event) : Prop :=
  header_values "x-request-id" pre = [rid] /\
  forall msg id, e = EvWrite (JSONError msg id) -> id = rid.

(** After [pre] the gateway headers agree with the journal: the last
    record handed to [Log] has status 200, and [x-gw-route],
    [x-gw-provider] and [x-gw-model] have each been set once, to the
    record's route, provider and model. *)
Definition announced (pre : list Event) : Prop :=
  exists recs rec,
    logged_records pre = recs ++ [rec] /\
    usage.Record_.StatusCode rec = StatusOK /\
    header_values "x-gw-route" pre = [usage.Record_.RouteName rec] /\
    header_values "x-gw-provider" pre = [usage.Record_.Provider rec] /\
    header_values "x-gw-model" pre = [usage.Record_.Model rec].

(** *** Reading the journal *)

(** [provider] and [model] are those of one of the targets. *)
Definition names_target (targets : list Target) (provider model : string)
  : Prop :=
  exists t, In t targets /\
            provider = config.Provider t /\ model = config.Model t.

(** An attempt row of the request [rid] on one of the targets, with one
    of the two status codes that [getStatusCode] knows. *)
Definition attempt_of (rid : string) (targets : list Target)
  (x : usage.Attempt.t) : Prop :=
  usage.Attempt.RequestID x = rid /\
  names_target targets (usage.Attempt.Provider x) (usage.Attempt.Model x) /\
  (usage.Attempt.StatusCode x = StatusOK \/
   usage.Attempt.StatusCode x = StatusBadGateway).

(** A record of the request [rid] of [tenant] for [useCase], which names
    no provider or one of the targets. *)
Definition record_of (rid tenant useCase : string) (targets : list Target)
  (rec : usage.Record_.t) : Prop :=
  usage.Record_.RequestID rec = rid /\
  usage.Record_.Tenant rec = tenant /\
  usage.Record_.UseCase rec = useCase /\
  ((usage.Record_.Provider rec = "" /\ usage.Record_.Model rec = "") \/
   names_target targets (usage.Record_.Provider rec)
     (usage.Record_.Model rec)).

(** The attempt rows of a run tell how it went: all carry 502, or all but
    the last do, and the last carries 200 and no error message beside the
    one JSON response that the run writes. *)
Definition failed (x : usage.Attempt.t) : Prop :=
  usage.Attempt.StatusCode x = StatusBadGateway.

Definition attempts_tell (run : list Event) : Prop :=
  Forall failed (logged_attempts run) \/
  exists pre x resp,
    logged_attempts run = pre ++ [x] /\
    Forall failed pre /\
    usage.Attempt.StatusCode x = StatusOK /\
    usage.Attempt.ErrorMessage x = "" /\
    written run = [JSONResponse resp].

(** A loop that falls through has written nothing and journaled failures
    only; a loop that the handler returns from tells how it went. *)
Definition tells (evs : list Event) (flow : Flow) : Prop :=
  match flow with
  | Next _ _ => written evs = [] /\ Forall failed (logged_attempts evs)
  | Returned => attempts_tell evs
  end.

(** *** Reading the response body *)

(** How a stream's body ends: cut off, by the trailer, or by one error
    frame. *)
Definition stream_end (tail : list Payload) : Prop :=
  tail = [] \/ tail = [SSEDone] \/ exists msg, tail = [SSEError msg].

(** The bodies the handler can write for the request [rid], each with
    the values that the run gives to the [Content-Type] header: nothing;
    one JSON error; one JSON response; or the records of a stream. *)
Definition response_shape (rid : string) (run : list Event) : Prop :=
  written run = [] \/
  (exists msg,
     written run = [JSONError msg rid] /\
     header_values "Content-Type" run = ["application/json"]) \/
  (exists resp,
     written run = [JSONResponse resp] /\
     header_values "Content-Type" run = []) \/
  (exists chunks tail,
     written run = map SSEData chunks ++ tail /\ stream_end tail /\
     header_values "Content-Type" run = ["text/event-stream"]).

(** A call to a provider, buffered or streaming. *)
Definition is_call (e : Event) : bool :=
  match e with
  | EvChat _ _ | EvChatStream _ _ => true
  | _ => false
  end.

End api.

(** ** Concrete scenarios *)

Module scenario.

Import api.

Definition messages : list providers.Message :=
  [providers.mkMessage "user" "Hello!"].

Definition metadata : list (string * JSONValue) :=
  [("tenant", JString "acme"); ("use_case", JString "support_summary")].

(** A request with header [x-request-id: req-1]. *)
Definition request (stream : bool) : Request :=
  mkRequest "req-1"
    (Some (mkChatRequest "" messages 0%float 0 stream metadata)).

(** The same request with a body that does not decode. *)
Definition malformed : Request := mkRequest "req-1" None.

Definition openai : config.Target := config.mkTarget "openai" "gpt-4o-mini".
Definition anthropic : config.Target :=
  config.mkTarget "anthropic" "claude-3-sonnet".
Definition ghost : config.Target := config.mkTarget "ghost" "gpt-4o-mini".

Definition route (primary : config.Target) (fallbacks : list config.Target)
  (retries : Z) : config.Route :=
  config.mkRoute "support" (config.mkMatch "support_summary")
    primary fallbacks 0 retries.

Definition response : providers.ChatResponse :=
  providers.mkChatResponse "mock-openai-id" "chat.completion" 0 "gpt-4o-mini"
    [providers.mkChoice 0 (providers.mkMessage "assistant" "Hi") "stop"]
    (providers.mkUsage 10 20 30).

Definition chunk (content : string) : providers.ChatChunk :=
  providers.mkChatChunk "mock-stream-id" "chat.completion.chunk" 0
    "gpt-4o-mini" [providers.mkChunkChoice 0 content ""].

(** A transport failure and a provider's HTTP error. *)
Definition refused : error :=
  mkError "*net.OpError" "dial tcp: connection refused".
Definition http500 : error := Errorf "openai error (status 500): map[]".

(** A provider that answers and streams two chunks to a clean close. *)
Definition answering : providers.Provider :=
  providers.mkProvider
    (fun _ _ => (Some response, None))
    (fun _ _ => [providers.RecvChunk (chunk "Hello ");
                 providers.RecvChunk (chunk "world ");
                 providers.RecvChunkClosed]).

(** A provider that cannot be reached. *)
Definition unreachable : providers.Provider :=
  providers.mkProvider
    (fun _ _ => (None, Some refused))
    (fun _ _ => [providers.RecvErr (Some refused)]).

(** A provider that answers with an HTTP error. *)
Definition unhappy : providers.Provider :=
  providers.mkProvider
    (fun _ _ => (None, Some http500))
    (fun _ _ => [providers.RecvErr (Some http500)]).

Definition handler (rt : config.Route) (reg : providers.Registry)
  (admitted : bool) : Handler :=
  mkHandler (fun _ => rt) reg (fun _ _ => (admitted, None)).

(** Transport errors are the retryable ones. *)
Definition world : Env :=
  mkEnv (fun e => String.eqb (dynType e) "*net.OpError") "generated-uuid"
    (fun _ => 5) 9 7.

(** A provider whose error channel is closed, and read, before its chunk
    channel has delivered everything. *)
Definition closing : providers.Provider :=
  providers.mkProvider
    (fun _ _ => (Some response, None))
    (fun _ _ => [providers.RecvErr None;
                 providers.RecvChunk (chunk "Hello ");
                 providers.RecvChunkClosed]).

(** A world in which every error counts as retryable. *)
Definition lenient_world : Env :=
  mkEnv (fun _ => true) "generated-uuid" (fun _ => 5) 9 7.

(** The decoded body of [request]. *)
Definition body (stream : bool) : ChatRequest :=
  mkChatRequest "" messages 0%float 0 stream metadata.

(** A route whose primary names a provider that the registry does not
    have, with one fallback and two retries. *)
Definition misconfigured : Handler :=
  handler (route ghost [openai] 2) [("openai", answering)] true.

(** The same route when the primary's provider is registered but cannot be
    reached. *)
Definition primary_down : Handler :=
  handler (route ghost [openai] 2)
    [("ghost", unreachable); ("openai", answering)] true.

(** One target, no fallbacks, a given retry budget. *)
Definition single (p : providers.Provider) (retries : Z) : Handler :=
  handler (route openai [] retries) [("openai", p)] true.

Definition skeleton_record : usage.Record_.t :=
  skeleton "req-1" "acme" "support_summary" (route openai [anthropic] 0).

Definition final_record : usage.Record_.t :=
  usage.Record_.mk "req-1" "acme" "support_summary" "support"
    "openai" "gpt-4o-mini" 10 20 30 0%float 9 200 "".

End scenario.

(** ** The adapters in mock mode *)

Module strings.

(** [strings.Split(s, sep)] for a separator of one byte: the pieces of
    [s] between the occurrences of [sep], one more than there are
    occurrences. *)
Fixpoint Split (s : string) (sep : ascii) : list string :=
  match s with
  | EmptyString => [EmptyString]
  | String ch s' =>
      if Ascii.eqb ch sep then EmptyString :: Split s' sep
      else match Split s' sep with
           | w :: ws => String ch w :: ws
           | [] => [String ch EmptyString]
           end
  end.

End strings.

(** The branch [if p.apiKey == "mock"] of [ChatStream], which the two
    adapters share but for two string constants: the text put before the
    content of the request's last message, and the id of the chunks. *)
Module mock.

Import providers.

(** [req.Messages[len(req.Messages)-1]]: [None] when the index is out of
    range, where the goroutine panics. *)
Fixpoint last_message (ms : list Message) : option Message :=
  match ms with
  | [] => None
  | m :: ms' =>
      match ms' with
      | [] => Some m
      | _ :: _ => last_message ms'
      end
  end.

Section Stream.

Variables (label id : string).

(** [clock k] is the reading of [time.Now().Unix()] when the chunk
    number [k] is made. *)
Variable clock : nat -> Z.

Definition word_chunk (k : nat) (model word : string) : ChatChunk :=
  mkChatChunk id "chat.completion.chunk" (clock k) model
    [mkChunkChoice 0 (word ++ " ") ""].

Definition stop_chunk (k : nat) (model : string) : ChatChunk :=
  mkChatChunk id "chat.completion.chunk" (clock k) model
    [mkChunkChoice 0 "" "stop"].

(** [for i, word := range words { ... }]: one chunk per word, and after
    the last word a chunk with the finish reason; [k] chunks have been
    sent before. *)
Fixpoint send (model : string) (k : nat) (words : list string)
  : list ChatChunk :=
  match words with
  | [] => []
  | word :: rest =>
      word_chunk k model word ::
      match rest with
      | [] => [stop_chunk (S k) model]
      | _ :: _ => send model (S k) rest
      end
  end.

(** The chunks that the goroutine sends on the chunk channel before it
    closes both channels. *)
Definition ChatStream (req : ChatRequest) : option (list ChatChunk) :=
  match last_message (Messages req) with
  | None => None
  | Some m =>
      Some (send (Model req) 0
              (strings.Split (label ++ Content m) " "%char))
  end.

End Stream.

(** What the handler's [select] receives from the two channels while the
    client stays connected: the chunks in order, then, the error channel
    being closed first, nil from it any number of times, then the close
    of the chunk channel. *)
Definition observed (chunks : list ChatChunk) (nils : nat)
  : list Received :=
  map RecvChunk chunks ++ repeat (RecvErr None) nils ++ [RecvChunkClosed].

End mock.

Module openai.

Definition ChatStream_mock : (nat -> Z) -> providers.ChatRequest
  -> option (list providers.ChatChunk) :=
  mock.ChatStream "OpenAI Mock Stream: " "mock-stream-id".

End openai.

Module anthropic.

Definition ChatStream_mock : (nat -> Z) -> providers.ChatRequest
  -> option (list providers.ChatChunk) :=
  mock.ChatStream "Anthropic Mock Stream: " "mock-anth-stream-id".

End anthropic.


(** ** The retry-then-fallback policy, as the specification words it *)

(** The specification describes the orchestrator by what it does after
    each attempt.  This module writes that description down on its own,
    over the answers of the registry and of the providers, for the
    handler's run to be compared with it.  It follows the words of C1;
    the two cases that C1 does not speak of are taken as the handler has
    them: a target whose provider the registry does not know is passed
    over without an attempt number being used (C5, amended), and a
    provider that returns neither a response nor an error ends the
    run. *)
Module policy.

Import config providers api.

(** What trying a target with a given attempt number is answered with: the
    registry has no adapter; the provider returns a response and no
    error; it returns neither; it returns an error. *)
Inductive Answer : Type :=
| Unknown
| Answered (resp : ChatResponse)
| Empty
| Failed (e : error).

Definition answer (h : Handler) (req : ChatRequest) (t : Target) (a : Z)
  : Answer :=
  match lookup (registry h) (config.Provider t) with
  | None => Unknown
  | Some p =>
      match Chat p (provReq req t) a with
      | (_, Some e) => Failed e
      | (Some resp, None) => Answered resp
      | (None, None) => Empty
      end
  end.

(** Where the orchestrator stands when it tries a target: the target, the
    targets of the route that come after it, the number of retries it
    has made on this target, and the attempt number. *)
Record Position : Type := mkPosition {
  target    : Target;
  later     : list Target;
  retry     : Z;
  attemptNo : Z
}.

(** The first try: the primary, before the fallbacks in their order, no
    retry made, attempt number 1. *)
Definition start (route : Route) : Position :=
  mkPosition (Primary route) (Fallbacks route) 0 1.

(** It advances to the next target, if there is one. *)
Definition advance (p : Position) (a : Z) : option Position :=
  match later p with
  | [] => None
  | t :: ts => Some (mkPosition t ts 0 a)
  end.

(** Where it goes after the answer at a position.  After a retryable
    error it re-attempts the same target, with the next attempt number,
    while the per-target retry count is at most [retries]; after any
    other error it advances to the next target with the next attempt
    number; when the registry does not know the provider it advances with
    the attempt number it has; after an answer without error it goes
    nowhere. *)
Definition next (retryable : error -> bool) (retries : Z) (p : Position)
  (ans : Answer) : option Position :=
  match ans with
  | Failed e =>
      if retryable e && (retry p + 1 <=? retries)
      then Some (mkPosition (target p) (later p) (retry p + 1)
                   (attemptNo p + 1))
      else advance p (attemptNo p + 1)
  | Unknown => advance p (attemptNo p)
  | Answered _ | Empty => None
  end.

Section Policy.

Variables (h : Handler) (env : Env) (req : ChatRequest) (retries : Z).

Definition answer_at (p : Position) : Answer :=
  answer h req (target p) (attemptNo p).

(** [follows p ps z]: [ps] are the positions of a run that starts at [p]
    and goes by [next] until there is nowhere to go, and [z] is the last
    of them. *)
Inductive follows : Position -> list Position -> Position -> Prop :=
| follows_last p :
    next (IsRetryable env) retries p (answer_at p) = None ->
    follows p [p] p
| follows_step p q ps z :
    next (IsRetryable env) retries p (answer_at p) = Some q ->
    follows q ps z ->
    follows p (p :: ps) z.

(** The provider is called at a position unless the registry does not
    know it. *)
Definition called (p : Position) : bool :=
  match answer_at p with
  | Unknown => false
  | _ => true
  end.

(** What the client gets when the run ends at [z]: the response, with
    status 200; or, every target being exhausted, HTTP 502 with the text
    of the last error.  (When a provider returns neither a response nor
    an error the handler panics and writes nothing.) *)
Definition ending (requestID : string) (z : Position) (run : list Event)
  : Prop :=
  match answer_at z with
  | Answered resp =>
      written run = [JSONResponse resp] /\
      response_status run = Some 200
  | Empty =>
      written run = [] /\ response_status run = None /\ In EvPanic run
  | Failed e =>
      written run = [JSONError (Error e) requestID] /\
      response_status run = Some 502
  | Unknown =>
      written run
      = [JSONError ("provider " ++ config.Provider (target z)
                    ++ " not found")%string requestID] /\
      response_status run = Some 502
  end.

(** The same for the loops alone, which leave the 502 to what follows
    them: they are left by a return after an answer without error, and
    fall through with the last error, having written nothing, after an
    error. *)
Definition leaves (z : Position) (evs : list Event) (flow : Flow) : Prop :=
  match answer_at z with
  | Answered resp =>
      flow = Returned /\ written evs = [JSONResponse resp] /\
      response_status evs = Some 200
  | Empty =>
      flow = Returned /\ written evs = [] /\
      response_status evs = None /\ In EvPanic evs
  | Failed e =>
      (exists a, flow = Next a (Some e)) /\ written evs = [] /\
      response_status evs = None
  | Unknown =>
      (exists a,
         flow = Next a (Some (Errorf ("provider "
                                      ++ config.Provider (target z)
                                      ++ " not found")%string))) /\
      written evs = [] /\ response_status evs = None
  end.

End Policy.

End policy.

(** * Properties *)

(** ** The cost estimator *)

(** [Round] on halves, on the greatest binary64 below one half, and on
    values that are integers already. *)
Example Round_halves :
  (usage.Round 0.5 = 1 /\ usage.Round (-0.5) = -1 /\
   usage.Round 2.5 = 3 /\ usage.Round (-2.5) = -3 /\
   usage.Round 0.49999999999999994 = 0 /\
   usage.Round 13.5 = 14 /\ usage.Round 4503599627370497 = 4503599627370497
  )%float.
Proof. repeat split; vm_compute; reflexivity. Qed.

Example float64_of_int :
  (usage.float64 130 = 130 /\ usage.float64 (-7) = -7 /\
   usage.float64 0 = 0 /\
   usage.float64 9007199254740993 = 9007199254740992)%float.
Proof. repeat split; vm_compute; reflexivity. Qed.

(** Two binary64 values with different representations are different. *)
Lemma float_neq (x y : float) : Prim2SF x <> Prim2SF y -> x <> y.
Proof. intros H E. apply H. now rewrite E. Qed.

(** The [switch] of [EstimateCost] is a lookup in the price table. *)
Lemma rates_price_table (model : string) :
  usage.rates model =
  match usage.price usage.price_table model with
  | Some rate => rate
  | None => usage.default_pair
  end.
Proof.
  unfold usage.rates, usage.price_table, usage.price, usage.default_pair.
  destruct (String.eqb model "gpt-4o-mini") eqn:E1.
  - apply String.eqb_eq in E1. subst model. reflexivity.
  - rewrite String.eqb_sym in E1. rewrite E1.
    destruct (String.eqb model "gpt-4.1-mini") eqn:E2.
    + apply String.eqb_eq in E2. subst model. reflexivity.
    + rewrite String.eqb_sym in E2. rewrite E2.
      destruct (String.eqb model "claude-3-5-sonnet") eqn:E3.
      * apply String.eqb_eq in E3. subst model. reflexivity.
      * rewrite String.eqb_sym in E3. rewrite E3. reflexivity.
Qed.

(** C6, as the claim states it, fails: at 130 prompt tokens of gpt-4o-mini
    the exact cost is 19.5 millionths, which rounds half away from zero to
    0.000020, but the binary64 product is just below 19.5 and
    [EstimateCost] returns 0.000019. *)
Lemma C6_counterexample :
  0 <= 130 /\ 0 <= 0 /\
  usage.exact_micro_usd "gpt-4o-mini" 130 0 = 20 /\
  usage.EstimateCost "gpt-4o-mini" 130 0 = usage.decimal6 19 /\
  usage.EstimateCost "gpt-4o-mini" 130 0
    <> usage.EstimateCost_exact "gpt-4o-mini" 130 0.
Proof.
  split; [lia|]. split; [lia|]. split; [reflexivity|].
  split; [vm_compute; reflexivity|].
  apply float_neq. vm_compute. discriminate.
Qed.

(** C6 (amended): [EstimateCost] evaluates the formula in binary64 with the
    rates of the embedded price table, the default pair (0.15, 0.60) for a
    model that is not in the table; no entry of the table is cheaper than
    the default pair; and [EstimateCost "gpt-4o-mini" 10 20] is 0.000014. *)
Theorem C6_EstimateCost_binary64 (model : string) (prompt completion : Z) :
  usage.EstimateCost model prompt completion
    = usage.EstimateCost_binary64 model prompt completion
  /\ usage.default_pair = (0.15, 0.60)%float
  /\ forallb (fun entry =>
                PrimFloat.leb (fst usage.default_pair) (fst (snd entry))
                && PrimFloat.leb (snd usage.default_pair) (snd (snd entry)))
             usage.price_table = true
  /\ usage.EstimateCost "gpt-4o-mini" 10 20 = usage.decimal6 14
  /\ usage.exact_micro_usd "gpt-4o-mini" 10 20 = 14.
Proof.
  split.
  - unfold usage.EstimateCost, usage.EstimateCost_binary64.
    rewrite rates_price_table.
    destruct (usage.price usage.price_table model) as [[i o]|];
      reflexivity.
  - repeat split; vm_compute; reflexivity.
Qed.
(** ** The journal: [Log] and [LogAttempt] *)

Lemma has_request_id_inserted (rid : string) (i : nat) (r : usage.Record_.t)
  (cost : float) :
  usage.has_request_id rid (usage.inserted i r cost)
  = String.eqb (usage.Record_.RequestID r) rid.
Proof. reflexivity. Qed.

Lemma request_id_do_update (r : usage.Record_.t) (cost : float)
  (row : usage.requests_row) :
  usage.request_id (usage.do_update r cost row) = usage.request_id row.
Proof.
  unfold usage.do_update, usage.has_request_id.
  destruct (String.eqb (usage.request_id row) (usage.Record_.RequestID r)) eqn:E.
  - apply String.eqb_eq in E. now rewrite E.
  - reflexivity.
Qed.

Lemma existsb_false_filter {A : Type} (f : A -> bool) (l : list A) :
  existsb f l = false -> filter f l = [].
Proof.
  induction l as [|x l IH]; simpl; [reflexivity|].
  destruct (f x); simpl; [discriminate|exact IH].
Qed.

Lemma filter_nil_existsb {A : Type} (f : A -> bool) (l : list A) :
  filter f l = [] -> existsb f l = false.
Proof.
  induction l as [|x l IH]; simpl; [reflexivity|].
  destruct (f x); simpl; [discriminate|exact IH].
Qed.

(** Under the UNIQUE constraint the conflicting row is the only row with the
    key, and the update leaves the other rows as they are. *)
Lemma filter_do_update (r : usage.Record_.t) (cost : float)
  (rows : list usage.requests_row) :
  NoDup (map usage.request_id rows) ->
  existsb (usage.has_request_id (usage.Record_.RequestID r)) rows = true ->
  exists row, In row rows /\
    usage.request_id row = usage.Record_.RequestID r /\
    filter (usage.has_request_id (usage.Record_.RequestID r))
           (map (usage.do_update r cost) rows)
    = [usage.inserted (usage.id row) r cost].
Proof.
  set (rid := usage.Record_.RequestID r).
  induction rows as [|row rows IH]; [discriminate|].
  intros ND Hex. inversion ND as [|? ? Hnotin ND']; subst.
  cbn [map filter existsb] in *.
  assert (usage.do_update r cost row
          = if usage.has_request_id rid row
            then usage.inserted (usage.id row) r cost else row) as Hd
    by reflexivity.
  rewrite Hd. clear Hd.
  destruct (usage.has_request_id rid row) eqn:Hrow.
  - exists row. split; [now left|].
    unfold usage.has_request_id in Hrow. apply String.eqb_eq in Hrow.
    split; [exact Hrow|].
    rewrite has_request_id_inserted. fold rid. rewrite String.eqb_refl.
    f_equal. apply existsb_false_filter.
    apply not_true_is_false. intro Hex'.
    apply existsb_exists in Hex' as [row' [Hin Hrid]].
    apply in_map_iff in Hin as [row0 [Hupd Hin0]]. subst row'.
    unfold usage.has_request_id in Hrid. apply String.eqb_eq in Hrid.
    rewrite request_id_do_update in Hrid.
    apply Hnotin. rewrite Hrow, <- Hrid. now apply in_map.
  - rewrite Hrow. simpl in Hex.
    destruct (IH ND' Hex) as [row' [Hin [Hid Hf]]].
    exists row'. split; [now right|]. split; assumption.
Qed.

(** [Log] is an upsert: afterwards exactly one row has the record's key, and
    it holds the record's values and the estimated cost. *)
Lemma Log_rows_of (s : usage.Store) (r : usage.Record_.t) :
  usage.unique_request_id s ->
  exists i,
    usage.rows_of (usage.Log s r) (usage.Record_.RequestID r)
    = [usage.inserted i r
         (usage.EstimateCost (usage.Record_.Model r)
            (usage.Record_.PromptTokens r)
            (usage.Record_.CompletionTokens r))]
    /\ (usage.rows_of s (usage.Record_.RequestID r) = [] ->
        i = usage.next_id s)
    /\ (forall row, In row (usage.rows_of s (usage.Record_.RequestID r)) ->
        i = usage.id row).
Proof.
  intros U. unfold usage.Log, usage.rows_of.
  destruct (existsb _ (usage.requests s)) eqn:Hex; simpl.
  - destruct (filter_do_update r
                (usage.EstimateCost (usage.Record_.Model r)
                   (usage.Record_.PromptTokens r)
                   (usage.Record_.CompletionTokens r))
                (usage.requests s) U Hex) as [row [Hin [Hrid Hf]]].
    exists (usage.id row). split; [exact Hf|]. split.
    + intros Hnil. apply filter_nil_existsb in Hnil. congruence.
    + intros row' Hin'. apply filter_In in Hin' as [Hin' Hrid'].
      unfold usage.has_request_id in Hrid'. apply String.eqb_eq in Hrid'.
      destruct (in_split _ _ Hin) as [l1 [l2 Hsplit]].
      unfold usage.unique_request_id in U. rewrite Hsplit in U, Hin'.
      rewrite map_app in U. simpl in U. apply NoDup_remove_2 in U.
      apply in_app_or in Hin' as [Hin'|[Heq|Hin']].
      * exfalso. apply U. apply in_or_app. left.
        rewrite Hrid, <- Hrid'. now apply in_map.
      * now subst.
      * exfalso. apply U. apply in_or_app. right.
        rewrite Hrid, <- Hrid'. now apply in_map.
  - exists (usage.next_id s). rewrite filter_app. simpl.
    rewrite has_request_id_inserted, String.eqb_refl.
    rewrite (existsb_false_filter _ _ Hex). simpl.
    split; [reflexivity|]. split; [reflexivity|].
    intros row []. 
Qed.

Lemma NoDup_snoc {A : Type} (l : list A) (x : A) :
  NoDup l -> ~ In x l -> NoDup (l ++ [x]).
Proof.
  induction l as [|y l IH]; simpl; intros ND Hx.
  - constructor; [intros []|constructor].
  - inversion ND as [|? ? Hy ND']; subst. constructor.
    + intros Hin. apply in_app_or in Hin as [Hin|[Heq|[]]].
      * now apply Hy.
      * apply Hx. now left.
    + apply IH; [exact ND'|]. intros Hin. apply Hx. now right.
Qed.

Lemma Log_unique (s : usage.Store) (r : usage.Record_.t) :
  usage.unique_request_id s -> usage.unique_request_id (usage.Log s r).
Proof.
  unfold usage.unique_request_id, usage.Log. intros U.
  destruct (existsb _ (usage.requests s)) eqn:Hex; simpl.
  - rewrite map_map.
    rewrite (map_ext _ usage.request_id); [exact U|].
    intros row. apply request_id_do_update.
  - rewrite map_app. simpl.
    apply NoDup_snoc; [exact U|]. intros Hin.
    apply in_map_iff in Hin as [row [Hrid Hin]].
    assert (existsb (usage.has_request_id (usage.Record_.RequestID r))
              (usage.requests s) = true) as Ht.
    { apply existsb_exists. exists row. split; [exact Hin|].
      unfold usage.has_request_id. now apply String.eqb_eq. }
    congruence.
Qed.

(** The row that [Log] writes reads as the record. *)
Lemma inserted_stores (i : nat) (r : usage.Record_.t) :
  usage.id (usage.logged_row i r) = i /\
  usage.request_id (usage.logged_row i r) = usage.Record_.RequestID r /\
  usage.stores (usage.logged_row i r) r.
Proof. repeat split. Qed.

(** C3: [Log] is an upsert keyed by [request_id].  Under the UNIQUE
    constraint, after [Log r] and then [Log r'] with the same key, exactly
    one row has the key; it is the row that [Log r] left, with the same
    surrogate id, and each of its twelve value columns holds the value of
    [r'], the cost being estimated from the model and token counts of
    [r']; and the first [Log] inserts a row, with a fresh id and the
    values of [r], when there is none. *)
Theorem C3_Log_upsert (s : usage.Store) (r r' : usage.Record_.t) :
  usage.unique_request_id s ->
  usage.Record_.RequestID r = usage.Record_.RequestID r' ->
  (usage.rows_of s (usage.Record_.RequestID r) = [] ->
   exists row,
     usage.rows_of (usage.Log s r) (usage.Record_.RequestID r) = [row] /\
     usage.id row = usage.next_id s /\
     usage.request_id row = usage.Record_.RequestID r /\
     usage.stores row r /\
     usage.requests (usage.Log s r) = usage.requests s ++ [row])
  /\ exists row row',
      usage.rows_of (usage.Log s r) (usage.Record_.RequestID r) = [row] /\
      usage.request_id row = usage.Record_.RequestID r /\
      usage.stores row r /\
      usage.rows_of (usage.Log (usage.Log s r) r')
                    (usage.Record_.RequestID r') = [row'] /\
      usage.id row' = usage.id row /\
      usage.request_id row' = usage.Record_.RequestID r' /\
      usage.tenant row' = usage.Record_.Tenant r' /\
      usage.use_case row' = usage.Record_.UseCase r' /\
      usage.route_name row' = usage.Record_.RouteName r' /\
      usage.provider row' = usage.Record_.Provider r' /\
      usage.model row' = usage.Record_.Model r' /\
      usage.prompt_tokens row' = usage.Record_.PromptTokens r' /\
      usage.completion_tokens row' = usage.Record_.CompletionTokens r' /\
      usage.total_tokens row' = usage.Record_.TotalTokens r' /\
      usage.cost_estimate_usd row'
      = usage.EstimateCost (usage.Record_.Model r')
          (usage.Record_.PromptTokens r')
          (usage.Record_.CompletionTokens r') /\
      usage.latency_ms row' = usage.Record_.LatencyMS r' /\
      usage.status_code row' = usage.Record_.StatusCode r' /\
      usage.error_message row' = usage.Record_.ErrorMessage r' /\
      List.length (usage.requests (usage.Log (usage.Log s r) r'))
      = List.length (usage.requests (usage.Log s r)).
Proof.
  intros U Hkey.
  destruct (Log_rows_of s r U) as [i [Hrows [Hfresh _]]].
  fold (usage.logged_row i r) in Hrows.
  split.
  - intros Hnil. exists (usage.logged_row (usage.next_id s) r).
    rewrite Hrows, (Hfresh Hnil).
    split; [reflexivity|]. split; [reflexivity|]. split; [reflexivity|].
    split; [apply inserted_stores|].
    unfold usage.Log, usage.rows_of in *.
    apply filter_nil_existsb in Hnil. now rewrite Hnil.
  - exists (usage.logged_row i r).
    destruct (Log_rows_of (usage.Log s r) r' (Log_unique s r U))
      as [j [Hrows' [_ Hsame]]].
    fold (usage.logged_row j r') in Hrows'.
    exists (usage.logged_row j r').
    rewrite <- Hkey in Hsame. rewrite Hrows in Hsame.
    rewrite (Hsame _ (or_introl eq_refl)) in *.
    split; [exact Hrows|]. split; [reflexivity|].
    split; [apply inserted_stores|]. split; [exact Hrows'|].
    do 14 (split; [reflexivity|]).
    assert (existsb (usage.has_request_id (usage.Record_.RequestID r'))
              (usage.requests (usage.Log s r)) = true) as Hex.
    { apply existsb_exists. exists (usage.logged_row i r).
      split.
      - assert (In (usage.logged_row i r)
                  (usage.rows_of (usage.Log s r)
                     (usage.Record_.RequestID r))) as Hin
          by (rewrite Hrows; now left).
        now apply filter_In in Hin as [Hin _].
      - unfold usage.has_request_id. cbn. rewrite Hkey.
        apply String.eqb_refl. }
    unfold usage.Log at 1. rewrite Hex.
    cbn [usage.requests]. apply length_map.
Qed.

Lemma C3_Log_upsert_witness :
  usage.unique_request_id usage.empty /\
  usage.Record_.RequestID scenario.skeleton_record
    = usage.Record_.RequestID scenario.final_record /\
  exists row',
    usage.rows_of
      (usage.Log (usage.Log usage.empty scenario.skeleton_record)
                 scenario.final_record) "req-1"
    = [row'] /\
    usage.provider row' = "openai" /\
    usage.status_code row' = 200 /\
    usage.total_tokens row' = 30 /\
    usage.cost_estimate_usd row' = usage.EstimateCost "gpt-4o-mini" 10 20.
Proof.
  split; [constructor|]. split; [reflexivity|].
  destruct (C3_Log_upsert usage.empty scenario.skeleton_record
              scenario.final_record)
    as [_ [row [row' Hall]]]; [constructor|reflexivity|].
  exists row'. decompose [and] Hall. repeat split; assumption.
Defined.

(** ** Reading runs: the readers distribute over concatenation *)

Lemma logged_attempts_app (l1 l2 : list api.Event) :
  api.logged_attempts (l1 ++ l2)
  = api.logged_attempts l1 ++ api.logged_attempts l2.
Proof.
  induction l1 as [|e l1 IH]; [reflexivity|].
  destruct e; simpl; rewrite ?IH; reflexivity.
Qed.

Lemma logged_records_app (l1 l2 : list api.Event) :
  api.logged_records (l1 ++ l2)
  = api.logged_records l1 ++ api.logged_records l2.
Proof.
  induction l1 as [|e l1 IH]; [reflexivity|].
  destruct e; simpl; rewrite ?IH; reflexivity.
Qed.

Lemma chat_targets_app (l1 l2 : list api.Event) :
  api.chat_targets (l1 ++ l2) = api.chat_targets l1 ++ api.chat_targets l2.
Proof.
  induction l1 as [|e l1 IH]; [reflexivity|].
  destruct e; simpl; rewrite ?IH; reflexivity.
Qed.

Lemma stream_targets_app (l1 l2 : list api.Event) :
  api.stream_targets (l1 ++ l2)
  = api.stream_targets l1 ++ api.stream_targets l2.
Proof.
  induction l1 as [|e l1 IH]; [reflexivity|].
  destruct e; simpl; rewrite ?IH; reflexivity.
Qed.

Lemma iterations_app (l1 l2 : list api.Event) :
  api.iterations (l1 ++ l2) = api.iterations l1 ++ api.iterations l2.
Proof.
  induction l1 as [|e l1 IH]; [reflexivity|].
  destruct e; simpl; rewrite ?IH; reflexivity.
Qed.

Lemma written_app (l1 l2 : list api.Event) :
  api.written (l1 ++ l2) = api.written l1 ++ api.written l2.
Proof.
  induction l1 as [|e l1 IH]; [reflexivity|].
  destruct e; simpl; rewrite ?IH; reflexivity.
Qed.

Lemma journal_app (s : usage.Store) (l1 l2 : list api.Event) :
  api.journal s (l1 ++ l2) = api.journal (api.journal s l1) l2.
Proof. apply fold_left_app. Qed.

(** A run with no journal event leaves the database as it is. *)
Lemma journal_quiet (s : usage.Store) (run : list api.Event) :
  api.logged_records run = [] -> api.logged_attempts run = [] ->
  api.journal s run = s.
Proof.
  revert s. induction run as [|e run IH]; intros s Hr Ha; [reflexivity|].
  destruct e; simpl in *; try discriminate; now apply IH.
Qed.

Lemma numbers_app (a : Z) (k1 k2 : nat) :
  api.numbers a (k1 + k2)
  = api.numbers a k1 ++ api.numbers (a + Z.of_nat k1) k2.
Proof.
  revert a. induction k1 as [|k1 IH]; intros a.
  - simpl. now rewrite Z.add_0_r.
  - cbn [api.numbers Nat.add app]. rewrite IH. do 3 f_equal. lia.
Qed.

(** ** Events and what comes before them *)

Lemma before_each_nil (sel : api.Event -> bool)
  (P : list api.Event -> api.Event -> Prop) :
  api.before_each sel P [].
Proof. intros [|x pre] e post H; discriminate. Qed.

Lemma before_each_cons (sel : api.Event -> bool)
  (P : list api.Event -> api.Event -> Prop) (x : api.Event)
  (run : list api.Event) :
  (sel x = true -> P [] x) ->
  api.before_each sel (fun pre e => P (x :: pre) e) run ->
  api.before_each sel P (x :: run).
Proof.
  intros Hx Hrun [|y pre] e post H Hsel.
  - injection H as -> _. now apply Hx.
  - injection H as -> H. now apply (Hrun pre e post).
Qed.

Lemma before_each_app (sel : api.Event -> bool)
  (P : list api.Event -> api.Event -> Prop) (l1 l2 : list api.Event) :
  api.before_each sel P l1 ->
  api.before_each sel (fun pre e => P (l1 ++ pre) e) l2 ->
  api.before_each sel P (l1 ++ l2).
Proof.
  revert P. induction l1 as [|x l1 IH]; intros P H1 H2; [exact H2|].
  cbn [app]. apply before_each_cons.
  - intros Hsel. now apply (H1 [] x l1).
  - apply IH; [|exact H2].
    intros pre e post H Hsel. apply (H1 (x :: pre) e post); [|exact Hsel].
    cbn [app]. now rewrite H.
Qed.

Lemma before_each_none (sel : api.Event -> bool)
  (P : list api.Event -> api.Event -> Prop) (run : list api.Event) :
  existsb sel run = false -> api.before_each sel P run.
Proof.
  intros Hnone pre e post H Hsel. exfalso.
  assert (existsb sel run = true) as Ht.
  { apply existsb_exists. exists e. split; [|exact Hsel].
    rewrite H. apply in_or_app. right. now left. }
  congruence.
Qed.

Lemma before_each_impl (sel : api.Event -> bool)
  (P Q : list api.Event -> api.Event -> Prop) (run : list api.Event) :
  (forall pre e, sel e = true -> P pre e -> Q pre e) ->
  api.before_each sel P run -> api.before_each sel Q run.
Proof.
  intros HPQ HP pre e post H Hsel. apply HPQ; [exact Hsel|].
  now apply (HP pre e post).
Qed.
(** ** The attempt loop, one iteration at a time *)

Section Iteration.

Variables (h : api.Handler) (env : api.Env) (req : api.ChatRequest).
Variables (rid : string) (route : config.Route) (tenant useCase : string).

Local Notation attempt := (api.attempt h env req rid route tenant useCase).
Local Notation attempts := (api.attempts h env req rid route tenant useCase).
Local Notation call := (api.call env req rid).
Local Notation respond := (api.respond env rid route tenant useCase).
Local Notation provReq := (api.provReq req).

Lemma Get_lookup (reg : providers.Registry) (name : string) :
  providers.Get reg name =
  match providers.lookup reg name with
  | Some p => inl p
  | None => inr (Errorf ("provider " ++ name ++ " not found")%string)
  end.
Proof. reflexivity. Qed.

(** No adapter for the target: nothing is journaled, the counter stays,
    the inner loop is left. *)
Lemma attempt_not_found (t : config.Target) (n : nat) (a : Z)
  (l : option error) :
  providers.lookup (api.registry h) (config.Provider t) = None ->
  attempt t (S n) a l
  = ([api.EvAttemptSpan t a],
     api.Next a (Some (Errorf ("provider " ++ config.Provider t
                               ++ " not found")%string))).
Proof. intros H. cbn [api.attempt]. rewrite Get_lookup, H. reflexivity. Qed.

Lemma attempt_stream (t : config.Target) (n : nat) (a : Z)
  (l : option error) (p : providers.Provider) :
  providers.lookup (api.registry h) (config.Provider t) = Some p ->
  api.Stream req = true ->
  attempt t (S n) a l
  = (api.EvAttemptSpan t a
     :: api.handleStream env (provReq t) rid route t tenant useCase a p,
     api.Returned).
Proof.
  intros H S. cbn [api.attempt]. rewrite Get_lookup, H, S. reflexivity.
Qed.

Lemma attempt_success (t : config.Target) (n : nat) (a : Z)
  (l : option error) (p : providers.Provider) (r : providers.ChatResponse) :
  providers.lookup (api.registry h) (config.Provider t) = Some p ->
  api.Stream req = false ->
  providers.Chat p (provReq t) a = (Some r, None) ->
  attempt t (S n) a l
  = (call t a (Some r) None ++ respond t r, api.Returned).
Proof.
  intros H S C. cbn [api.attempt]. rewrite Get_lookup, H, S, C. reflexivity.
Qed.

Lemma attempt_panic (t : config.Target) (n : nat) (a : Z)
  (l : option error) (p : providers.Provider) :
  providers.lookup (api.registry h) (config.Provider t) = Some p ->
  api.Stream req = false ->
  providers.Chat p (provReq t) a = (None, None) ->
  attempt t (S n) a l
  = (call t a None None ++ [api.EvPanic], api.Returned).
Proof.
  intros H S C. cbn [api.attempt]. rewrite Get_lookup, H, S, C. reflexivity.
Qed.

(** A retryable error: the same target is attempted again, with the next
    attempt number, as long as the loop has iterations left. *)
Lemma attempt_retry (t : config.Target) (n : nat) (a : Z)
  (l : option error) (p : providers.Provider)
  (resp : option providers.ChatResponse) (e : error) :
  providers.lookup (api.registry h) (config.Provider t) = Some p ->
  api.Stream req = false ->
  providers.Chat p (provReq t) a = (resp, Some e) ->
  api.IsRetryable env e = true ->
  attempt t (S n) a l
  = (call t a resp (Some e) ++ fst (attempt t n (a + 1) (Some e)),
     snd (attempt t n (a + 1) (Some e))).
Proof.
  intros H S C R. cbn [api.attempt]. rewrite Get_lookup, H, S, C, R.
  destruct (attempt t n (a + 1) (Some e)). reflexivity.
Qed.

(** An error that is not retryable: the inner loop is left at once. *)
Lemma attempt_no_retry (t : config.Target) (n : nat) (a : Z)
  (l : option error) (p : providers.Provider)
  (resp : option providers.ChatResponse) (e : error) :
  providers.lookup (api.registry h) (config.Provider t) = Some p ->
  api.Stream req = false ->
  providers.Chat p (provReq t) a = (resp, Some e) ->
  api.IsRetryable env e = false ->
  attempt t (S n) a l
  = (call t a resp (Some e)
     ++ [api.EvLogError rid "non-retryable error" e],
     api.Next (a + 1) (Some e)).
Proof.
  intros H S C R. cbn [api.attempt]. rewrite Get_lookup, H, S, C, R.
  reflexivity.
Qed.

Lemma attempt_cases (t : config.Target) (n : nat) (a : Z)
  (l : option error) :
  api.iteration h env req rid route tenant useCase t n a
    (fst (attempt t (S n) a l)) (snd (attempt t (S n) a l)).
Proof.
  destruct (providers.lookup (api.registry h) (config.Provider t))
    as [p|] eqn:H.
  - destruct (api.Stream req) eqn:S.
    + rewrite (attempt_stream t n a l p H S). now apply api.it_stream.
    + destruct (providers.Chat p (provReq t) a) as [resp [e|]] eqn:C.
      * destruct (api.IsRetryable env e) eqn:R.
        -- rewrite (attempt_retry t n a l p resp e H S C R).
           now apply api.it_retry with (p := p).
        -- rewrite (attempt_no_retry t n a l p resp e H S C R).
           now apply api.it_no_retry with (p := p).
      * destruct resp as [r|].
        -- rewrite (attempt_success t n a l p r H S C).
           now apply api.it_success with (p := p).
        -- rewrite (attempt_panic t n a l p H S C).
           now apply api.it_panic with (p := p).
  - rewrite (attempt_not_found t n a l H). now apply api.it_not_found.
Qed.

Lemma attempts_cons (t : config.Target) (rest : list config.Target) (a : Z)
  (l : option error) :
  attempts (t :: rest) a l
  = match snd (attempt t (Z.to_nat (config.Retries route + 1)) a l) with
    | api.Returned =>
        (fst (attempt t (Z.to_nat (config.Retries route + 1)) a l),
         api.Returned)
    | api.Next a' l' =>
        (fst (attempt t (Z.to_nat (config.Retries route + 1)) a l)
         ++ fst (attempts rest a' l'),
         snd (attempts rest a' l'))
    end.
Proof.
  cbn [api.attempts].
  destruct (attempt t (Z.to_nat (config.Retries route + 1)) a l)
    as [evs [|a' l']]; cbn [fst snd]; [reflexivity|].
  destruct (attempts rest a' l'). reflexivity.
Qed.

(** *** Rule induction over the two loops *)

Section Rules.

Variable P : Z -> option error -> list api.Event -> api.Flow -> Prop.

Hypothesis P_nil : forall a l, P a l [] (api.Next a l).

Hypothesis P_not_found : forall t a l,
  providers.lookup (api.registry h) (config.Provider t) = None ->
  P a l [api.EvAttemptSpan t a]
    (api.Next a (Some (Errorf ("provider " ++ config.Provider t
                               ++ " not found")%string))).

Hypothesis P_stream : forall t a l p,
  providers.lookup (api.registry h) (config.Provider t) = Some p ->
  api.Stream req = true ->
  P a l (api.EvAttemptSpan t a
         :: api.handleStream env (provReq t) rid route t tenant useCase a p)
    api.Returned.

Hypothesis P_success : forall t a l p r,
  api.Stream req = false ->
  providers.Chat p (provReq t) a = (Some r, None) ->
  P a l (call t a (Some r) None ++ respond t r) api.Returned.

Hypothesis P_panic : forall t a l,
  api.Stream req = false ->
  P a l (call t a None None ++ [api.EvPanic]) api.Returned.

Hypothesis P_retry : forall t a l resp e evs flow,
  api.Stream req = false ->
  api.IsRetryable env e = true ->
  P (a + 1) (Some e) evs flow ->
  P a l (call t a resp (Some e) ++ evs) flow.

Hypothesis P_no_retry : forall t a l resp e,
  api.Stream req = false ->
  api.IsRetryable env e = false ->
  P a l (call t a resp (Some e)
         ++ [api.EvLogError rid "non-retryable error" e])
    (api.Next (a + 1) (Some e)).

Hypothesis P_seq : forall a l evs a' l' evs' flow',
  P a l evs (api.Next a' l') -> P a' l' evs' flow' ->
  P a l (evs ++ evs') flow'.

Lemma attempt_rules (t : config.Target) (n : nat) (a : Z)
  (l : option error) :
  P a l (fst (attempt t n a l)) (snd (attempt t n a l)).
Proof.
  revert a l. induction n as [|n IH]; intros a l; [apply P_nil|].
  generalize (attempt_cases t n a l).
  generalize (fst (attempt t (S n) a l)) (snd (attempt t (S n) a l)).
  intros evs flow C. destruct C.
  - now apply P_not_found.
  - now apply P_stream.
  - now apply P_success with (p := p).
  - now apply P_panic.
  - apply P_retry; [assumption|assumption|apply IH].
  - now apply P_no_retry.
Qed.

Lemma attempts_rules (targets : list config.Target) (a : Z)
  (l : option error) :
  P a l (fst (attempts targets a l)) (snd (attempts targets a l)).
Proof.
  revert a l. induction targets as [|t rest IH]; intros a l; [apply P_nil|].
  rewrite attempts_cons.
  pose proof (attempt_rules t (Z.to_nat (config.Retries route + 1)) a l)
    as Ht.
  destruct (snd (attempt t (Z.to_nat (config.Retries route + 1)) a l))
    as [|a' l']; cbn [fst snd]; [exact Ht|].
  apply P_seq with (a' := a') (l' := l'); [exact Ht|apply IH].
Qed.

End Rules.

End Iteration.

(** ** The streaming pump *)

Section Pump.

Variables (env : api.Env) (req : providers.ChatRequest).
Variables (rid : string) (route : config.Route) (t : config.Target).
Variables (tenant useCase : string) (a : Z).

Local Notation pump := (api.pump env req rid route t tenant useCase a).
Local Notation handleStream :=
  (api.handleStream env req rid route t tenant useCase a).

(** A value of the error channel that is not nil ends the stream with one
    attempt row and one error frame, whatever has been written before and
    whatever would be received after. *)
Lemma pump_error (e : error) (rest : list providers.Received)
  (fullContent : string) :
  pump (providers.RecvErr (Some e) :: rest) fullContent
  = [ api.EvLogAttempt rid
        (api.stream_failure rid t a e);
      api.EvWrite (api.SSEError (Error e));
      api.EvFlush ].
Proof. reflexivity. Qed.

(** A nil received from the error channel is passed over. *)
Lemma pump_nil_error (rest : list providers.Received)
  (fullContent : string) :
  pump (providers.RecvErr None :: rest) fullContent = pump rest fullContent.
Proof. reflexivity. Qed.

Lemma pump_no_span (rc : list providers.Received) (fc : string) :
  existsb api.is_span (pump rc fc) = false.
Proof.
  revert fc. induction rc as [|[c| |[e|]|] rc IH]; intros fc;
    cbn; auto.
Qed.

Lemma pump_iterations (rc : list providers.Received) (fc : string) :
  api.iterations (pump rc fc) = [].
Proof.
  revert fc. induction rc as [|[c| |[e|]|] rc IH]; intros fc;
    cbn; auto.
Qed.

Lemma pump_chat_targets (rc : list providers.Received) (fc : string) :
  api.chat_targets (pump rc fc) = [].
Proof.
  revert fc. induction rc as [|[c| |[e|]|] rc IH]; intros fc;
    cbn; auto.
Qed.

Lemma pump_stream_targets (rc : list providers.Received) (fc : string) :
  api.stream_targets (pump rc fc) = [].
Proof.
  revert fc. induction rc as [|[c| |[e|]|] rc IH]; intros fc;
    cbn; auto.
Qed.

(** The pump journals at most one attempt, with the number it was given. *)
Lemma pump_attempts (rc : list providers.Received) (fc : string) :
  api.logged_attempts (pump rc fc) = [] \/
  exists e, api.logged_attempts (pump rc fc)
            = [api.stream_failure rid t a e].
Proof.
  revert fc. induction rc as [|[c| |[e|]|] rc IH]; intros fc;
    cbn; auto.
  right. now exists e.
Qed.

Lemma pump_records (rc : list providers.Received) (fc : string) :
  api.logged_records (pump rc fc) = [] \/
  exists fc', api.logged_records (pump rc fc)
              = [api.stream_record env req rid route t tenant useCase fc'].
Proof.
  revert fc. induction rc as [|[c| |[e|]|] rc IH]; intros fc;
    cbn; auto.
  right. now exists fc.
Qed.

Lemma pump_journals_only (rc : list providers.Received) (fc : string) :
  api.journals_only rid (pump rc fc).
Proof.
  unfold api.journals_only.
  revert fc. induction rc as [|[c| |[e|]|] rc IH]; intros fc;
    cbn; auto; repeat constructor.
Qed.

(** A clean close journals the final record before the trailer. *)
Lemma pump_completion (rc : list providers.Received) (fc : string) :
  api.logged_before_completion (pump rc fc).
Proof.
  unfold api.logged_before_completion.
  revert fc. induction rc as [|[c| |[e|]|] rc IH]; intros fc; cbn.
  - apply before_each_nil.
  - apply before_each_cons; [discriminate|].
    apply before_each_cons; [discriminate|].
    eapply before_each_impl; [|apply IH].
    intros pre e _ [r Hr]. exists r. exact Hr.
  - apply before_each_cons; [discriminate|].
    apply before_each_cons.
    + intros _. eexists. split; [now left|reflexivity].
    + apply before_each_none. reflexivity.
  - apply before_each_none. reflexivity.
  - apply IH.
  - apply before_each_nil.
Qed.

(** A stream that reaches its trailer has journaled no attempt. *)
Lemma pump_done (rc : list providers.Received) (fc : string) :
  In api.SSEDone (api.written (pump rc fc)) ->
  api.logged_attempts (pump rc fc) = [] /\
  exists fc', api.logged_records (pump rc fc)
              = [api.stream_record env req rid route t tenant useCase fc'].
Proof.
  revert fc. induction rc as [|[c| |[e|]|] rc IH]; intros fc; cbn.
  - intros [].
  - intros [H|H]; [discriminate|]. now apply IH.
  - intros _. split; [reflexivity|]. now exists fc.
  - intros [H|[]]. discriminate.
  - apply IH.
  - intros [].
Qed.

(** What [handleStream] adds in front of the pump is one call to
    [ChatStream] and seven headers. *)
Lemma handleStream_logged_attempts (p : providers.Provider) :
  api.logged_attempts (handleStream p)
  = api.logged_attempts (pump (providers.ChatStream p req a) "").
Proof. reflexivity. Qed.

Lemma handleStream_logged_records (p : providers.Provider) :
  api.logged_records (handleStream p)
  = api.logged_records (pump (providers.ChatStream p req a) "").
Proof. reflexivity. Qed.

Lemma handleStream_written (p : providers.Provider) :
  api.written (handleStream p)
  = api.written (pump (providers.ChatStream p req a) "").
Proof. reflexivity. Qed.

Lemma handleStream_no_span (p : providers.Provider) :
  existsb api.is_span (handleStream p) = false.
Proof. cbn. apply pump_no_span. Qed.

Lemma handleStream_iterations (p : providers.Provider) :
  api.iterations (handleStream p) = [].
Proof. cbn. apply pump_iterations. Qed.

Lemma handleStream_chat_targets (p : providers.Provider) :
  api.chat_targets (handleStream p) = [].
Proof. cbn. apply pump_chat_targets. Qed.

Lemma handleStream_stream_targets (p : providers.Provider) :
  api.stream_targets (handleStream p) = [t].
Proof. cbn. now rewrite pump_stream_targets. Qed.

Lemma handleStream_journals_only (p : providers.Provider) :
  api.journals_only rid (handleStream p).
Proof.
  unfold api.journals_only, api.handleStream.
  apply Forall_app. split; [repeat constructor|apply pump_journals_only].
Qed.

Lemma handleStream_completion (p : providers.Provider) :
  api.logged_before_completion (handleStream p).
Proof.
  unfold api.logged_before_completion, api.handleStream.
  apply before_each_app; [apply before_each_none; reflexivity|].
  eapply before_each_impl; [|apply pump_completion].
  intros pre e _ [r Hr]. exists r. exact Hr.
Qed.

End Pump.

(** ** Invariants of the attempt loops *)

Section Loop.

Variables (h : api.Handler) (env : api.Env) (req : api.ChatRequest).
Variables (rid : string) (route : config.Route) (tenant useCase : string).

Local Notation attempt := (api.attempt h env req rid route tenant useCase).
Local Notation attempts := (api.attempts h env req rid route tenant useCase).
Local Notation call := (api.call env req rid).
Local Notation rules := (attempts_rules h env req rid route tenant useCase).

Lemma numbers_succ (a : Z) (a' : Z) :
  a + 1 <= a' ->
  a :: api.numbers (a + 1) (Z.to_nat (a' - (a + 1)))
  = api.numbers a (Z.to_nat (a' - a)).
Proof.
  intros H. replace (Z.to_nat (a' - a)) with (S (Z.to_nat (a' - (a + 1))))
    by lia. reflexivity.
Qed.

(** Attempt numbers are consecutive across retries and targets, and when an
    iteration starts every earlier attempt has been journaled. *)
Lemma loop_numbered (targets : list config.Target) (a : Z)
  (l : option error) :
  api.numbered_from a (fst (attempts targets a l))
    (snd (attempts targets a l)) /\
  api.journaled_before_spans a (fst (attempts targets a l)).
Proof.
  apply (rules (fun a _ evs flow =>
                  api.numbered_from a evs flow /\
                  api.journaled_before_spans a evs));
    unfold api.numbered_from, api.journaled_before_spans; clear.
  - intros a l. split.
    + exists O. split; [reflexivity|]. intros a' l' [= <- _]. lia.
    + apply before_each_nil.
  - intros t a l _. split.
    + exists O. split; [reflexivity|]. intros a' l' [= <- _]. lia.
    + apply before_each_cons; [|apply before_each_nil].
      intros _ t' a' [= _ <-]. split; [lia|]. now rewrite Z.sub_diag.
  - intros t a l p _ _. split.
    + cbn [api.logged_attempts]. rewrite handleStream_logged_attempts.
      destruct (pump_attempts env (api.provReq req t) rid route t tenant
                  useCase a (providers.ChatStream p (api.provReq req t) a)
                  "") as [E|[e E]]; rewrite E.
      * exists O. split; [reflexivity|discriminate].
      * exists 1%nat. split; [reflexivity|discriminate].
    + apply before_each_cons.
      * intros _ t' a' [= _ <-]. split; [lia|]. now rewrite Z.sub_diag.
      * apply before_each_none. apply handleStream_no_span.
  - intros t a l p r _ _. split.
    + exists 1%nat. split; [reflexivity|discriminate].
    + apply before_each_cons.
      * intros _ t' a' [= _ <-]. split; [lia|]. now rewrite Z.sub_diag.
      * apply before_each_none. reflexivity.
  - intros t a l _. split.
    + exists 1%nat. split; [reflexivity|discriminate].
    + apply before_each_cons.
      * intros _ t' a' [= _ <-]. split; [lia|]. now rewrite Z.sub_diag.
      * apply before_each_none. reflexivity.
  - intros t a l resp e evs flow _ _ [[k [Hk Hflow]] Hspans]. split.
    + exists (S k). split.
      * cbn. now rewrite Hk.
      * intros a' l' E. rewrite (Hflow a' l' E). lia.
    + cbn [api.call app]. apply before_each_cons.
      * intros _ t' a' [= _ <-]. split; [lia|]. now rewrite Z.sub_diag.
      * apply before_each_cons; [discriminate|].
        apply before_each_cons; [discriminate|].
        eapply before_each_impl; [|exact Hspans].
        intros pre x _ Hx t' a' E. destruct (Hx t' a' E) as [Hle Hpre].
        split; [lia|]. cbn. rewrite Hpre. now apply numbers_succ.
  - intros t a l resp e _ _. split.
    + exists 1%nat. split; [reflexivity|]. intros a' l' [= <- _]. lia.
    + apply before_each_cons.
      * intros _ t' a' [= _ <-]. split; [lia|]. now rewrite Z.sub_diag.
      * apply before_each_none. reflexivity.
  - intros a l evs a' l' evs' flow' [[k [Hk Hflow]] Hspans]
      [[k' [Hk' Hflow']] Hspans'].
    pose proof (Hflow a' l' eq_refl) as Ha'. split.
    + exists (k + k')%nat. split.
      * rewrite logged_attempts_app, map_app, Hk, Hk', numbers_app.
        now rewrite Ha'.
      * intros a'' l'' E. rewrite (Hflow' a'' l'' E). lia.
    + apply before_each_app; [exact Hspans|].
      eapply before_each_impl; [|exact Hspans'].
      intros pre x _ Hx t' a'' E. destruct (Hx t' a'' E) as [Hle Hpre].
      split; [lia|].
      rewrite logged_attempts_app, map_app, Hk, Hpre.
      replace (Z.to_nat (a'' - a)) with (k + Z.to_nat (a'' - a'))%nat by lia.
      rewrite numbers_app. now rewrite Ha'.
Qed.

Lemma loop_journals_only (targets : list config.Target) (a : Z)
  (l : option error) :
  api.journals_only rid (fst (attempts targets a l)).
Proof.
  apply (rules (fun _ _ evs _ => api.journals_only rid evs));
    unfold api.journals_only; clear; intros.
  - constructor.
  - repeat constructor.
  - constructor; [exact I|]. apply handleStream_journals_only.
  - repeat constructor.
  - repeat constructor.
  - cbn [api.call app]. repeat (constructor; [try exact I; reflexivity|]).
    assumption.
  - repeat constructor.
  - apply Forall_app. now split.
Qed.

Lemma loop_completion (targets : list config.Target) (a : Z)
  (l : option error) :
  api.logged_before_completion (fst (attempts targets a l)).
Proof.
  apply (rules (fun _ _ evs _ => api.logged_before_completion evs));
    unfold api.logged_before_completion; clear; intros.
  - apply before_each_nil.
  - apply before_each_none. reflexivity.
  - apply before_each_cons; [discriminate|].
    eapply before_each_impl; [|apply handleStream_completion].
    intros pre e _ [r Hr]. exists r. exact Hr.
  - cbn [api.call api.respond app].
    do 8 (apply before_each_cons; [discriminate|]).
    apply before_each_cons; [|apply before_each_nil].
    intros _. eexists. split; [cbn; left; reflexivity|reflexivity].
  - apply before_each_none. reflexivity.
  - cbn [api.call app]. do 3 (apply before_each_cons; [discriminate|]).
    eapply before_each_impl; [|eassumption].
    intros pre x _ [r Hr]. exists r. exact Hr.
  - apply before_each_none. reflexivity.
  - apply before_each_app; [assumption|].
    eapply before_each_impl; [|eassumption].
    intros pre x _ [r [Hin Hr]]. exists r. split; [|exact Hr].
    rewrite logged_records_app. apply in_or_app. now right.
Qed.

(** A loop that is left by falling through has written nothing to the
    response, handed no record to [Log] and streamed nothing. *)
Lemma loop_next_quiet (targets : list config.Target) (a : Z)
  (l : option error) (a' : Z) (l' : option error) :
  snd (attempts targets a l) = api.Next a' l' ->
  api.written (fst (attempts targets a l)) = [] /\
  api.logged_records (fst (attempts targets a l)) = [] /\
  api.stream_targets (fst (attempts targets a l)) = [].
Proof.
  revert a' l'.
  apply (rules (fun _ _ evs flow =>
                  forall a' l', flow = api.Next a' l' ->
                    api.written evs = [] /\ api.logged_records evs = [] /\
                    api.stream_targets evs = []));
    clear; intros; try discriminate; auto.
  - cbn. eauto.
  - rewrite written_app, logged_records_app, stream_targets_app.
    destruct (H _ _ eq_refl) as [-> [-> ->]].
    destruct (H0 _ _ H1) as [-> [-> ->]]. auto.
Qed.

Lemma last_error_text_app (l1 l2 : list api.Event) (acc : option string) :
  api.last_error_text (l1 ++ l2) acc
  = api.last_error_text l2 (api.last_error_text l1 acc).
Proof.
  revert acc. induction l1 as [|e l1 IH]; intros acc; [reflexivity|].
  destruct e; cbn; apply IH.
Qed.

(** The error a loop is left with is the last error its run has met. *)
Lemma loop_last_error (targets : list config.Target) (a : Z)
  (l : option error) (a' : Z) (l' : option error) :
  snd (attempts targets a l) = api.Next a' l' ->
  api.last_error_text (fst (attempts targets a l)) (option_map Error l)
  = option_map Error l'.
Proof.
  revert a' l'.
  apply (rules (fun _ l evs flow =>
                  forall a' l', flow = api.Next a' l' ->
                    api.last_error_text evs (option_map Error l)
                    = option_map Error l'));
    clear; intros; try discriminate.
  - now injection H as _ <-.
  - now injection H0 as _ <-.
  - cbn. exact (H1 _ _ H2).
  - now injection H1 as _ <-.
  - rewrite last_error_text_app, (H _ _ eq_refl). exact (H0 _ _ H1).
Qed.

(** An error, once met, is never forgotten. *)
Lemma loop_keeps_error (targets : list config.Target) (a : Z)
  (l : option error) (a' : Z) (l' : option error) :
  snd (attempts targets a l) = api.Next a' l' -> l <> None -> l' <> None.
Proof.
  revert a' l'.
  apply (rules (fun _ l evs flow =>
                  forall a' l', flow = api.Next a' l' ->
                    l <> None -> l' <> None));
    clear; intros; try discriminate.
  - now injection H as _ <-.
  - now injection H0 as _ <-.
  - apply (H1 _ _ H2). discriminate.
  - now injection H1 as _ <-.
  - apply (H0 _ _ H1). now apply (H _ _ eq_refl).
Qed.

End Loop.

(** ** The journal along a run *)

Lemma find_filter {A : Type} (f : A -> bool) (l : list A) :
  find f l = hd_error (filter f l).
Proof.
  induction l as [|x l IH]; [reflexivity|]. simpl.
  destruct (f x); [reflexivity|exact IH].
Qed.

Lemma filter_do_update_map (r : usage.Record_.t) (cost : float)
  (rows : list usage.requests_row) :
  filter (usage.has_request_id (usage.Record_.RequestID r))
         (map (usage.do_update r cost) rows)
  = map (fun row => usage.inserted (usage.id row) r cost)
        (filter (usage.has_request_id (usage.Record_.RequestID r)) rows).
Proof.
  induction rows as [|row rows IH]; [reflexivity|].
  cbn [map filter]. unfold usage.do_update at 1 2.
  destruct (usage.has_request_id (usage.Record_.RequestID r) row) eqn:E.
  - rewrite has_request_id_inserted, String.eqb_refl. cbn [map].
    now rewrite IH.
  - rewrite E. exact IH.
Qed.

(** [Log] on a request that has its row: the row takes the record's
    values and keeps its id; the attempts are not touched. *)
Lemma Log_owned (s : usage.Store) (r : usage.Record_.t)
  (row0 : usage.requests_row) :
  usage.rows_of s (usage.Record_.RequestID r) = [row0] ->
  usage.rows_of (usage.Log s r) (usage.Record_.RequestID r)
  = [usage.logged_row (usage.id row0) r] /\
  usage.provider_attempts (usage.Log s r) = usage.provider_attempts s.
Proof.
  unfold usage.rows_of, usage.Log. intros Hrow.
  destruct (existsb _ (usage.requests s)) eqn:Hex.
  - cbn [usage.requests usage.provider_attempts].
    rewrite filter_do_update_map, Hrow. split; reflexivity.
  - apply existsb_false_filter in Hex. congruence.
Qed.

(** [Log] on a request that has no row yet. *)
Lemma Log_fresh (s : usage.Store) (r : usage.Record_.t) :
  usage.rows_of s (usage.Record_.RequestID r) = [] ->
  usage.rows_of (usage.Log s r) (usage.Record_.RequestID r)
  = [usage.logged_row (usage.next_id s) r] /\
  usage.provider_attempts (usage.Log s r) = usage.provider_attempts s.
Proof.
  unfold usage.rows_of, usage.Log. intros Hnil.
  rewrite (filter_nil_existsb _ _ Hnil).
  cbn [usage.requests usage.provider_attempts].
  rewrite filter_app, Hnil. cbn [filter app].
  rewrite has_request_id_inserted, String.eqb_refl. split; reflexivity.
Qed.

(** [LogAttempt] on a request that has its row: one attempt row, bound to
    the row's id. *)
Lemma LogAttempt_owned (s : usage.Store) (rid : string)
  (a : usage.Attempt.t) (row0 : usage.requests_row) :
  usage.rows_of s rid = [row0] ->
  usage.requests (usage.LogAttempt s rid a) = usage.requests s /\
  usage.provider_attempts (usage.LogAttempt s rid a)
  = usage.provider_attempts s ++ [api.attempt_row_of (usage.id row0) a].
Proof.
  unfold usage.rows_of, usage.LogAttempt. intros Hrow.
  rewrite find_filter, Hrow. split; reflexivity.
Qed.

(** [LogAttempt] on a request that has no row inserts nothing. *)
Lemma LogAttempt_missing (s : usage.Store) (rid : string)
  (a : usage.Attempt.t) :
  usage.rows_of s rid = [] -> usage.LogAttempt s rid a = s.
Proof.
  unfold usage.rows_of, usage.LogAttempt. intros Hnil.
  now rewrite find_filter, Hnil.
Qed.

Lemma attempts_of_owned (s : usage.Store) (rid : string)
  (row0 : usage.requests_row) :
  usage.rows_of s rid = [row0] ->
  usage.attempts_of s rid
  = filter (fun a => Nat.eqb (usage.id row0) (usage.fk_request_id a))
           (usage.provider_attempts s).
Proof.
  unfold usage.attempts_of. intros ->. apply filter_ext.
  intros a. cbn. apply orb_false_r.
Qed.

(** Along a run that journals for one request only, the request's row
    takes the records in turn and keeps its id, and every attempt of the
    run becomes an attempt row of the request. *)
Lemma journal_owned (rid : string) (run : list api.Event) :
  forall (s : usage.Store) (row0 : usage.requests_row),
  api.journals_only rid run ->
  usage.rows_of s rid = [row0] ->
  usage.rows_of (api.journal s run) rid
  = [fold_left (fun row r => usage.logged_row (usage.id row) r)
               (api.logged_records run) row0] /\
  usage.attempts_of (api.journal s run) rid
  = usage.attempts_of s rid
    ++ map (api.attempt_row_of (usage.id row0)) (api.logged_attempts run).
Proof.
  induction run as [|e run IH]; intros s row0 Hown Hrow.
  - cbn. rewrite app_nil_r. split; [exact Hrow|reflexivity].
  - inversion Hown as [|? ? He Hown']; subst.
    destruct e; try (cbn; apply IH; assumption).
    + (* Log *)
      subst rid. destruct (Log_owned s r row0 Hrow) as [Hrow' Hatt].
      cbn [api.journal fold_left api.journal_step api.logged_records
           api.logged_attempts].
      destruct (IH (usage.Log s r) _ Hown' Hrow') as [IHrow IHatt].
      fold (api.journal (usage.Log s r) run). split; [exact IHrow|].
      rewrite IHatt. f_equal.
      rewrite (attempts_of_owned _ _ _ Hrow), (attempts_of_owned _ _ _ Hrow').
      now rewrite Hatt.
    + (* LogAttempt *)
      subst reqCorrelationID.
      destruct (LogAttempt_owned s rid a row0 Hrow) as [Hreq Hatt].
      assert (usage.rows_of (usage.LogAttempt s rid a) rid = [row0]) as Hrow'.
      { unfold usage.rows_of. now rewrite Hreq. }
      cbn [api.journal fold_left api.journal_step api.logged_records
           api.logged_attempts map].
      destruct (IH (usage.LogAttempt s rid a) _ Hown' Hrow') as [IHrow IHatt].
      fold (api.journal (usage.LogAttempt s rid a) run).
      split; [exact IHrow|].
      rewrite IHatt.
      rewrite (attempts_of_owned _ _ _ Hrow), (attempts_of_owned _ _ _ Hrow').
      rewrite Hatt, filter_app. cbn [filter api.attempt_row_of
                                       usage.fk_request_id].
      rewrite Nat.eqb_refl, <- app_assoc. reflexivity.
Qed.

(** A new request row has no attempts: ids in use lie below [next_id]. *)
Lemma attempts_of_fresh (s : usage.Store) (r : usage.Record_.t) :
  usage.ids_below s ->
  usage.rows_of s (usage.Record_.RequestID r) = [] ->
  usage.attempts_of (usage.Log s r) (usage.Record_.RequestID r) = [].
Proof.
  intros [_ Hbelow] Hnil. destruct (Log_fresh s r Hnil) as [Hrow Hatt].
  rewrite (attempts_of_owned _ _ _ Hrow), Hatt.
  apply existsb_false_filter. apply not_true_is_false. intros Hex.
  apply existsb_exists in Hex as [a [Hin Heq]].
  apply Nat.eqb_eq in Heq. specialize (Hbelow a Hin).
  cbn in Heq. lia.
Qed.

Lemma attempts_of_missing (s : usage.Store) (rid : string) :
  usage.rows_of s rid = [] -> usage.attempts_of s rid = [].
Proof.
  unfold usage.attempts_of. intros ->. apply existsb_false_filter.
  apply not_true_is_false. intros Hex.
  apply existsb_exists in Hex as [a [_ H]]. discriminate.
Qed.

(** A run that starts its journal with a [Log], on a request that has no
    row yet. *)
Lemma journal_fresh (rid : string) (s : usage.Store)
  (r0 : usage.Record_.t) (run : list api.Event) :
  usage.ids_below s ->
  usage.rows_of s rid = [] ->
  usage.Record_.RequestID r0 = rid ->
  api.journals_only rid run ->
  usage.rows_of (api.journal s (api.EvLog r0 :: run)) rid
  = [fold_left (fun row r => usage.logged_row (usage.id row) r)
               (api.logged_records run)
               (usage.logged_row (usage.next_id s) r0)] /\
  usage.attempts_of (api.journal s (api.EvLog r0 :: run)) rid
  = map (api.attempt_row_of (usage.next_id s)) (api.logged_attempts run).
Proof.
  intros Hbelow Hnil <- Hown.
  destruct (Log_fresh s r0 Hnil) as [Hrow _].
  destruct (journal_owned _ run (usage.Log s r0) _ Hown Hrow)
    as [Hrows Hatts].
  cbn [api.journal fold_left api.journal_step].
  fold (api.journal (usage.Log s r0) run). split; [exact Hrows|].
  rewrite Hatts, (attempts_of_fresh s r0 Hbelow Hnil). reflexivity.
Qed.

(** ** The handler's three paths *)

Section Paths.

Variables (h : api.Handler) (env : api.Env) (r : api.Request).

Lemma HandleChat_invalid :
  api.Body r = None ->
  api.HandleChat h env r
  = api.respondError api.StatusBadRequest "invalid request body"
      (api.requestID_of env r).
Proof. unfold api.HandleChat. now intros ->. Qed.

Lemma HandleChat_denied (req : api.ChatRequest) :
  api.Body r = Some req ->
  fst (api.limiter_Allow h (api.tenant_of req) (api.promptTokens_of req))
  = false ->
  api.HandleChat h env r
  = api.admission (api.requestID_of env r) (api.tenant_of req)
      (api.promptTokens_of req)
      (snd (api.limiter_Allow h (api.tenant_of req)
              (api.promptTokens_of req)))
    ++ api.EvLog (api.rate_limited (api.requestID_of env r)
                    (api.tenant_of req) (api.useCase_of req))
       :: api.respondError api.StatusTooManyRequests "rate limited"
            (api.requestID_of env r).
Proof.
  unfold api.HandleChat. intros ->.
  destruct (api.limiter_Allow h _ _) as [allowed err]. cbn [fst snd].
  now intros ->.
Qed.

Lemma HandleChat_admitted (req : api.ChatRequest) :
  api.Body r = Some req ->
  fst (api.limiter_Allow h (api.tenant_of req) (api.promptTokens_of req))
  = true ->
  api.HandleChat h env r
  = api.admission (api.requestID_of env r) (api.tenant_of req)
      (api.promptTokens_of req)
      (snd (api.limiter_Allow h (api.tenant_of req)
              (api.promptTokens_of req)))
    ++ api.EvLog (api.skeleton (api.requestID_of env r) (api.tenant_of req)
                    (api.useCase_of req)
                    (api.router_Route h (api.useCase_of req)))
       :: fst (api.loop h env r req)
       ++ api.after_loop (api.requestID_of env r)
            (snd (api.loop h env r req)).
Proof.
  unfold api.HandleChat. intros ->.
  destruct (api.limiter_Allow h _ _) as [allowed err]. cbn [fst snd].
  intros ->. cbn [negb]. now destruct (api.loop h env r req).
Qed.

End Paths.

(** The admission events and what follows the loops journal nothing, call
    no provider and start no iteration. *)
Lemma admission_quiet (rid caller : string) (tokens : Z)
  (err : option error) :
  api.logged_records (api.admission rid caller tokens err) = [] /\
  api.logged_attempts (api.admission rid caller tokens err) = [] /\
  api.iterations (api.admission rid caller tokens err) = [] /\
  api.chat_targets (api.admission rid caller tokens err) = [] /\
  api.stream_targets (api.admission rid caller tokens err) = [] /\
  api.written (api.admission rid caller tokens err) = [] /\
  api.response_status (api.admission rid caller tokens err) = None /\
  existsb api.is_span (api.admission rid caller tokens err) = false /\
  existsb api.is_completion (api.admission rid caller tokens err) = false.
Proof. destruct err; repeat split; reflexivity. Qed.

Lemma after_loop_quiet (rid : string) (flow : api.Flow) :
  api.logged_records (api.after_loop rid flow) = [] /\
  api.logged_attempts (api.after_loop rid flow) = [] /\
  api.iterations (api.after_loop rid flow) = [] /\
  api.chat_targets (api.after_loop rid flow) = [] /\
  api.stream_targets (api.after_loop rid flow) = [] /\
  existsb api.is_span (api.after_loop rid flow) = false /\
  existsb api.is_completion (api.after_loop rid flow) = false.
Proof. destruct flow as [|a [e|]]; repeat split; reflexivity. Qed.

Lemma response_status_app (l1 l2 : list api.Event) :
  api.response_status (l1 ++ l2)
  = match api.response_status l1 with
    | Some code => Some code
    | None => api.response_status l2
    end.
Proof.
  induction l1 as [|e l1 IH]; [reflexivity|].
  destruct e; cbn; try exact IH; reflexivity.
Qed.

(** ** Requests that never reach the attempt loop *)

(** C9: a body that does not decode to a [ChatRequest] is answered with
    HTTP 400 and nothing is journaled: no record and no attempt is handed
    to the journal, and the database is left as it was. *)
Theorem C9_invalid_body (h : api.Handler) (env : api.Env) (r : api.Request)
  (s : usage.Store) :
  api.Body r = None ->
  api.response_status (api.HandleChat h env r)
  = Some api.StatusBadRequest /\
  api.written (api.HandleChat h env r)
  = [api.JSONError "invalid request body" (api.requestID_of env r)] /\
  api.logged_records (api.HandleChat h env r) = [] /\
  api.logged_attempts (api.HandleChat h env r) = [] /\
  api.journal s (api.HandleChat h env r) = s.
Proof.
  intros Hbody. rewrite (HandleChat_invalid h env r Hbody).
  repeat split; reflexivity.
Qed.

Lemma C9_invalid_body_witness :
  api.Body (api.mkRequest "req-1" None) = None /\
  api.response_status
    (api.HandleChat
       (scenario.handler (scenario.route scenario.openai [] 0)
          [("openai", scenario.answering)] true)
       scenario.world (api.mkRequest "req-1" None))
  = Some 400 /\
  api.journal usage.empty
    (api.HandleChat
       (scenario.handler (scenario.route scenario.openai [] 0)
          [("openai", scenario.answering)] true)
       scenario.world (api.mkRequest "req-1" None))
  = usage.empty.
Proof.
  split; [reflexivity|].
  destruct (C9_invalid_body
              (scenario.handler (scenario.route scenario.openai [] 0)
                 [("openai", scenario.answering)] true)
              scenario.world (api.mkRequest "req-1" None) usage.empty
              eq_refl) as [Hstatus [_ [_ [_ Hjournal]]]].
  split; [exact Hstatus|exact Hjournal].
Defined.

(** C7: a request that the rate limiter does not admit is journaled as
    one record with status 429 and message "rate limited", and answered
    with HTTP 429; no iteration of the attempt loop starts, no provider is
    called and no attempt is journaled.  Under the UNIQUE constraint the
    database then holds exactly one row for the request: its
    [status_code] is 429 and its [error_message] is "rate limited", it
    carries the request's id, tenant and use case, names no route,
    provider or model and counts no tokens, cost or latency; and the
    attempt rows are untouched. *)
Theorem C7_rate_limited (h : api.Handler) (env : api.Env) (r : api.Request)
  (req : api.ChatRequest) (s : usage.Store) :
  api.Body r = Some req ->
  fst (api.limiter_Allow h (api.tenant_of req) (api.promptTokens_of req))
  = false ->
  usage.unique_request_id s ->
  api.logged_records (api.HandleChat h env r)
  = [api.rate_limited (api.requestID_of env r) (api.tenant_of req)
       (api.useCase_of req)] /\
  usage.Record_.StatusCode
    (api.rate_limited (api.requestID_of env r) (api.tenant_of req)
       (api.useCase_of req)) = 429 /\
  usage.Record_.ErrorMessage
    (api.rate_limited (api.requestID_of env r) (api.tenant_of req)
       (api.useCase_of req)) = "rate limited" /\
  api.response_status (api.HandleChat h env r)
  = Some api.StatusTooManyRequests /\
  api.iterations (api.HandleChat h env r) = [] /\
  api.chat_targets (api.HandleChat h env r) = [] /\
  api.stream_targets (api.HandleChat h env r) = [] /\
  api.logged_attempts (api.HandleChat h env r) = [] /\
  (exists row,
     usage.rows_of (api.journal s (api.HandleChat h env r))
       (api.requestID_of env r)
     = [row] /\
     usage.request_id row = api.requestID_of env r /\
     usage.status_code row = 429 /\
     usage.error_message row = "rate limited" /\
     usage.tenant row = api.tenant_of req /\
     usage.use_case row = api.useCase_of req /\
     usage.route_name row = "" /\
     usage.provider row = "" /\
     usage.model row = "" /\
     usage.prompt_tokens row = 0 /\
     usage.completion_tokens row = 0 /\
     usage.total_tokens row = 0 /\
     usage.cost_estimate_usd row = 0%float /\
     usage.latency_ms row = 0) /\
  usage.provider_attempts (api.journal s (api.HandleChat h env r))
  = usage.provider_attempts s.
Proof.
  intros Hbody Hdenied U. rewrite (HandleChat_denied h env r req Hbody Hdenied).
  destruct (admission_quiet (api.requestID_of env r) (api.tenant_of req)
              (api.promptTokens_of req)
              (snd (api.limiter_Allow h (api.tenant_of req)
                      (api.promptTokens_of req))))
    as [Hrec [Hatt [Hit [Hchat [Hstream [Hw [Hstatus _]]]]]]].
  rewrite logged_records_app, response_status_app, iterations_app,
    chat_targets_app, stream_targets_app, logged_attempts_app, journal_app.
  rewrite Hrec, Hatt, Hit, Hchat, Hstream, Hstatus.
  rewrite (journal_quiet s _ Hrec Hatt).
  do 8 (split; [reflexivity|]).
  cbn [api.journal fold_left api.journal_step api.respondError].
  split.
  - destruct (Log_rows_of s
                (api.rate_limited (api.requestID_of env r)
                   (api.tenant_of req) (api.useCase_of req)) U)
      as [i [Hrows _]].
    eexists. split; [exact Hrows|].
    do 12 (split; [reflexivity|]). reflexivity.
  - unfold usage.Log. now destruct (existsb _ _).
Qed.

Lemma C7_rate_limited_witness :
  api.response_status
    (api.HandleChat
       (scenario.handler (scenario.route scenario.openai [] 0)
          [("openai", scenario.answering)] false)
       scenario.world (scenario.request false))
  = Some 429 /\
  usage.provider_attempts
    (api.journal usage.empty
       (api.HandleChat
          (scenario.handler (scenario.route scenario.openai [] 0)
             [("openai", scenario.answering)] false)
          scenario.world (scenario.request false)))
  = [].
Proof.
  destruct (C7_rate_limited
              (scenario.handler (scenario.route scenario.openai [] 0)
                 [("openai", scenario.answering)] false)
              scenario.world (scenario.request false)
              (api.mkChatRequest "" scenario.messages 0%float 0 false
                 scenario.metadata)
              usage.empty eq_refl eq_refl (NoDup_nil _))
    as [_ [_ [_ [Hstatus [_ [_ [_ [_ [_ Hatt]]]]]]]]].
  split; [exact Hstatus|exact Hatt].
Defined.

(** ** Attempt numbering *)

Lemma after_loop_journals_only (rid : string) (flow : api.Flow) :
  api.journals_only rid (api.after_loop rid flow).
Proof. destruct flow as [|a [e|]]; repeat constructor. Qed.

Lemma attempt_no_attempt_row_of (i : nat) (l : list usage.Attempt.t) :
  map usage.attempt_no (map (api.attempt_row_of i) l)
  = map usage.Attempt.AttemptNo l.
Proof. rewrite map_map. reflexivity. Qed.

(** What an admitted request journals, from a database in which its
    request id is new. *)
Lemma admitted_journal (h : api.Handler) (env : api.Env) (r : api.Request)
  (req : api.ChatRequest) (s : usage.Store) :
  api.Body r = Some req ->
  fst (api.limiter_Allow h (api.tenant_of req) (api.promptTokens_of req))
  = true ->
  usage.ids_below s ->
  usage.rows_of s (api.requestID_of env r) = [] ->
  api.logged_attempts (api.HandleChat h env r)
  = api.logged_attempts (fst (api.loop h env r req)) /\
  api.logged_records (api.HandleChat h env r)
  = api.skeleton (api.requestID_of env r) (api.tenant_of req)
      (api.useCase_of req) (api.router_Route h (api.useCase_of req))
    :: api.logged_records (fst (api.loop h env r req)) /\
  usage.rows_of (api.journal s (api.HandleChat h env r))
    (api.requestID_of env r)
  = [fold_left (fun row rec => usage.logged_row (usage.id row) rec)
       (api.logged_records (fst (api.loop h env r req)))
       (usage.logged_row (usage.next_id s)
          (api.skeleton (api.requestID_of env r) (api.tenant_of req)
             (api.useCase_of req)
             (api.router_Route h (api.useCase_of req))))] /\
  usage.attempts_of (api.journal s (api.HandleChat h env r))
    (api.requestID_of env r)
  = map (api.attempt_row_of (usage.next_id s))
        (api.logged_attempts (fst (api.loop h env r req))).
Proof.
  intros Hbody Hadm Hbelow Hnew.
  rewrite (HandleChat_admitted h env r req Hbody Hadm).
  destruct (admission_quiet (api.requestID_of env r) (api.tenant_of req)
              (api.promptTokens_of req)
              (snd (api.limiter_Allow h (api.tenant_of req)
                      (api.promptTokens_of req))))
    as [Hrec [Hatt _]].
  destruct (after_loop_quiet (api.requestID_of env r)
              (snd (api.loop h env r req))) as [Hrec' [Hatt' _]].
  rewrite logged_attempts_app, logged_records_app, journal_app.
  rewrite Hrec, Hatt, (journal_quiet s _ Hrec Hatt).
  cbn [app api.logged_attempts api.logged_records].
  rewrite logged_attempts_app, logged_records_app, Hrec', Hatt', !app_nil_r.
  split; [reflexivity|]. split; [reflexivity|].
  destruct (journal_fresh (api.requestID_of env r) s
              (api.skeleton (api.requestID_of env r) (api.tenant_of req)
                 (api.useCase_of req)
                 (api.router_Route h (api.useCase_of req)))
              (fst (api.loop h env r req)
               ++ api.after_loop (api.requestID_of env r)
                    (snd (api.loop h env r req)))
              Hbelow Hnew eq_refl) as [Hrows Hatts].
  { apply Forall_app. split.
    - apply loop_journals_only.
    - apply after_loop_journals_only. }
  rewrite Hrows, Hatts.
  rewrite logged_attempts_app, logged_records_app, Hrec', Hatt', !app_nil_r.
  split; reflexivity.
Qed.

(** C4: the attempt numbers that a request journals are 1, 2, ..., k, in
    this order, for some k; from a database in which the request id is
    new, these are the attempt numbers of the attempt rows of the request
    afterwards. *)
Theorem C4_attempt_numbers (h : api.Handler) (env : api.Env)
  (r : api.Request) (s : usage.Store) :
  usage.ids_below s ->
  usage.rows_of s (api.requestID_of env r) = [] ->
  exists k,
    map usage.Attempt.AttemptNo
        (api.logged_attempts (api.HandleChat h env r))
    = api.numbers 1 k /\
    map usage.attempt_no
        (usage.attempts_of (api.journal s (api.HandleChat h env r))
           (api.requestID_of env r))
    = api.numbers 1 k.
Proof.
  intros Hbelow Hnew.
  destruct (api.Body r) as [req|] eqn:Hbody.
  - destruct (fst (api.limiter_Allow h (api.tenant_of req)
                     (api.promptTokens_of req))) eqn:Hadm.
    + destruct (admitted_journal h env r req s Hbody Hadm Hbelow Hnew)
        as [Hatt [_ [_ Hrows]]].
      destruct (loop_numbered h env req (api.requestID_of env r)
                  (api.router_Route h (api.useCase_of req))
                  (api.tenant_of req) (api.useCase_of req)
                  (config.Primary (api.router_Route h (api.useCase_of req))
                   :: config.Fallbacks
                        (api.router_Route h (api.useCase_of req)))
                  1 None) as [[k [Hk _]] _].
      exists k. rewrite Hatt, Hrows, attempt_no_attempt_row_of.
      split; exact Hk.
    + exists O. rewrite (HandleChat_denied h env r req Hbody Hadm).
      destruct (admission_quiet (api.requestID_of env r) (api.tenant_of req)
                  (api.promptTokens_of req)
                  (snd (api.limiter_Allow h (api.tenant_of req)
                          (api.promptTokens_of req))))
        as [Hrec [Hatt _]].
      rewrite logged_attempts_app, journal_app, Hatt,
        (journal_quiet s _ Hrec Hatt).
      split; [reflexivity|].
      destruct (journal_fresh (api.requestID_of env r) s
                  (api.rate_limited (api.requestID_of env r)
                     (api.tenant_of req) (api.useCase_of req))
                  (api.respondError api.StatusTooManyRequests
                     "rate limited" (api.requestID_of env r))
                  Hbelow Hnew eq_refl) as [_ Hatts];
        [repeat constructor|].
      rewrite Hatts. reflexivity.
  - exists O. rewrite (HandleChat_invalid h env r Hbody).
    split; [reflexivity|].
    cbn [api.journal fold_left api.journal_step api.respondError].
    now rewrite (attempts_of_missing s _ Hnew).
Qed.

(** ** The order of journal writes *)

Lemma admitted_before_spans (h : api.Handler) (env : api.Env)
  (r : api.Request) (req : api.ChatRequest) :
  api.Body r = Some req ->
  fst (api.limiter_Allow h (api.tenant_of req) (api.promptTokens_of req))
  = true ->
  api.journaled_before_spans 1 (api.HandleChat h env r).
Proof.
  intros Hbody Hadm. rewrite (HandleChat_admitted h env r req Hbody Hadm).
  destruct (admission_quiet (api.requestID_of env r) (api.tenant_of req)
              (api.promptTokens_of req)
              (snd (api.limiter_Allow h (api.tenant_of req)
                      (api.promptTokens_of req))))
    as [_ [Hatt [_ [_ [_ [_ [_ [Hspan _]]]]]]]].
  destruct (after_loop_quiet (api.requestID_of env r)
              (snd (api.loop h env r req)))
    as [_ [_ [_ [_ [_ [Hspan' _]]]]]].
  unfold api.journaled_before_spans.
  apply before_each_app; [now apply before_each_none|].
  apply before_each_cons; [discriminate|].
  apply before_each_app; [|now apply before_each_none].
  eapply before_each_impl;
    [|apply (loop_numbered h env req (api.requestID_of env r)
               (api.router_Route h (api.useCase_of req))
               (api.tenant_of req) (api.useCase_of req)
               (config.Primary (api.router_Route h (api.useCase_of req))
                :: config.Fallbacks
                     (api.router_Route h (api.useCase_of req)))
               1 None)].
  intros pre e _ He t a E. destruct (He t a E) as [Hle Hpre].
  split; [exact Hle|].
  rewrite logged_attempts_app, Hatt. exact Hpre.
Qed.

Lemma admitted_before_completion (h : api.Handler) (env : api.Env)
  (r : api.Request) (req : api.ChatRequest) :
  api.Body r = Some req ->
  fst (api.limiter_Allow h (api.tenant_of req) (api.promptTokens_of req))
  = true ->
  api.logged_before_completion (api.HandleChat h env r).
Proof.
  intros Hbody Hadm. rewrite (HandleChat_admitted h env r req Hbody Hadm).
  destruct (admission_quiet (api.requestID_of env r) (api.tenant_of req)
              (api.promptTokens_of req)
              (snd (api.limiter_Allow h (api.tenant_of req)
                      (api.promptTokens_of req))))
    as [_ [_ [_ [_ [_ [_ [_ [_ Hcompl]]]]]]]].
  destruct (after_loop_quiet (api.requestID_of env r)
              (snd (api.loop h env r req)))
    as [_ [_ [_ [_ [_ [_ Hcompl']]]]]].
  unfold api.logged_before_completion.
  apply before_each_app; [now apply before_each_none|].
  apply before_each_cons; [discriminate|].
  apply before_each_app; [|now apply before_each_none].
  eapply before_each_impl;
    [|apply (loop_completion h env req (api.requestID_of env r)
               (api.router_Route h (api.useCase_of req))
               (api.tenant_of req) (api.useCase_of req)
               (config.Primary (api.router_Route h (api.useCase_of req))
                :: config.Fallbacks
                     (api.router_Route h (api.useCase_of req)))
               1 None)].
  intros pre e _ [rec [Hin Hrec]]. exists rec. split; [|exact Hrec].
  rewrite logged_records_app. apply in_or_app. right. now right.
Qed.

(** C8: in the run of a request that reaches the attempt loop, (1) the
    skeleton record is handed to [Log] before anything else is journaled;
    (2) whenever an iteration of the attempt loop starts, with counter
    [a], the attempts 1, ..., a-1 made before have all been journaled;
    (3) whenever the payload that completes a successful response is
    written (the JSON body of the buffered path, the [DONE] trailer of a
    stream), a record with status 200 has been handed to [Log] before. *)
Theorem C8_journal_order (h : api.Handler) (env : api.Env)
  (r : api.Request) (req : api.ChatRequest) :
  api.Body r = Some req ->
  fst (api.limiter_Allow h (api.tenant_of req) (api.promptTokens_of req))
  = true ->
  (exists pre post,
     api.HandleChat h env r
     = pre ++ api.EvLog (api.skeleton (api.requestID_of env r)
                           (api.tenant_of req) (api.useCase_of req)
                           (api.router_Route h (api.useCase_of req)))
           :: post /\
     api.logged_records pre = [] /\ api.logged_attempts pre = []) /\
  (forall pre t a post,
     api.HandleChat h env r = pre ++ api.EvAttemptSpan t a :: post ->
     map usage.Attempt.AttemptNo (api.logged_attempts pre)
     = api.numbers 1 (Z.to_nat (a - 1))) /\
  (forall pre p post,
     api.HandleChat h env r = pre ++ api.EvWrite p :: post ->
     api.completes p = true ->
     exists rec, In rec (api.logged_records pre) /\
                 usage.Record_.StatusCode rec = api.StatusOK).
Proof.
  intros Hbody Hadm. split; [|split].
  - rewrite (HandleChat_admitted h env r req Hbody Hadm).
    destruct (admission_quiet (api.requestID_of env r) (api.tenant_of req)
                (api.promptTokens_of req)
                (snd (api.limiter_Allow h (api.tenant_of req)
                        (api.promptTokens_of req))))
      as [Hrec [Hatt _]].
    eexists. eexists. split; [reflexivity|]. split; assumption.
  - intros pre t a post Hrun.
    destruct (admitted_before_spans h env r req Hbody Hadm
                pre (api.EvAttemptSpan t a) post Hrun eq_refl t a eq_refl)
      as [_ Hpre].
    exact Hpre.
  - intros pre p post Hrun Hp.
    exact (admitted_before_completion h env r req Hbody Hadm
             pre (api.EvWrite p) post Hrun Hp).
Qed.

(** ** The retry-then-fallback loop *)

Section Targets.

Variables (h : api.Handler) (env : api.Env) (req : api.ChatRequest).
Variables (rid : string) (route : config.Route) (tenant useCase : string).

Local Notation attempt := (api.attempt h env req rid route tenant useCase).
Local Notation attempts := (api.attempts h env req rid route tenant useCase).

(** One target is called at most as often as its loop has iterations. *)
Lemma attempt_chat_targets (t : config.Target) (n : nat) (a : Z)
  (l : option error) :
  exists k, (k <= n)%nat /\
            api.chat_targets (fst (attempt t n a l)) = repeat t k.
Proof.
  revert a l. induction n as [|n IH]; intros a l.
  - exists O. split; [lia|reflexivity].
  - generalize (attempt_cases h env req rid route tenant useCase t n a l).
    generalize (fst (attempt t (S n) a l)) (snd (attempt t (S n) a l)).
    intros evs flow C. destruct C.
    + exists O. split; [lia|reflexivity].
    + exists O. split; [lia|]. cbn [api.chat_targets].
      apply handleStream_chat_targets.
    + exists 1%nat. split; [lia|reflexivity].
    + exists 1%nat. split; [lia|reflexivity].
    + destruct (IH (a + 1) (Some e)) as [k [Hk E]].
      exists (S k). split; [lia|]. cbn. now rewrite E.
    + exists 1%nat. split; [lia|reflexivity].
Qed.

(** The targets are called in the order of the list, each in one block. *)
Lemma attempts_chat_targets (targets : list config.Target) (a : Z)
  (l : option error) :
  exists ks,
    Forall (fun k => (k <= Z.to_nat (config.Retries route + 1))%nat) ks /\
    api.chat_targets (fst (attempts targets a l))
    = flat_map (fun tk => repeat (fst tk) (snd tk)) (combine targets ks).
Proof.
  revert a l. induction targets as [|t rest IH]; intros a l.
  - exists []. split; [constructor|reflexivity].
  - rewrite attempts_cons.
    destruct (attempt_chat_targets t (Z.to_nat (config.Retries route + 1))
                a l) as [k [Hk E]].
    destruct (snd (attempt t (Z.to_nat (config.Retries route + 1)) a l))
      as [|a' l']; cbn [fst snd].
    + exists [k]. split; [now repeat constructor|].
      rewrite E. cbn. destruct rest; cbn; now rewrite app_nil_r.
    + destruct (IH a' l') as [ks [Hks E']].
      exists (k :: ks). split; [now constructor|].
      rewrite chat_targets_app, E, E'. reflexivity.
Qed.

Lemma attempt_keeps_error (t : config.Target) (n : nat) (a : Z)
  (l : option error) (a' : Z) (l' : option error) :
  snd (attempt t n a l) = api.Next a' l' -> l <> None -> l' <> None.
Proof.
  revert a' l'.
  apply (attempt_rules h env req rid route tenant useCase
           (fun _ l evs flow =>
              forall a' l', flow = api.Next a' l' ->
                l <> None -> l' <> None));
    clear; intros; try discriminate.
  - now injection H as _ <-.
  - now injection H0 as _ <-.
  - apply (H1 _ _ H2). discriminate.
  - now injection H1 as _ <-.
Qed.

(** With a retry budget that is not negative every target is tried, so a
    loop over at least one target that falls through has met an error. *)
Lemma loop_some_error (t : config.Target) (rest : list config.Target)
  (a : Z) (l : option error) (a' : Z) (l' : option error) :
  0 <= config.Retries route ->
  snd (attempts (t :: rest) a l) = api.Next a' l' -> l' <> None.
Proof.
  intros Hretries. rewrite attempts_cons.
  destruct (Z.to_nat (config.Retries route + 1)) as [|n] eqn:Hn; [lia|].
  generalize (attempt_cases h env req rid route tenant useCase t n a l).
  generalize (fst (attempt t (S n) a l)) (snd (attempt t (S n) a l)).
  intros evs flow C. destruct C; cbn [snd]; try discriminate.
  - intros Hnext. apply (loop_keeps_error _ _ _ _ _ _ _ _ _ _ _ _ Hnext).
    discriminate.
  - destruct (snd (attempt t n (a + 1) (Some e))) as [|a1 l1] eqn:Hin;
      cbn [snd]; [discriminate|].
    intros Hnext. apply (loop_keeps_error _ _ _ _ _ _ _ _ _ _ _ _ Hnext).
    apply (attempt_keeps_error _ _ _ _ _ _ Hin). discriminate.
  - intros Hnext. apply (loop_keeps_error _ _ _ _ _ _ _ _ _ _ _ _ Hnext).
    discriminate.
Qed.

(** A loop that falls through has set no status line. *)
Lemma loop_next_status (targets : list config.Target) (a : Z)
  (l : option error) (a' : Z) (l' : option error) :
  snd (attempts targets a l) = api.Next a' l' ->
  api.response_status (fst (attempts targets a l)) = None.
Proof.
  revert a' l'.
  apply (attempts_rules h env req rid route tenant useCase
           (fun _ _ evs flow =>
              forall a' l', flow = api.Next a' l' ->
                api.response_status evs = None));
    clear; intros; try discriminate; auto.
  - cbn. eauto.
  - rewrite response_status_app, (H _ _ eq_refl). eauto.
Qed.

(** With no retries, the loop on one target is one iteration. *)
Lemma single_iteration (t : config.Target) (a : Z) (l : option error) :
  config.Retries route = 0 ->
  api.iterations (fst (attempts [t] a l)) = [(t, a)] /\
  (List.length (api.chat_targets (fst (attempts [t] a l))) <= 1)%nat /\
  (forall p,
     providers.lookup (api.registry h) (config.Provider t) = Some p ->
     api.Stream req = false ->
     api.chat_targets (fst (attempts [t] a l)) = [t] /\
     exists row, api.logged_attempts (fst (attempts [t] a l)) = [row] /\
                 usage.Attempt.AttemptNo row = a).
Proof.
  intros Hretries. rewrite attempts_cons, Hretries.
  change (Z.to_nat (0 + 1)) with 1%nat.
  generalize (attempt_cases h env req rid route tenant useCase t O a l).
  generalize (fst (attempt t 1 a l)) (snd (attempt t 1 a l)).
  intros evs flow C.
  destruct C; cbn [fst snd api.attempt api.attempts app];
    rewrite ?app_nil_r;
    (split; [|split]);
    try (cbn [api.iterations api.chat_targets api.call app];
         rewrite ?handleStream_iterations, ?handleStream_chat_targets;
         first [reflexivity | cbn; lia]).
  - intros p Hp. congruence.
  - intros p' _ Hs. congruence.
  - intros _ _ _. split; [reflexivity|]. eexists. split; reflexivity.
  - intros _ _ _. split; [reflexivity|]. eexists. split; reflexivity.
  - intros _ _ _. split; [reflexivity|]. eexists. split; reflexivity.
  - intros _ _ _. split; [reflexivity|]. eexists. split; reflexivity.
Qed.

End Targets.

(** ** Targets whose provider the registry does not know *)

Section Unknown.

Variables (h : api.Handler) (env : api.Env) (req : api.ChatRequest).
Variables (rid : string) (route : config.Route) (tenant useCase : string).

Local Notation attempts := (api.attempts h env req rid route tenant useCase).

(** The outer loop steps over a target with no adapter: one iteration,
    nothing journaled, the counter as it was. *)
Lemma attempts_not_found (t : config.Target) (rest : list config.Target)
  (a : Z) (l : option error) :
  providers.lookup (api.registry h) (config.Provider t) = None ->
  0 <= config.Retries route ->
  attempts (t :: rest) a l
  = (api.EvAttemptSpan t a
     :: fst (attempts rest a
               (Some (Errorf ("provider " ++ config.Provider t
                              ++ " not found")%string))),
     snd (attempts rest a
            (Some (Errorf ("provider " ++ config.Provider t
                           ++ " not found")%string)))).
Proof.
  intros Hnone Hretries. rewrite attempts_cons.
  destruct (Z.to_nat (config.Retries route + 1)) as [|n] eqn:Hn; [lia|].
  rewrite (attempt_not_found h env req rid route tenant useCase t n a l
             Hnone).
  reflexivity.
Qed.

(** A streaming request is handed to the first target that has an
    adapter, on that target's first iteration; the targets after it are
    never tried. *)
Lemma attempts_stream (pre : list config.Target) (t : config.Target)
  (post : list config.Target) (p : providers.Provider) (a : Z)
  (l : option error) :
  Forall (fun u => providers.lookup (api.registry h) (config.Provider u)
                   = None) pre ->
  providers.lookup (api.registry h) (config.Provider t) = Some p ->
  api.Stream req = true ->
  0 <= config.Retries route ->
  attempts (pre ++ t :: post) a l
  = (map (fun u => api.EvAttemptSpan u a) pre
     ++ api.EvAttemptSpan t a
        :: api.handleStream env (api.provReq req t) rid route t tenant
             useCase a p,
     api.Returned).
Proof.
  intros Hpre Hp Hstream Hretries. revert l.
  induction Hpre as [|u pre Hu Hpre IH]; intros l.
  - cbn [app map]. rewrite attempts_cons.
    destruct (Z.to_nat (config.Retries route + 1)) as [|n] eqn:Hn; [lia|].
    rewrite (attempt_stream h env req rid route tenant useCase t n a l p
               Hp Hstream).
    reflexivity.
  - cbn [app map]. rewrite (attempts_not_found u _ a l Hu Hretries).
    rewrite IH. reflexivity.
Qed.

(** A streaming request calls no provider's [Chat], journals no record
    and writes nothing unless it is handed to the streaming path, and is
    handed to it at most once. *)
Lemma stream_loop (targets : list config.Target) (a : Z)
  (l : option error) :
  api.Stream req = true ->
  api.chat_targets (fst (attempts targets a l)) = [] /\
  (List.length (api.stream_targets (fst (attempts targets a l))) <= 1)%nat /\
  Forall (fun ta => snd ta = a) (api.iterations (fst (attempts targets a l))) /\
  (forall a' l', snd (attempts targets a l) = api.Next a' l' ->
     a' = a /\ api.stream_targets (fst (attempts targets a l)) = []).
Proof.
  intros Hstream.
  apply (attempts_rules h env req rid route tenant useCase
           (fun a _ evs flow =>
              api.chat_targets evs = [] /\
              (List.length (api.stream_targets evs) <= 1)%nat /\
              Forall (fun ta => snd ta = a) (api.iterations evs) /\
              (forall a' l', flow = api.Next a' l' -> a' = a /\
                             api.stream_targets evs = []) )
           ); try (intros; congruence).
  - intros. repeat split; try constructor; try (cbn; lia).
    + now injection H as <- _.
  - intros. repeat split; try (cbn; lia).
    + repeat constructor.
    + now injection H0 as <- _.
  - intros. cbn [api.chat_targets api.stream_targets api.iterations].
    rewrite handleStream_chat_targets, handleStream_stream_targets,
      handleStream_iterations.
    repeat split; try (cbn; lia); try discriminate.
    repeat constructor.
  - intros a0 l0 evs a' l' evs' flow' [Hc [Hs [Hi Hn]]] [Hc' [Hs' [Hi' Hn']]].
    destruct (Hn a' l' eq_refl) as [-> Hnil].
    rewrite chat_targets_app, stream_targets_app, iterations_app, Hc, Hc',
      Hnil.
    repeat split; try assumption.
    + apply Forall_app. now split.
    + now destruct (Hn' _ _ H).
    + cbn [app]. now destruct (Hn' _ _ H).
Qed.

End Unknown.




(** ** Streaming requests *)

(** C10, as the claim states it, fails.  With a primary whose provider is
    not registered, a streaming request is handed to the streaming path on
    the fallback; and a nil received from the error channel produces no
    error frame: the stream goes on to its trailer. *)
Lemma C10_counterexample :
  api.Stream (scenario.body true) = true /\
  api.iterations
    (api.HandleChat scenario.misconfigured scenario.world
       (scenario.request true))
  = [(scenario.ghost, 1); (scenario.openai, 1)] /\
  api.stream_targets
    (api.HandleChat scenario.misconfigured scenario.world
       (scenario.request true))
  = [scenario.openai] /\
  providers.ChatStream scenario.closing
    (api.provReq (scenario.body true) scenario.openai) 1
  = [providers.RecvErr None;
     providers.RecvChunk (scenario.chunk "Hello ");
     providers.RecvChunkClosed] /\
  api.written
    (api.HandleChat (scenario.single scenario.closing 0) scenario.world
       (scenario.request true))
  = [api.SSEData (scenario.chunk "Hello "); api.SSEDone].
Proof. repeat split; vm_compute; reflexivity. Qed.

(** C10 (amended): a streaming request that reaches the attempt loop, on a
    route whose retry budget is not negative, steps over the targets whose
    provider is not registered and is handed to the streaming path on the
    first iteration of the first target that has an adapter, with attempt
    number 1; the handler then returns: no later target is tried and
    nothing is retried ([Chat] is never called, at most one target is
    streamed, every iteration has counter 1).  An error received from the
    error channel, before or after any chunk, is journaled as one attempt
    and answered with one SSE error frame, and the pump returns; a nil
    received from the error channel is passed over. *)
Theorem C10_streaming (h : api.Handler) (env : api.Env) (r : api.Request)
  (req : api.ChatRequest) :
  api.Body r = Some req ->
  fst (api.limiter_Allow h (api.tenant_of req) (api.promptTokens_of req))
  = true ->
  api.Stream req = true ->
  0 <= config.Retries (api.router_Route h (api.useCase_of req)) ->
  (forall pre t post p,
     config.Primary (api.router_Route h (api.useCase_of req))
     :: config.Fallbacks (api.router_Route h (api.useCase_of req))
     = pre ++ t :: post ->
     Forall (fun u => providers.lookup (api.registry h) (config.Provider u)
                      = None) pre ->
     providers.lookup (api.registry h) (config.Provider t) = Some p ->
     fst (api.loop h env r req)
     = map (fun u => api.EvAttemptSpan u 1) pre
       ++ api.EvAttemptSpan t 1
          :: api.handleStream env (api.provReq req t)
               (api.requestID_of env r)
               (api.router_Route h (api.useCase_of req)) t
               (api.tenant_of req) (api.useCase_of req) 1 p /\
     snd (api.loop h env r req) = api.Returned) /\
  api.chat_targets (api.HandleChat h env r) = [] /\
  (List.length (api.stream_targets (api.HandleChat h env r)) <= 1)%nat /\
  Forall (fun ta => snd ta = 1) (api.iterations (api.HandleChat h env r)) /\
  (forall q rid route t tenant useCase a e rest fullContent,
     api.pump env q rid route t tenant useCase a
       (providers.RecvErr (Some e) :: rest) fullContent
     = [ api.EvLogAttempt rid (api.stream_failure rid t a e);
         api.EvWrite (api.SSEError (Error e));
         api.EvFlush ]) /\
  (forall q rid route t tenant useCase a rest fullContent,
     api.pump env q rid route t tenant useCase a
       (providers.RecvErr None :: rest) fullContent
     = api.pump env q rid route t tenant useCase a rest fullContent).
Proof.
  intros Hbody Hadm Hstream Hretries.
  split; [|split; [|split; [|split; [|split]]]].
  - intros pre t post p Hsplit Hpre Hp. unfold api.loop. rewrite Hsplit.
    rewrite (attempts_stream h env req _ _ _ _ pre t post p 1 None
               Hpre Hp Hstream Hretries).
    split; reflexivity.
  - rewrite (HandleChat_admitted h env r req Hbody Hadm).
    destruct (admission_quiet (api.requestID_of env r) (api.tenant_of req)
                (api.promptTokens_of req)
                (snd (api.limiter_Allow h (api.tenant_of req)
                        (api.promptTokens_of req))))
      as [_ [_ [_ [Hchat _]]]].
    destruct (after_loop_quiet (api.requestID_of env r)
                (snd (api.loop h env r req))) as [_ [_ [_ [Hchat' _]]]].
    rewrite chat_targets_app, Hchat. cbn [app api.chat_targets].
    rewrite chat_targets_app, Hchat', app_nil_r.
    now apply stream_loop.
  - rewrite (HandleChat_admitted h env r req Hbody Hadm).
    destruct (admission_quiet (api.requestID_of env r) (api.tenant_of req)
                (api.promptTokens_of req)
                (snd (api.limiter_Allow h (api.tenant_of req)
                        (api.promptTokens_of req))))
      as [_ [_ [_ [_ [Hs _]]]]].
    destruct (after_loop_quiet (api.requestID_of env r)
                (snd (api.loop h env r req))) as [_ [_ [_ [_ [Hs' _]]]]].
    rewrite stream_targets_app, Hs. cbn [app api.stream_targets].
    rewrite stream_targets_app, Hs', app_nil_r.
    now apply stream_loop.
  - rewrite (HandleChat_admitted h env r req Hbody Hadm).
    destruct (admission_quiet (api.requestID_of env r) (api.tenant_of req)
                (api.promptTokens_of req)
                (snd (api.limiter_Allow h (api.tenant_of req)
                        (api.promptTokens_of req))))
      as [_ [_ [Hit _]]].
    destruct (after_loop_quiet (api.requestID_of env r)
                (snd (api.loop h env r req))) as [_ [_ [Hit' _]]].
    rewrite iterations_app, Hit. cbn [app api.iterations].
    rewrite iterations_app, Hit', app_nil_r.
    now apply stream_loop.
  - intros. apply pump_error.
  - intros. apply pump_nil_error.
Qed.

(** ** Successful responses and their attempt rows *)

Lemma pump_done_status (env : api.Env) (q : providers.ChatRequest)
  (rid : string) (route : config.Route) (t : config.Target)
  (tenant useCase : string) (a : Z) (rc : list providers.Received)
  (fc : string) :
  In api.SSEDone
     (api.written (api.pump env q rid route t tenant useCase a rc fc)) ->
  api.response_status (api.pump env q rid route t tenant useCase a rc fc)
  = Some api.StatusOK.
Proof.
  revert fc. induction rc as [|[c| |[e|]|] rc IH]; intros fc; cbn.
  - intros [].
  - reflexivity.
  - reflexivity.
  - intros [H|[]]. discriminate.
  - apply IH.
  - intros [].
Qed.

Section Success.

Variables (h : api.Handler) (env : api.Env) (req : api.ChatRequest).
Variables (rid : string) (route : config.Route) (tenant useCase : string).

Local Notation attempts := (api.attempts h env req rid route tenant useCase).

(** A streaming request: a loop that falls through has journaled and
    written nothing; a stream that reaches its trailer has journaled its
    final record and no attempt. *)
Lemma stream_success (targets : list config.Target) (a : Z)
  (l : option error) :
  api.Stream req = true ->
  match snd (attempts targets a l) with
  | api.Next _ _ =>
      api.written (fst (attempts targets a l)) = [] /\
      api.logged_attempts (fst (attempts targets a l)) = [] /\
      api.logged_records (fst (attempts targets a l)) = [] /\
      api.response_status (fst (attempts targets a l)) = None
  | api.Returned =>
      In api.SSEDone (api.written (fst (attempts targets a l))) ->
      api.logged_attempts (fst (attempts targets a l)) = [] /\
      (exists t fc,
         api.logged_records (fst (attempts targets a l))
         = [api.stream_record env (api.provReq req t) rid route t tenant
              useCase fc]) /\
      api.response_status (fst (attempts targets a l)) = Some api.StatusOK
  end.
Proof.
  intros Hstream.
  apply (attempts_rules h env req rid route tenant useCase
           (fun _ _ evs flow =>
              match flow with
              | api.Next _ _ =>
                  api.written evs = [] /\ api.logged_attempts evs = [] /\
                  api.logged_records evs = [] /\
                  api.response_status evs = None
              | api.Returned =>
                  In api.SSEDone (api.written evs) ->
                  api.logged_attempts evs = [] /\
                  (exists t fc,
                     api.logged_records evs
                     = [api.stream_record env (api.provReq req t) rid route
                          t tenant useCase fc]) /\
                  api.response_status evs = Some api.StatusOK
              end));
    try (intros; congruence).
  - intros. repeat split; reflexivity.
  - intros. repeat split; reflexivity.
  - intros t a0 l0 p _ _.
    cbn [api.written api.logged_attempts api.logged_records
         api.response_status].
    rewrite handleStream_written, handleStream_logged_attempts,
      handleStream_logged_records.
    intros Hdone.
    destruct (pump_done env (api.provReq req t) rid route t tenant useCase
                a0 _ _ Hdone) as [Hatt [fc Hrec]].
    split; [exact Hatt|]. split; [now exists t, fc|].
    cbn. now apply pump_done_status.
  - intros a0 l0 evs a' l' evs' flow' [Hw [Ha [Hr Hs]]] H'.
    rewrite written_app, logged_attempts_app, logged_records_app,
      response_status_app, Hw, Ha, Hr, Hs.
    exact H'.
Qed.

(** The target of a stream's final record is the target that was handed
    to the streaming path. *)
Lemma stream_targets_of_record (targets : list config.Target) (a : Z)
  (l : option error) :
  api.Stream req = true ->
  forall t fc,
    api.logged_records (fst (attempts targets a l))
    = [api.stream_record env (api.provReq req t) rid route t tenant
         useCase fc] ->
    api.stream_targets (fst (attempts targets a l)) = [t].
Proof.
  intros Hstream.
  apply (attempts_rules h env req rid route tenant useCase
           (fun _ _ evs flow =>
              (forall a' l', flow = api.Next a' l' ->
                 api.logged_records evs = [] /\
                 api.stream_targets evs = []) /\
              forall t fc,
                api.logged_records evs
                = [api.stream_record env (api.provReq req t) rid route t
                     tenant useCase fc] ->
                api.stream_targets evs = [t]));
    try (intros; congruence).
  - intros. split; [intros; split; reflexivity|]. intros; discriminate.
  - intros. split; [intros; split; reflexivity|]. intros; discriminate.
  - intros t a0 l0 p _ _. split; [intros; discriminate|].
    intros t' fc. cbn [api.logged_records api.stream_targets].
    rewrite handleStream_logged_records, handleStream_stream_targets.
    destruct (pump_records env (api.provReq req t) rid route t tenant
                useCase a0 (providers.ChatStream p (api.provReq req t) a0)
                "") as [E|[fc' E]]; rewrite E; [discriminate|].
    intros Hrec.
    pose proof (f_equal (map usage.Record_.Provider) Hrec) as Hp.
    pose proof (f_equal (map usage.Record_.Model) Hrec) as Hm.
    cbn in Hp, Hm. injection Hp as Hp. injection Hm as Hm.
    destruct t, t'. cbn in Hp, Hm. now subst.
  - intros a0 l0 evs a' l' evs' flow' [Hn _] [Hn' Hrec].
    destruct (Hn _ _ eq_refl) as [Hr Hs].
    rewrite logged_records_app, stream_targets_app, Hr, Hs.
    split; [|exact Hrec].
    intros a1 l1 E. exact (Hn' _ _ E).
Qed.

(** A buffered request: a loop that the handler leaves by returning has
    either panicked or answered, and then the last attempt it journaled is
    the successful one, on the target of its final record. *)
Lemma buffered_success (targets : list config.Target) (a : Z)
  (l : option error) :
  api.Stream req = false ->
  match snd (attempts targets a l) with
  | api.Next _ _ =>
      api.logged_records (fst (attempts targets a l)) = [] /\
      api.written (fst (attempts targets a l)) = []
  | api.Returned =>
      (In api.EvPanic (fst (attempts targets a l)) /\
       api.written (fst (attempts targets a l)) = []) \/
      exists init t a' resp,
        api.logged_attempts (fst (attempts targets a l))
        = init ++ [api.attempt_row env rid t a' (Some resp) None] /\
        api.logged_records (fst (attempts targets a l))
        = [api.success_record env rid route tenant useCase t resp] /\
        api.written (fst (attempts targets a l)) = [api.JSONResponse resp]
  end.
Proof.
  intros Hbuffered.
  apply (attempts_rules h env req rid route tenant useCase
           (fun _ _ evs flow =>
              match flow with
              | api.Next _ _ =>
                  api.logged_records evs = [] /\ api.written evs = []
              | api.Returned =>
                  (In api.EvPanic evs /\ api.written evs = []) \/
                  exists init t a' resp,
                    api.logged_attempts evs
                    = init ++ [api.attempt_row env rid t a' (Some resp) None]
                    /\ api.logged_records evs
                       = [api.success_record env rid route tenant useCase
                            t resp]
                    /\ api.written evs = [api.JSONResponse resp]
              end));
    try (intros; congruence).
  - intros. split; reflexivity.
  - intros. split; reflexivity.
  - intros t a0 l0 p r _ _. right. exists [], t, a0, r.
    repeat split; reflexivity.
  - intros t a0 l0 _. left. split; [cbn; auto|reflexivity].
  - intros t a0 l0 resp e evs flow _ _ IH.
    destruct flow as [|a1 l1].
    + destruct IH as [[Hpanic Hw]|[init [t' [a' [r [Ha [Hr Hw]]]]]]].
      * left. split; [apply in_or_app; now right|].
        now rewrite written_app, Hw.
      * right.
        exists (api.attempt_row env rid t a0 resp (Some e) :: init), t', a', r.
        rewrite logged_attempts_app, logged_records_app, written_app,
          Ha, Hr, Hw.
        repeat split; reflexivity.
    + destruct IH as [Hr Hw].
      rewrite logged_records_app, written_app, Hr, Hw. split; reflexivity.
  - intros. split; reflexivity.
  - intros a0 l0 evs a' l' evs' flow' [Hr Hw] IH.
    destruct flow' as [|a1 l1].
    + destruct IH as [[Hpanic Hw']|[init [t' [a2 [r [Ha [Hr' Hw']]]]]]].
      * left. split; [apply in_or_app; now right|].
        now rewrite written_app, Hw, Hw'.
      * right. exists (api.logged_attempts evs ++ init), t', a2, r.
        rewrite logged_attempts_app, logged_records_app, written_app,
          Ha, Hr, Hw, Hr', Hw', app_assoc.
        repeat split; reflexivity.
    + destruct IH as [Hr' Hw'].
      rewrite logged_records_app, written_app, Hr, Hw, Hr', Hw'.
      split; reflexivity.
Qed.

End Success.

Lemma written_run (h : api.Handler) (env : api.Env) (r : api.Request)
  (req : api.ChatRequest) :
  api.Body r = Some req ->
  fst (api.limiter_Allow h (api.tenant_of req) (api.promptTokens_of req))
  = true ->
  api.written (api.HandleChat h env r)
  = api.written (fst (api.loop h env r req))
    ++ api.written (api.after_loop (api.requestID_of env r)
                      (snd (api.loop h env r req))) /\
  api.response_status (api.HandleChat h env r)
  = api.response_status
      (fst (api.loop h env r req)
       ++ api.after_loop (api.requestID_of env r)
            (snd (api.loop h env r req))).
Proof.
  intros Hbody Hadm. rewrite (HandleChat_admitted h env r req Hbody Hadm).
  destruct (admission_quiet (api.requestID_of env r) (api.tenant_of req)
              (api.promptTokens_of req)
              (snd (api.limiter_Allow h (api.tenant_of req)
                      (api.promptTokens_of req))))
    as [_ [_ [_ [_ [_ [Hw [Hs _]]]]]]].
  rewrite written_app, response_status_app, Hw, Hs.
  cbn [app api.written api.response_status].
  now rewrite written_app.
Qed.

(** On the buffered path the claim holds: from a database in which the
    request id is new, a request that is answered leaves one request row
    with status 200 and the route's name, and the last attempt row of the
    request has status 200 and the request row's provider and model.  (By
    C4 the last attempt row is the one with the greatest attempt
    number.) *)
Lemma buffered_success_attempt_row (h : api.Handler) (env : api.Env)
  (r : api.Request) (req : api.ChatRequest) (s : usage.Store)
  (resp : providers.ChatResponse) :
  api.Body r = Some req ->
  fst (api.limiter_Allow h (api.tenant_of req) (api.promptTokens_of req))
  = true ->
  api.Stream req = false ->
  usage.ids_below s ->
  usage.rows_of s (api.requestID_of env r) = [] ->
  In (api.JSONResponse resp) (api.written (api.HandleChat h env r)) ->
  exists row init last,
    usage.rows_of (api.journal s (api.HandleChat h env r))
      (api.requestID_of env r) = [row] /\
    usage.attempts_of (api.journal s (api.HandleChat h env r))
      (api.requestID_of env r) = init ++ [last] /\
    usage.status_code row = 200 /\
    usage.route_name row
    = config.Name (api.router_Route h (api.useCase_of req)) /\
    usage.provider row = usage.a_provider last /\
    usage.model row = usage.a_model last /\
    usage.a_status_code last = 200.
Proof.
  intros Hbody Hadm Hbuffered Hbelow Hnew Hin.
  destruct (admitted_journal h env r req s Hbody Hadm Hbelow Hnew)
    as [_ [_ [Hrows Hatts]]].
  destruct (written_run h env r req Hbody Hadm) as [Hw _].
  rewrite Hw in Hin. clear Hw.
  pose proof (buffered_success h env req (api.requestID_of env r)
                (api.router_Route h (api.useCase_of req))
                (api.tenant_of req) (api.useCase_of req)
                (config.Primary (api.router_Route h (api.useCase_of req))
                 :: config.Fallbacks
                      (api.router_Route h (api.useCase_of req)))
                1 None Hbuffered) as Hloop.
  fold (api.loop h env r req) in Hloop.
  destruct (snd (api.loop h env r req)) as [|a' l'].
  - destruct Hloop as [[_ Hw]|[init [t [a [rsp [Ha [Hr Hw]]]]]]].
    + rewrite Hw in Hin. destruct Hin.
    + rewrite Hrows, Hatts, Ha, Hr, map_app.
      eexists. eexists. eexists. split; [reflexivity|].
      split; [reflexivity|]. cbn. repeat split; reflexivity.
  - destruct Hloop as [_ Hw]. rewrite Hw in Hin. cbn [app] in Hin.
    destruct l' as [e|]; cbn in Hin; [|contradiction].
    destruct Hin as [Hin|[]]. discriminate.
Qed.

(** C2 on the streaming path: a streaming request whose stream reaches its
    trailer is answered with HTTP 200 and leaves a request row with status
    200, the route's name and the streamed target's provider and model,
    but it journals no attempt: from a database in which the request id is
    new, the request has no attempt row at all afterwards, so there is no
    attempt row with the greatest number and status 200 for the request
    row to agree with. *)
Theorem C2_stream_success_without_attempt_row (h : api.Handler)
  (env : api.Env) (r : api.Request) (req : api.ChatRequest)
  (s : usage.Store) :
  api.Body r = Some req ->
  fst (api.limiter_Allow h (api.tenant_of req) (api.promptTokens_of req))
  = true ->
  api.Stream req = true ->
  usage.ids_below s ->
  usage.rows_of s (api.requestID_of env r) = [] ->
  In api.SSEDone (api.written (api.HandleChat h env r)) ->
  api.response_status (api.HandleChat h env r) = Some api.StatusOK /\
  api.logged_attempts (api.HandleChat h env r) = [] /\
  usage.attempts_of (api.journal s (api.HandleChat h env r))
    (api.requestID_of env r) = [] /\
  exists row t,
    usage.rows_of (api.journal s (api.HandleChat h env r))
      (api.requestID_of env r) = [row] /\
    usage.status_code row = 200 /\
    usage.route_name row
    = config.Name (api.router_Route h (api.useCase_of req)) /\
    usage.provider row = config.Provider t /\
    usage.model row = config.Model t /\
    api.stream_targets (api.HandleChat h env r) = [t].
Proof.
  intros Hbody Hadm Hstream Hbelow Hnew Hin.
  destruct (admitted_journal h env r req s Hbody Hadm Hbelow Hnew)
    as [Hatt [_ [Hrows Hatts]]].
  destruct (written_run h env r req Hbody Hadm) as [Hw Hstatus].
  rewrite Hw in Hin. clear Hw.
  pose proof (stream_success h env req (api.requestID_of env r)
                (api.router_Route h (api.useCase_of req))
                (api.tenant_of req) (api.useCase_of req)
                (config.Primary (api.router_Route h (api.useCase_of req))
                 :: config.Fallbacks
                      (api.router_Route h (api.useCase_of req)))
                1 None Hstream) as Hloop.
  fold (api.loop h env r req) in Hloop.
  assert (api.stream_targets (api.HandleChat h env r)
          = api.stream_targets (fst (api.loop h env r req))) as Hst.
  { rewrite (HandleChat_admitted h env r req Hbody Hadm).
    destruct (admission_quiet (api.requestID_of env r) (api.tenant_of req)
                (api.promptTokens_of req)
                (snd (api.limiter_Allow h (api.tenant_of req)
                        (api.promptTokens_of req))))
      as [_ [_ [_ [_ [Hs _]]]]].
    destruct (after_loop_quiet (api.requestID_of env r)
                (snd (api.loop h env r req))) as [_ [_ [_ [_ [Hs' _]]]]].
    rewrite stream_targets_app, Hs. cbn [app api.stream_targets].
    now rewrite stream_targets_app, Hs', app_nil_r. }
  destruct (snd (api.loop h env r req)) as [|a' l'].
  - cbn [api.after_loop api.written] in Hin. rewrite app_nil_r in Hin.
    destruct (Hloop Hin) as [Ha [[t [fc Hr]] Hs]].
    rewrite Hstatus, response_status_app, Hs, Hatt, Hatts, Ha, Hrows, Hr.
    split; [reflexivity|]. split; [reflexivity|]. split; [reflexivity|].
    pose proof (stream_targets_of_record h env req (api.requestID_of env r)
                  (api.router_Route h (api.useCase_of req))
                  (api.tenant_of req) (api.useCase_of req)
                  (config.Primary (api.router_Route h (api.useCase_of req))
                   :: config.Fallbacks
                        (api.router_Route h (api.useCase_of req)))
                  1 None Hstream t fc) as Ht.
    fold (api.loop h env r req) in Ht.
    eexists. exists t. split; [reflexivity|]. cbn.
    repeat split; try reflexivity. rewrite Hst. now apply Ht.
  - destruct Hloop as [Hw _]. rewrite Hw in Hin. cbn [app] in Hin.
    destruct l' as [e|]; cbn in Hin; [|contradiction].
    destruct Hin as [Hin|[]]. discriminate.
Qed.

(** ** The theorems at concrete runs *)

Lemma ids_below_empty : usage.ids_below usage.empty.
Proof. split; intros ? []. Qed.

Lemma C2_stream_success_without_attempt_row_witness :
  In api.SSEDone
     (api.written
        (api.HandleChat (scenario.single scenario.answering 0)
           scenario.world (scenario.request true))) /\
  api.response_status
    (api.HandleChat (scenario.single scenario.answering 0) scenario.world
       (scenario.request true))
  = Some 200 /\
  usage.attempts_of
    (api.journal usage.empty
       (api.HandleChat (scenario.single scenario.answering 0)
          scenario.world (scenario.request true)))
    "req-1"
  = [].
Proof.
  assert (In api.SSEDone
            (api.written
               (api.HandleChat (scenario.single scenario.answering 0)
                  scenario.world (scenario.request true)))) as Hdone.
  { right. right. left. reflexivity. }
  split; [exact Hdone|].
  destruct (C2_stream_success_without_attempt_row
              (scenario.single scenario.answering 0) scenario.world
              (scenario.request true) (scenario.body true) usage.empty
              eq_refl eq_refl eq_refl ids_below_empty eq_refl Hdone)
    as [Hstatus [_ [Hatts _]]].
  split; [exact Hstatus|exact Hatts].
Defined.

Lemma C4_attempt_numbers_witness :
  exists k,
    map usage.Attempt.AttemptNo
        (api.logged_attempts
           (api.HandleChat scenario.primary_down scenario.lenient_world
              (scenario.request false)))
    = api.numbers 1 k /\
    map usage.attempt_no
        (usage.attempts_of
           (api.journal usage.empty
              (api.HandleChat scenario.primary_down scenario.lenient_world
                 (scenario.request false)))
           "req-1")
    = api.numbers 1 k.
Proof.
  exact (C4_attempt_numbers scenario.primary_down scenario.lenient_world
           (scenario.request false) usage.empty ids_below_empty eq_refl).
Defined.

Lemma C8_journal_order_witness :
  exists pre post,
    api.HandleChat scenario.primary_down scenario.lenient_world
      (scenario.request false)
    = pre ++ api.EvLog (api.skeleton "req-1" "acme" "support_summary"
                          (scenario.route scenario.ghost
                             [scenario.openai] 2))
          :: post /\
    api.logged_records pre = [] /\ api.logged_attempts pre = [].
Proof.
  exact (proj1 (C8_journal_order scenario.primary_down
                  scenario.lenient_world (scenario.request false)
                  (scenario.body false) eq_refl eq_refl)).
Defined.

Lemma C10_streaming_witness :
  api.chat_targets
    (api.HandleChat scenario.misconfigured scenario.world
       (scenario.request true)) = [] /\
  (List.length
     (api.stream_targets
        (api.HandleChat scenario.misconfigured scenario.world
           (scenario.request true))) <= 1)%nat.
Proof.
  assert (0 <= config.Retries
                 (api.router_Route scenario.misconfigured
                    (api.useCase_of (scenario.body true)))) as Hretries
    by (cbn; lia).
  destruct (C10_streaming scenario.misconfigured scenario.world
              (scenario.request true) (scenario.body true)
              eq_refl eq_refl eq_refl Hretries) as [_ [Hchat [Hone _]]].
  split; [exact Hchat|exact Hone].
Defined.

(** ** The specification's scenarios, evaluated *)

(** The primary answers at the first try: one attempt row with number 1
    and status 200, one request row with the usage of the answer and the
    cost 0.000014. *)
Example scenario_primary_succeeds :
  api.response_status
    (api.HandleChat (scenario.single scenario.answering 0) scenario.world
       (scenario.request false)) = Some 200 /\
  map (fun a => (usage.Attempt.AttemptNo a, usage.Attempt.StatusCode a))
      (api.logged_attempts
         (api.HandleChat (scenario.single scenario.answering 0)
            scenario.world (scenario.request false)))
  = [(1, 200)] /\
  usage.rows_of
    (api.journal usage.empty
       (api.HandleChat (scenario.single scenario.answering 0)
          scenario.world (scenario.request false))) "req-1"
  = [usage.mkRequestsRow 0 "req-1" "acme" "support_summary" "support"
       "openai" "gpt-4o-mini" 10 20 30 (usage.decimal6 14) 9 200 ""].
Proof. repeat split; vm_compute; reflexivity. Qed.

(** One target, two retries, every attempt fails in transport: three
    attempt rows with status 502 and HTTP 502 with the last error's text.
    The request row is the skeleton's. *)
Example scenario_all_exhausted :
  api.response_status
    (api.HandleChat (scenario.single scenario.unreachable 2)
       scenario.world (scenario.request false)) = Some 502 /\
  api.written
    (api.HandleChat (scenario.single scenario.unreachable 2)
       scenario.world (scenario.request false))
  = [api.JSONError "dial tcp: connection refused" "req-1"] /\
  map (fun a => (usage.Attempt.AttemptNo a, usage.Attempt.StatusCode a))
      (api.logged_attempts
         (api.HandleChat (scenario.single scenario.unreachable 2)
            scenario.world (scenario.request false)))
  = [(1, 502); (2, 502); (3, 502)] /\
  map (fun row => (usage.status_code row, usage.error_message row))
      (usage.rows_of
         (api.journal usage.empty
            (api.HandleChat (scenario.single scenario.unreachable 2)
               scenario.world (scenario.request false))) "req-1")
  = [(0, "")].
Proof. repeat split; vm_compute; reflexivity. Qed.

(** The primary answers with an HTTP error, which is not retryable: no
    retry, the fallback answers at attempt 2. *)
Example scenario_http_error_then_fallback :
  map (fun a => (usage.Attempt.AttemptNo a, usage.Attempt.Provider a,
                 usage.Attempt.StatusCode a))
      (api.logged_attempts
         (api.HandleChat
            (scenario.handler
               (scenario.route scenario.openai [scenario.anthropic] 1)
               [("openai", scenario.unhappy);
                ("anthropic", scenario.answering)] true)
            scenario.world (scenario.request false)))
  = [(1, "openai", 502); (2, "anthropic", 200)].
Proof. vm_compute; reflexivity. Qed.

(** A retry budget below zero: no target is tried, no error is met, and
    the handler panics on the nil error it would report. *)
Example scenario_negative_retries :
  api.HandleChat (scenario.single scenario.answering (-1)) scenario.world
    (scenario.request false)
  = [ api.EvAllow "acme" 3;
      api.EvLog (api.skeleton "req-1" "acme" "support_summary"
                   (scenario.route scenario.openai [] (-1)));
      api.EvPanic ].
Proof. vm_compute; reflexivity. Qed.

(** * Further properties of the journal *)

Lemma do_update_idempotent (r : usage.Record_.t) (cost : float)
  (row : usage.requests_row) :
  usage.do_update r cost (usage.do_update r cost row)
  = usage.do_update r cost row.
Proof.
  unfold usage.do_update.
  destruct (usage.has_request_id (usage.Record_.RequestID r) row) eqn:E.
  - now rewrite has_request_id_inserted, String.eqb_refl.
  - now rewrite E.
Qed.

Lemma do_update_other (r : usage.Record_.t) (cost : float)
  (rows : list usage.requests_row) :
  existsb (usage.has_request_id (usage.Record_.RequestID r)) rows = false ->
  map (usage.do_update r cost) rows = rows.
Proof.
  induction rows as [|row rows IH]; [reflexivity|]. cbn [existsb map].
  intros H. apply orb_false_iff in H as [Hrow Hrows].
  unfold usage.do_update at 1. rewrite Hrow. now rewrite IH.
Qed.

Lemma existsb_do_update (r : usage.Record_.t) (cost : float)
  (rows : list usage.requests_row) :
  existsb (usage.has_request_id (usage.Record_.RequestID r))
          (map (usage.do_update r cost) rows)
  = existsb (usage.has_request_id (usage.Record_.RequestID r)) rows.
Proof.
  induction rows as [|row rows IH]; [reflexivity|]. cbn [existsb map].
  rewrite IH. f_equal. unfold usage.has_request_id.
  now rewrite request_id_do_update.
Qed.

(** X1: [Log] is idempotent: logging the same record twice leaves the
    database as logging it once, whether the first write inserts or
    updates. *)
Theorem Log_idempotent (s : usage.Store) (r : usage.Record_.t) :
  usage.Log (usage.Log s r) r = usage.Log s r.
Proof.
  unfold usage.Log at 2.
  destruct (existsb _ (usage.requests s)) eqn:Hex.
  - unfold usage.Log. cbn [usage.requests usage.provider_attempts
                            usage.next_id].
    rewrite existsb_do_update, Hex, map_map.
    f_equal. apply map_ext. intros row. apply do_update_idempotent.
  - unfold usage.Log. cbn [usage.requests usage.provider_attempts
                            usage.next_id].
    rewrite existsb_app. cbn [existsb].
    rewrite has_request_id_inserted, String.eqb_refl, Hex. cbn [orb].
    rewrite map_app, (do_update_other _ _ _ Hex). cbn [map].
    unfold usage.do_update.
    rewrite has_request_id_inserted, String.eqb_refl. reflexivity.
Qed.

Lemma filter_do_update_other (r : usage.Record_.t) (cost : float)
  (rid : string) (rows : list usage.requests_row) :
  rid <> usage.Record_.RequestID r ->
  filter (usage.has_request_id rid) (map (usage.do_update r cost) rows)
  = filter (usage.has_request_id rid) rows.
Proof.
  intros Hne. induction rows as [|row rows IH]; [reflexivity|].
  cbn [map filter]. rewrite IH.
  assert (usage.has_request_id rid (usage.do_update r cost row)
          = usage.has_request_id rid row) as ->.
  { unfold usage.has_request_id. now rewrite request_id_do_update. }
  destruct (usage.has_request_id rid row) eqn:E; [|reflexivity].
  f_equal. unfold usage.do_update.
  destruct (usage.has_request_id (usage.Record_.RequestID r) row) eqn:E';
    [|reflexivity].
  unfold usage.has_request_id in E, E'.
  apply String.eqb_eq in E, E'. congruence.
Qed.

(** X2: [Log] touches one request only: the rows of every other request id,
    and all attempt rows, are as they were. *)
Theorem Log_frame (s : usage.Store) (r : usage.Record_.t) (rid : string) :
  rid <> usage.Record_.RequestID r ->
  usage.rows_of (usage.Log s r) rid = usage.rows_of s rid /\
  usage.provider_attempts (usage.Log s r) = usage.provider_attempts s.
Proof.
  intros Hne. unfold usage.Log, usage.rows_of.
  destruct (existsb _ (usage.requests s)) eqn:Hex;
    cbn [usage.requests usage.provider_attempts]; (split; [|reflexivity]).
  - now apply filter_do_update_other.
  - rewrite filter_app. cbn [filter].
    rewrite has_request_id_inserted.
    destruct (String.eqb (usage.Record_.RequestID r) rid) eqn:E.
    + apply String.eqb_eq in E. congruence.
    + apply app_nil_r.
Qed.

Lemma Log_witness_frame :
  usage.rows_of (usage.Log (usage.Log usage.empty scenario.final_record)
                           (api.rate_limited "req-2" "acme" ""))
                "req-1"
  = usage.rows_of (usage.Log usage.empty scenario.final_record) "req-1".
Proof.
  destruct (Log_frame (usage.Log usage.empty scenario.final_record)
              (api.rate_limited "req-2" "acme" "") "req-1") as [H _];
    [discriminate|exact H].
Defined.

Lemma id_do_update (r : usage.Record_.t) (cost : float)
  (row : usage.requests_row) :
  usage.id (usage.do_update r cost row) = usage.id row.
Proof.
  unfold usage.do_update.
  now destruct (usage.has_request_id (usage.Record_.RequestID r) row).
Qed.

Lemma Log_consistent (s : usage.Store) (r : usage.Record_.t) :
  usage.consistent s -> usage.consistent (usage.Log s r).
Proof.
  intros [U [PK [[Brows Batts] Ref]]].
  split; [now apply Log_unique|].
  unfold usage.primary_key, usage.ids_below, usage.referential, usage.Log
    in *.
  destruct (existsb _ (usage.requests s)) eqn:Hex;
    cbn [usage.requests usage.provider_attempts usage.next_id].
  - split; [|split; [split|]].
    + rewrite map_map. rewrite (map_ext _ usage.id); [exact PK|].
      intros row. apply id_do_update.
    + intros row Hin. apply in_map_iff in Hin as [row0 [<- Hin]].
      rewrite id_do_update. now apply Brows.
    + exact Batts.
    + intros a Hin. destruct (Ref a Hin) as [row [Hrow Hid]].
      exists (usage.do_update r
                (usage.EstimateCost (usage.Record_.Model r)
                   (usage.Record_.PromptTokens r)
                   (usage.Record_.CompletionTokens r)) row).
      split; [now apply in_map|]. now rewrite id_do_update.
  - split; [|split; [split|]].
    + rewrite map_app. cbn [map usage.inserted usage.id].
      apply NoDup_snoc; [exact PK|]. intros Hin.
      apply in_map_iff in Hin as [row [Hid Hin]].
      specialize (Brows row Hin). lia.
    + intros row Hin. apply in_app_or in Hin as [Hin|[<-|[]]].
      * specialize (Brows row Hin). lia.
      * cbn. lia.
    + intros a Hin. specialize (Batts a Hin). lia.
    + intros a Hin. destruct (Ref a Hin) as [row [Hrow Hid]].
      exists row. split; [|exact Hid]. apply in_or_app. now left.
Qed.

Lemma LogAttempt_consistent (s : usage.Store) (rid : string)
  (a : usage.Attempt.t) :
  usage.consistent s -> usage.consistent (usage.LogAttempt s rid a).
Proof.
  intros [U [PK [[Brows Batts] Ref]]]. unfold usage.LogAttempt.
  destruct (find _ (usage.requests s)) as [row|] eqn:Hfind;
    [|repeat split; assumption].
  apply find_some in Hfind as [Hin _].
  split; [exact U|]. split; [exact PK|]. split; [split|].
  - exact Brows.
  - cbn [usage.provider_attempts usage.next_id]. intros a' Hin'.
    apply in_app_or in Hin' as [Hin'|[<-|[]]].
    + now apply Batts.
    + cbn. now apply Brows.
  - intros a' Hin'. cbn [usage.provider_attempts usage.requests] in *.
    apply in_app_or in Hin' as [Hin'|[<-|[]]].
    + now apply Ref.
    + exists row. split; [exact Hin|reflexivity].
Qed.

(** X3: The journal keeps the constraints of its schema: after any sequence
    of [Log] and [LogAttempt] calls on a consistent database, request ids
    and surrogate ids are unique and every attempt row points at a request
    row. *)
Theorem journal_consistent (run : list api.Event) (s : usage.Store) :
  usage.consistent s -> usage.consistent (api.journal s run).
Proof.
  revert s. induction run as [|e run IH]; intros s Hs; [exact Hs|].
  cbn [api.journal fold_left]. apply IH.
  destruct e; cbn [api.journal_step]; try exact Hs.
  - now apply Log_consistent.
  - now apply LogAttempt_consistent.
Qed.

Lemma consistent_empty : usage.consistent usage.empty.
Proof.
  repeat split; try constructor; intros ? [].
Qed.

Lemma journal_consistent_witness :
  usage.consistent
    (api.journal usage.empty
       (api.HandleChat scenario.primary_down scenario.lenient_world
          (scenario.request false))).
Proof.
  exact (journal_consistent _ usage.empty consistent_empty).
Defined.

(** X4: [LogAttempt] looks the request up by the id it is given: with no such
    request row nothing is inserted and the database is as before; with
    one, exactly one attempt row is added, bound to that row, whether or
    not the same attempt was journaled before, and the request rows are
    left alone. *)
Theorem LogAttempt_row_or_nothing (s : usage.Store) (rid : string)
  (a : usage.Attempt.t) :
  (usage.rows_of s rid = [] -> usage.LogAttempt s rid a = s) /\
  (forall row rest,
     usage.rows_of s rid = row :: rest ->
     usage.requests (usage.LogAttempt s rid a) = usage.requests s /\
     usage.provider_attempts (usage.LogAttempt s rid a)
     = usage.provider_attempts s ++ [api.attempt_row_of (usage.id row) a] /\
     usage.provider_attempts
       (usage.LogAttempt (usage.LogAttempt s rid a) rid a)
     = usage.provider_attempts s
       ++ [api.attempt_row_of (usage.id row) a;
           api.attempt_row_of (usage.id row) a]).
Proof.
  split; [apply LogAttempt_missing|].
  intros row rest Hrows.
  assert (forall s', usage.requests s' = usage.requests s ->
            usage.LogAttempt s' rid a
            = usage.mkStore (usage.requests s')
                (usage.provider_attempts s'
                 ++ [api.attempt_row_of (usage.id row) a])
                (usage.next_id s')) as Hstep.
  { intros s' Hreq. unfold usage.LogAttempt.
    rewrite find_filter, Hreq. unfold usage.rows_of in Hrows.
    now rewrite Hrows. }
  rewrite (Hstep s eq_refl). cbn [usage.requests usage.provider_attempts].
  split; [reflexivity|]. split; [reflexivity|].
  rewrite Hstep by reflexivity. cbn [usage.provider_attempts].
  now rewrite <- app_assoc.
Qed.

(** * Further properties of the estimators *)

Lemma length_append (s1 s2 : string) :
  String.length (s1 ++ s2)%string
  = (String.length s1 + String.length s2)%nat.
Proof. induction s1 as [|c s1 IH]; [reflexivity|]. cbn. now rewrite IH. Qed.

(** The token estimate is the byte length divided by four, rounded down:
    below four bytes it is zero, and it is never negative. *)
Lemma ApproximateTokens_bounds (text : string) :
  0 <= usage.ApproximateTokens text /\
  4 * usage.ApproximateTokens text <= Z.of_nat (String.length text) /\
  Z.of_nat (String.length text) < 4 * usage.ApproximateTokens text + 4.
Proof.
  unfold usage.ApproximateTokens.
  rewrite Z.quot_div_nonneg by lia.
  pose proof (Z.div_mod (Z.of_nat (String.length text)) 4 ltac:(lia)).
  pose proof (Z.mod_pos_bound (Z.of_nat (String.length text)) 4 ltac:(lia)).
  lia.
Qed.

(** X5: Estimating two texts apart loses at most one token against
    estimating their concatenation, and never gains one. *)
Theorem ApproximateTokens_append (t1 t2 : string) :
  usage.ApproximateTokens t1 + usage.ApproximateTokens t2
  <= usage.ApproximateTokens (t1 ++ t2)%string /\
  usage.ApproximateTokens (t1 ++ t2)%string
  <= usage.ApproximateTokens t1 + usage.ApproximateTokens t2 + 1.
Proof.
  destruct (ApproximateTokens_bounds t1) as [_ [L1 U1]].
  destruct (ApproximateTokens_bounds t2) as [_ [L2 U2]].
  destruct (ApproximateTokens_bounds (t1 ++ t2)%string) as [_ [L U]].
  rewrite length_append, Nat2Z.inj_add in L, U. lia.
Qed.

(** No tokens cost nothing, whatever the model. *)
Lemma EstimateCost_no_tokens (model : string) :
  usage.EstimateCost model 0 0 = 0%float.
Proof.
  unfold usage.EstimateCost, usage.rates.
  destruct (String.eqb model "gpt-4o-mini");
    [vm_compute; reflexivity|].
  destruct (String.eqb model "gpt-4.1-mini");
    [vm_compute; reflexivity|].
  destruct (String.eqb model "claude-3-5-sonnet");
    vm_compute; reflexivity.
Qed.

(** * Further properties of the streaming pump *)

Section PumpMore.

Variables (env : api.Env) (req : providers.ChatRequest).
Variables (rid : string) (route : config.Route) (t : config.Target).
Variables (tenant useCase : string) (a : Z).

Local Notation pump := (api.pump env req rid route t tenant useCase a).

Lemma append_assoc (s1 s2 s3 : string) :
  ((s1 ++ s2) ++ s3 = s1 ++ (s2 ++ s3))%string.
Proof. induction s1 as [|c s1 IH]; [reflexivity|]. cbn. now rewrite IH. Qed.

Lemma append_empty_r (s : string) : (s ++ "" = s)%string.
Proof. induction s as [|c s IH]; [reflexivity|]. cbn. now rewrite IH. Qed.

(** While the pump goes on, it forwards: one flushed SSE record per
    chunk, in the order received, and the content accumulates. *)
Lemma pump_goes_on (received rest : list providers.Received)
  (fullContent : string) :
  forallb api.goes_on received = true ->
  pump (received ++ rest) fullContent
  = api.forwarded (api.chunks_in received)
    ++ pump rest
         (fullContent ++ api.content_of (api.chunks_in received))%string.
Proof.
  revert fullContent.
  induction received as [|[c| |[e|]|] received IH]; intros fc Hgo;
    try discriminate.
  - cbn. now rewrite append_empty_r.
  - cbn [app api.pump api.chunks_in api.forwarded flat_map api.content_of].
    rewrite (IH _ Hgo). cbn [app]. do 3 f_equal.
    destruct (providers.CChoices c) as [|ch chs]; [reflexivity|].
    now rewrite append_assoc.
  - cbn [app api.pump api.chunks_in]. now apply IH.
Qed.

(** X6: A stream that closes cleanly: every chunk received has been written
    as one SSE record and flushed, in order; then the final record is
    journaled, with a completion estimate taken from the concatenated
    content of the chunks, and the trailer is written.  No attempt is
    journaled, and what would be received after the close is not read. *)
Theorem pump_clean_close (received rest : list providers.Received) :
  forallb api.goes_on received = true ->
  pump (received ++ providers.RecvChunkClosed :: rest) ""
  = api.forwarded (api.chunks_in received)
    ++ [ api.EvLog
           (api.stream_record env req rid route t tenant useCase
              (api.content_of (api.chunks_in received)));
         api.EvWrite api.SSEDone;
         api.EvFlush ] /\
  usage.Record_.CompletionTokens
    (api.stream_record env req rid route t tenant useCase
       (api.content_of (api.chunks_in received)))
  = usage.ApproximateTokens (api.content_of (api.chunks_in received)) /\
  usage.Record_.TotalTokens
    (api.stream_record env req rid route t tenant useCase
       (api.content_of (api.chunks_in received)))
  = usage.Record_.PromptTokens
      (api.stream_record env req rid route t tenant useCase
         (api.content_of (api.chunks_in received)))
    + usage.ApproximateTokens (api.content_of (api.chunks_in received)).
Proof.
  intros Hgo. rewrite (pump_goes_on _ _ _ Hgo). cbn [api.pump String.append].
  repeat split; reflexivity.
Qed.

(** X7: A stream that ends by an error or by the client's cancellation:
    the chunks received before are forwarded, but the trailer is never
    written and no final record is journaled; an error adds one attempt
    row with status 502 and one error frame, a cancellation adds
    nothing. *)
Theorem pump_broken (received rest : list providers.Received) (e : error) :
  forallb api.goes_on received = true ->
  pump (received ++ providers.RecvErr (Some e) :: rest) ""
  = api.forwarded (api.chunks_in received)
    ++ [ api.EvLogAttempt rid (api.stream_failure rid t a e);
         api.EvWrite (api.SSEError (Error e));
         api.EvFlush ] /\
  pump (received ++ providers.RecvDone :: rest) ""
  = api.forwarded (api.chunks_in received) /\
  api.logged_records
    (pump (received ++ providers.RecvErr (Some e) :: rest) "") = [] /\
  api.logged_records
    (pump (received ++ providers.RecvDone :: rest) "") = [] /\
  ~ In api.SSEDone
       (api.written
          (pump (received ++ providers.RecvErr (Some e) :: rest) "")) /\
  ~ In api.SSEDone
       (api.written (pump (received ++ providers.RecvDone :: rest) "")).
Proof.
  intros Hgo. rewrite !(pump_goes_on _ _ _ Hgo). cbn [api.pump].
  rewrite app_nil_r.
  assert (api.logged_records (api.forwarded (api.chunks_in received)) = [])
    as Hrec.
  { induction (api.chunks_in received) as [|c cs IH]; [reflexivity|].
    exact IH. }
  assert (~ In api.SSEDone
              (api.written (api.forwarded (api.chunks_in received))))
    as Hdone.
  { induction (api.chunks_in received) as [|c cs IH]; [intros []|].
    cbn. intros [H|H]; [discriminate|now apply IH]. }
  rewrite logged_records_app, written_app, Hrec.
  repeat split; try reflexivity; try exact Hdone.
  intros Hin. apply in_app_or in Hin as [Hin|[Hin|[]]];
    [now apply Hdone|discriminate].
Qed.

End PumpMore.

Lemma pump_clean_close_witness :
  api.pump scenario.world (api.provReq (scenario.body true) scenario.openai)
    "req-1" (scenario.route scenario.openai [] 0) scenario.openai
    "acme" "support_summary" 1
    ([providers.RecvChunk (scenario.chunk "Hello ");
      providers.RecvErr None;
      providers.RecvChunk (scenario.chunk "world ")]
     ++ [providers.RecvChunkClosed]) ""
  = api.forwarded [scenario.chunk "Hello "; scenario.chunk "world "]
    ++ [ api.EvLog
           (api.stream_record scenario.world
              (api.provReq (scenario.body true) scenario.openai)
              "req-1" (scenario.route scenario.openai [] 0) scenario.openai
              "acme" "support_summary" "Hello world ");
         api.EvWrite api.SSEDone;
         api.EvFlush ].
Proof.
  exact (proj1 (pump_clean_close scenario.world
                  (api.provReq (scenario.body true) scenario.openai)
                  "req-1" (scenario.route scenario.openai [] 0)
                  scenario.openai "acme" "support_summary" 1
                  [providers.RecvChunk (scenario.chunk "Hello ");
                   providers.RecvErr None;
                   providers.RecvChunk (scenario.chunk "world ")]
                  [] eq_refl)).
Defined.

Lemma pump_broken_witness :
  api.pump scenario.world (api.provReq (scenario.body true) scenario.openai)
    "req-1" (scenario.route scenario.openai [] 0) scenario.openai
    "acme" "support_summary" 1
    ([providers.RecvChunk (scenario.chunk "Hello ")]
     ++ [providers.RecvDone]) ""
  = api.forwarded [scenario.chunk "Hello "].
Proof.
  exact (proj1 (proj2 (pump_broken scenario.world
                  (api.provReq (scenario.body true) scenario.openai)
                  "req-1" (scenario.route scenario.openai [] 0)
                  scenario.openai "acme" "support_summary" 1
                  [providers.RecvChunk (scenario.chunk "Hello ")]
                  [] scenario.refused eq_refl))).
Defined.

(** * Further properties of the handler *)

Lemma pump_status (env : api.Env) (q : providers.ChatRequest)
  (rid : string) (route : config.Route) (t : config.Target)
  (tenant useCase : string) (a : Z) (rc : list providers.Received)
  (fc : string) (code : Z) :
  api.response_status (api.pump env q rid route t tenant useCase a rc fc)
  = Some code -> code = api.StatusOK.
Proof.
  revert fc. induction rc as [|[c| |[e|]|] rc IH]; intros fc; cbn;
    try discriminate; try (now intros [= <-]).
  apply IH.
Qed.

(** A loop that the handler leaves by returning has set no status other
    than 200. *)
Lemma loop_status (h : api.Handler) (env : api.Env) (req : api.ChatRequest)
  (rid : string) (route : config.Route) (tenant useCase : string)
  (targets : list config.Target) (a : Z) (l : option error) (code : Z) :
  api.response_status
    (fst (api.attempts h env req rid route tenant useCase targets a l))
  = Some code ->
  code = api.StatusOK /\
  snd (api.attempts h env req rid route tenant useCase targets a l)
  = api.Returned.
Proof.
  revert code.
  apply (attempts_rules h env req rid route tenant useCase
           (fun _ _ evs flow =>
              (forall a' l', flow = api.Next a' l' ->
                 api.response_status evs = None) /\
              forall code, api.response_status evs = Some code ->
                code = api.StatusOK /\ flow = api.Returned)).
  - intros. split; [reflexivity|discriminate].
  - intros. split; [reflexivity|discriminate].
  - intros t a0 l0 p _ _. split; [discriminate|].
    intros code. cbn. intros H. split; [|reflexivity].
    now apply pump_status in H.
  - intros. split; [discriminate|]. cbn. now intros code [= <-].
  - intros. split; [discriminate|]. cbn. discriminate.
  - intros t a0 l0 resp e evs flow _ _ [Hn Hc]. split.
    + intros a' l' E. cbn. now apply (Hn a' l').
    + intros code. cbn. apply Hc.
  - intros. split; [reflexivity|discriminate].
  - intros a0 l0 evs a' l' evs' flow' [Hn _] [Hn' Hc'].
    rewrite response_status_app, (Hn _ _ eq_refl). split; assumption.
Qed.

(** X8: The handler answers with one of four status codes, and each tells
    which path the request took: 400 a body that does not decode, 429 a
    request the limiter did not admit, 502 an admitted request whose loops
    fell through with an error, 200 an admitted request that the handler
    left from inside a loop. *)
Theorem HandleChat_status (h : api.Handler) (env : api.Env)
  (r : api.Request) (code : Z) :
  api.response_status (api.HandleChat h env r) = Some code ->
  (code = 400 /\ api.Body r = None) \/
  (code = 429 /\
   exists req, api.Body r = Some req /\
     fst (api.limiter_Allow h (api.tenant_of req) (api.promptTokens_of req))
     = false) \/
  (exists req, api.Body r = Some req /\
     fst (api.limiter_Allow h (api.tenant_of req) (api.promptTokens_of req))
     = true /\
     ((code = 502 /\
       exists a e, snd (api.loop h env r req) = api.Next a (Some e)) \/
      (code = 200 /\ snd (api.loop h env r req) = api.Returned))).
Proof.
  destruct (api.Body r) as [req|] eqn:Hbody.
  - destruct (fst (api.limiter_Allow h (api.tenant_of req)
                     (api.promptTokens_of req))) eqn:Hadm.
    + destruct (written_run h env r req Hbody Hadm) as [_ ->].
      rewrite response_status_app. intros Hcode.
      right. right. exists req. split; [reflexivity|]. split; [exact Hadm|].
      destruct (api.response_status (fst (api.loop h env r req)))
        as [c|] eqn:Hloop.
      * injection Hcode as <-.
        destruct (loop_status _ _ _ _ _ _ _ _ _ _ _ Hloop) as [-> Hret].
        right. split; [reflexivity|exact Hret].
      * destruct (snd (api.loop h env r req)) as [|a' [e|]];
          cbn in Hcode; try discriminate.
        injection Hcode as <-. left. split; [reflexivity|]. now exists a', e.
    + rewrite (HandleChat_denied h env r req Hbody Hadm).
      destruct (admission_quiet (api.requestID_of env r) (api.tenant_of req)
                  (api.promptTokens_of req)
                  (snd (api.limiter_Allow h (api.tenant_of req)
                          (api.promptTokens_of req))))
        as [_ [_ [_ [_ [_ [_ [Hs _]]]]]]].
      rewrite response_status_app, Hs. cbn. intros [= <-].
      right. left. split; [reflexivity|]. now exists req.
  - rewrite (HandleChat_invalid h env r Hbody). cbn. intros [= <-].
    left. split; reflexivity.
Qed.

Lemma HandleChat_status_witness :
  exists req,
    api.Body (scenario.request false) = Some req /\
    snd (api.loop (scenario.single scenario.unreachable 2) scenario.world
           (scenario.request false) req)
    <> api.Returned.
Proof.
  destruct (HandleChat_status (scenario.single scenario.unreachable 2)
              scenario.world (scenario.request false) 502 eq_refl)
    as [[H _]|[[H _]|[req [Hb [_ [[_ [a [e Hn]]]|[H _]]]]]]];
    try discriminate.
  exists req. split; [exact Hb|]. rewrite Hn. discriminate.
Defined.

(** X9: When every target is exhausted the only record of the request is the
    skeleton: the answer is HTTP 502, but the request row keeps status 0
    and an empty error message, names no provider or model, and counts no
    tokens and no cost. *)
Theorem exhausted_leaves_skeleton (h : api.Handler) (env : api.Env)
  (r : api.Request) (req : api.ChatRequest) (s : usage.Store)
  (a : Z) (e : error) :
  api.Body r = Some req ->
  fst (api.limiter_Allow h (api.tenant_of req) (api.promptTokens_of req))
  = true ->
  snd (api.loop h env r req) = api.Next a (Some e) ->
  usage.ids_below s ->
  usage.rows_of s (api.requestID_of env r) = [] ->
  api.response_status (api.HandleChat h env r) = Some 502 /\
  api.logged_records (api.HandleChat h env r)
  = [api.skeleton (api.requestID_of env r) (api.tenant_of req)
       (api.useCase_of req) (api.router_Route h (api.useCase_of req))] /\
  exists row,
    usage.rows_of (api.journal s (api.HandleChat h env r))
      (api.requestID_of env r) = [row] /\
    usage.status_code row = 0 /\ usage.error_message row = "" /\
    usage.provider row = "" /\ usage.model row = "" /\
    usage.total_tokens row = 0 /\ usage.cost_estimate_usd row = 0%float.
Proof.
  intros Hbody Hadm Hnext Hbelow Hnew.
  destruct (admitted_journal h env r req s Hbody Hadm Hbelow Hnew)
    as [_ [Hrec [Hrows _]]].
  destruct (written_run h env r req Hbody Hadm) as [_ Hstatus].
  unfold api.loop in Hnext.
  destruct (loop_next_quiet _ _ _ _ _ _ _ _ _ _ _ _ Hnext) as [_ [Hr _]].
  pose proof (loop_next_status _ _ _ _ _ _ _ _ _ _ _ _ Hnext) as Hst.
  fold (api.loop h env r req) in Hr, Hst, Hnext.
  rewrite Hstatus, response_status_app, Hst, Hnext, Hrec, Hrows, Hr.
  split; [reflexivity|]. split; [reflexivity|].
  eexists. split; [reflexivity|]. repeat split; reflexivity.
Qed.

Lemma exhausted_leaves_skeleton_witness :
  api.logged_records
    (api.HandleChat (scenario.single scenario.unreachable 2) scenario.world
       (scenario.request false))
  = [api.skeleton "req-1" "acme" "support_summary"
       (scenario.route scenario.openai [] 2)].
Proof.
  exact (proj1 (proj2 (exhausted_leaves_skeleton
                  (scenario.single scenario.unreachable 2) scenario.world
                  (scenario.request false) (scenario.body false)
                  usage.empty 4 scenario.refused eq_refl eq_refl eq_refl
                  ids_below_empty eq_refl))).
Defined.

(** X10: With a retry budget below zero no target is tried: the run is the
    admission, the skeleton record and a panic, with no response written,
    buffered or streaming. *)
Theorem negative_retries_panic (h : api.Handler) (env : api.Env)
  (r : api.Request) (req : api.ChatRequest) :
  api.Body r = Some req ->
  fst (api.limiter_Allow h (api.tenant_of req) (api.promptTokens_of req))
  = true ->
  config.Retries (api.router_Route h (api.useCase_of req)) < 0 ->
  api.HandleChat h env r
  = api.admission (api.requestID_of env r) (api.tenant_of req)
      (api.promptTokens_of req)
      (snd (api.limiter_Allow h (api.tenant_of req)
              (api.promptTokens_of req)))
    ++ [ api.EvLog (api.skeleton (api.requestID_of env r)
                      (api.tenant_of req) (api.useCase_of req)
                      (api.router_Route h (api.useCase_of req)));
         api.EvPanic ] /\
  api.response_status (api.HandleChat h env r) = None.
Proof.
  intros Hbody Hadm Hneg.
  assert (forall targets a l,
            api.attempts h env req (api.requestID_of env r)
              (api.router_Route h (api.useCase_of req))
              (api.tenant_of req) (api.useCase_of req) targets a l
            = ([], api.Next a l)) as Hnone.
  { induction targets as [|t rest IH]; intros a l; [reflexivity|].
    rewrite attempts_cons.
    replace (Z.to_nat (config.Retries
                         (api.router_Route h (api.useCase_of req)) + 1))
      with O by lia.
    cbn [api.attempt fst snd]. now rewrite IH. }
  rewrite (HandleChat_admitted h env r req Hbody Hadm).
  unfold api.loop. rewrite Hnone. cbn [fst snd api.after_loop app].
  split; [reflexivity|].
  destruct (admission_quiet (api.requestID_of env r) (api.tenant_of req)
              (api.promptTokens_of req)
              (snd (api.limiter_Allow h (api.tenant_of req)
                      (api.promptTokens_of req))))
    as [_ [_ [_ [_ [_ [_ [Hs _]]]]]]].
  now rewrite response_status_app, Hs.
Qed.

Lemma negative_retries_panic_witness :
  api.response_status
    (api.HandleChat (scenario.single scenario.answering (-1))
       scenario.world (scenario.request true)) = None.
Proof.
  exact (proj2 (negative_retries_panic
                  (scenario.single scenario.answering (-1)) scenario.world
                  (scenario.request true) (scenario.body true)
                  eq_refl eq_refl eq_refl)).
Defined.

(** ** The response headers *)

Lemma header_values_app (key : string) (l1 l2 : list api.Event) :
  api.header_values key (l1 ++ l2)
  = api.header_values key l1 ++ api.header_values key l2.
Proof.
  induction l1 as [|x l1 IH]; [reflexivity|].
  destruct x; cbn; auto.
  destruct (String.eqb key0 key); cbn; now rewrite IH.
Qed.

Lemma existsb_is_write_app (l1 l2 : list api.Event) :
  existsb api.is_write (l1 ++ l2)
  = existsb api.is_write l1 || existsb api.is_write l2.
Proof. apply existsb_app. Qed.

Lemma pump_header_values (env : api.Env) (q : providers.ChatRequest)
  (rid : string) (route : config.Route) (t : config.Target)
  (tenant useCase : string) (a : Z) (rc : list providers.Received)
  (fc key : string) :
  api.header_values key (api.pump env q rid route t tenant useCase a rc fc)
  = [].
Proof.
  revert fc. induction rc as [|[c| |[e|]|] rc IH]; intros fc; cbn; auto.
Qed.

Lemma pump_no_error_body (env : api.Env) (q : providers.ChatRequest)
  (rid : string) (route : config.Route) (t : config.Target)
  (tenant useCase : string) (a : Z) (rc : list providers.Received)
  (fc : string) :
  Forall (fun e => forall msg id,
            e = api.EvWrite (api.JSONError msg id) -> id = rid)
    (api.pump env q rid route t tenant useCase a rc fc).
Proof.
  revert fc. induction rc as [|[c| |[e|]|] rc IH]; intros fc; cbn; auto;
    repeat constructor; try discriminate; auto.
Qed.

(** Writes that come after the one place where the id header is set. *)
Lemma echoes_after (rid : string) (l1 l2 : list api.Event) :
  existsb api.is_write l1 = false ->
  api.header_values "x-request-id" l1 = [rid] ->
  api.header_values "x-request-id" l2 = [] ->
  Forall (fun e => forall msg id,
            e = api.EvWrite (api.JSONError msg id) -> id = rid) l2 ->
  api.before_each api.is_write (api.echoes rid) (l1 ++ l2).
Proof.
  intros Hw H1 H2 Hbody.
  apply before_each_app; [now apply before_each_none|].
  intros pre e post E _. split.
  - rewrite header_values_app, H1. rewrite E, header_values_app in H2.
    apply app_eq_nil in H2 as [-> _]. reflexivity.
  - rewrite Forall_forall in Hbody. apply Hbody. rewrite E.
    apply in_or_app. right. now left.
Qed.

(** Events that set no id header and write nothing may come first. *)
Lemma echoes_later (rid : string) (l1 l2 : list api.Event) :
  existsb api.is_write l1 = false ->
  api.header_values "x-request-id" l1 = [] ->
  api.before_each api.is_write (api.echoes rid) l2 ->
  api.before_each api.is_write (api.echoes rid) (l1 ++ l2).
Proof.
  intros Hw H1 H2.
  apply before_each_app; [now apply before_each_none|].
  eapply before_each_impl; [|exact H2].
  intros pre e _ [Hh Hb]. split; [|exact Hb].
  now rewrite header_values_app, H1.
Qed.

Lemma loop_echoes (h : api.Handler) (env : api.Env) (req : api.ChatRequest)
  (rid : string) (route : config.Route) (tenant useCase : string)
  (targets : list config.Target) (a : Z) (l : option error) :
  (forall a' l',
     snd (api.attempts h env req rid route tenant useCase targets a l)
     = api.Next a' l' ->
     api.header_values "x-request-id"
       (fst (api.attempts h env req rid route tenant useCase targets a l))
     = [] /\
     existsb api.is_write
       (fst (api.attempts h env req rid route tenant useCase targets a l))
     = false) /\
  api.before_each api.is_write (api.echoes rid)
    (fst (api.attempts h env req rid route tenant useCase targets a l)).
Proof.
  apply (attempts_rules h env req rid route tenant useCase
           (fun _ _ evs flow =>
              (forall a' l', flow = api.Next a' l' ->
                 api.header_values "x-request-id" evs = [] /\
                 existsb api.is_write evs = false) /\
              api.before_each api.is_write (api.echoes rid) evs)).
  - intros. split; [now split|apply before_each_nil].
  - intros. split; [now split|now apply before_each_none].
  - intros t a0 l0 p _ _. split; [discriminate|].
    unfold api.handleStream.
    match goal with
    | |- api.before_each _ _ (?s :: ?hs ++ ?p) =>
        change (s :: hs ++ p) with ((s :: hs) ++ p)
    end.
    apply echoes_after; try reflexivity.
    + apply pump_header_values.
    + apply pump_no_error_body.
  - intros t a0 l0 p r _ _. split; [discriminate|].
    change (api.call env req rid t a0 (Some r) None
            ++ api.respond env rid route tenant useCase t r)
      with ((api.call env req rid t a0 (Some r) None
             ++ removelast (api.respond env rid route tenant useCase t r))
            ++ [api.EvWrite (api.JSONResponse r)]).
    apply echoes_after; try reflexivity.
    repeat constructor. discriminate.
  - intros. split; [discriminate|now apply before_each_none].
  - intros t a0 l0 resp e evs flow _ _ [Hn Hb]. split.
    + intros a' l' E. destruct (Hn a' l' E) as [H1 H2].
      split; cbn; assumption.
    + now apply echoes_later.
  - intros. split; [now split|now apply before_each_none].
  - intros a0 l0 evs a' l' evs' flow' [Hn Hb] [Hn' Hb'].
    destruct (Hn a' l' eq_refl) as [H1 H2]. split.
    + intros a2 l2 E. destruct (Hn' a2 l2 E) as [H1' H2'].
      rewrite header_values_app, existsb_is_write_app, H1, H2, H1', H2'.
      now split.
    + now apply echoes_later.
Qed.

(** X11: Whatever the handler writes, on any path, it writes after it has set
    the [x-request-id] header, once, to the id of the request; and every
    error body names that id. *)
Theorem HandleChat_echoes_request_id (h : api.Handler) (env : api.Env)
  (r : api.Request) :
  api.before_each api.is_write (api.echoes (api.requestID_of env r))
    (api.HandleChat h env r).
Proof.
  assert (forall code msg,
            api.before_each api.is_write
              (api.echoes (api.requestID_of env r))
              (api.respondError code msg (api.requestID_of env r)))
    as Herr.
  { intros code msg.
    change (api.respondError code msg (api.requestID_of env r))
      with (removelast (api.respondError code msg (api.requestID_of env r))
            ++ [api.EvWrite
                  (api.JSONError msg (api.requestID_of env r))]).
    apply echoes_after; try reflexivity.
    repeat constructor. now intros msg' id [= _ <-]. }
  assert (forall caller tokens err,
            existsb api.is_write
              (api.admission (api.requestID_of env r) caller tokens err)
            = false /\
            api.header_values "x-request-id"
              (api.admission (api.requestID_of env r) caller tokens err)
            = []) as Hadmission.
  { intros caller tokens [e|]; now split. }
  destruct (api.Body r) as [req|] eqn:Hbody.
  - destruct (Hadmission (api.tenant_of req) (api.promptTokens_of req)
                (snd (api.limiter_Allow h (api.tenant_of req)
                        (api.promptTokens_of req)))) as [Hw Hh].
    destruct (fst (api.limiter_Allow h (api.tenant_of req)
                     (api.promptTokens_of req))) eqn:Hadm.
    + rewrite (HandleChat_admitted h env r req Hbody Hadm).
      apply echoes_later; [exact Hw|exact Hh|].
      apply (echoes_later _ [api.EvLog _]); [reflexivity|reflexivity|].
      destruct (loop_echoes h env req (api.requestID_of env r)
                  (api.router_Route h (api.useCase_of req))
                  (api.tenant_of req) (api.useCase_of req)
                  (config.Primary (api.router_Route h (api.useCase_of req))
                   :: config.Fallbacks
                        (api.router_Route h (api.useCase_of req)))
                  1 None) as [Hn Hb].
      fold (api.loop h env r req) in Hn, Hb.
      destruct (snd (api.loop h env r req)) as [|a' [e|]] eqn:Hflow.
      * cbn [api.after_loop]. now rewrite app_nil_r.
      * destruct (Hn a' (Some e) eq_refl) as [H1 H2].
        apply echoes_later; [exact H2|exact H1|apply Herr].
      * destruct (Hn a' None eq_refl) as [H1 H2].
        apply before_each_none. rewrite existsb_is_write_app, H2.
        reflexivity.
    + rewrite (HandleChat_denied h env r req Hbody Hadm).
      apply echoes_later; [exact Hw|exact Hh|].
      apply (echoes_later _ [api.EvLog _]); [reflexivity|reflexivity|].
      apply Herr.
  - rewrite (HandleChat_invalid h env r Hbody). apply Herr.
Qed.

(** ** The gateway headers and the journal *)

Lemma announced_later (l1 pre : list api.Event) :
  (forall key, api.header_values key l1 = []) ->
  api.announced pre -> api.announced (l1 ++ pre).
Proof.
  intros Hq [recs [rec [Hr [Hs [H1 [H2 H3]]]]]].
  exists (api.logged_records l1 ++ recs), rec.
  rewrite logged_records_app, Hr, !header_values_app, !Hq, app_assoc.
  repeat split; assumption.
Qed.

Lemma before_completion_later (l1 l2 : list api.Event) :
  existsb api.is_completion l1 = false ->
  (forall key, api.header_values key l1 = []) ->
  api.before_each api.is_completion (fun pre _ => api.announced pre) l2 ->
  api.before_each api.is_completion (fun pre _ => api.announced pre)
    (l1 ++ l2).
Proof.
  intros Hc Hq H2.
  apply before_each_app; [now apply before_each_none|].
  eapply before_each_impl; [|exact H2].
  intros pre e _ Ha. now apply announced_later.
Qed.

(** Before its trailer the pump has journaled one record, that of its own
    target, and has set no header. *)
Lemma pump_before_trailer (env : api.Env) (q : providers.ChatRequest)
  (rid : string) (route : config.Route) (t : config.Target)
  (tenant useCase : string) (a : Z) (rc : list providers.Received)
  (fc : string) :
  api.before_each api.is_completion
    (fun pre _ =>
       (forall key, api.header_values key pre = []) /\
       exists fc',
         api.logged_records pre
         = [api.stream_record env q rid route t tenant useCase fc'])
    (api.pump env q rid route t tenant useCase a rc fc).
Proof.
  revert fc. induction rc as [|[c| |[e|]|] rc IH]; intros fc; cbn.
  - apply before_each_nil.
  - apply before_each_cons; [discriminate|].
    apply before_each_cons; [discriminate|].
    eapply before_each_impl; [|apply IH].
    intros pre e _ H. exact H.
  - apply before_each_cons; [discriminate|].
    apply before_each_cons.
    + intros _. split; [reflexivity|]. now exists fc.
    + now apply before_each_none.
  - now apply before_each_none.
  - apply IH.
  - apply before_each_nil.
Qed.

Lemma loop_announced (h : api.Handler) (env : api.Env)
  (req : api.ChatRequest) (rid : string) (route : config.Route)
  (tenant useCase : string) (targets : list config.Target) (a : Z)
  (l : option error) :
  (forall a' l',
     snd (api.attempts h env req rid route tenant useCase targets a l)
     = api.Next a' l' ->
     (forall key,
        api.header_values key
          (fst (api.attempts h env req rid route tenant useCase targets a l))
        = []) /\
     existsb api.is_completion
       (fst (api.attempts h env req rid route tenant useCase targets a l))
     = false) /\
  api.before_each api.is_completion (fun pre _ => api.announced pre)
    (fst (api.attempts h env req rid route tenant useCase targets a l)).
Proof.
  apply (attempts_rules h env req rid route tenant useCase
           (fun _ _ evs flow =>
              (forall a' l', flow = api.Next a' l' ->
                 (forall key, api.header_values key evs = []) /\
                 existsb api.is_completion evs = false) /\
              api.before_each api.is_completion
                (fun pre _ => api.announced pre) evs)).
  - intros. split; [now split|apply before_each_nil].
  - intros. split; [now split|now apply before_each_none].
  - intros t a0 l0 p _ _. split; [discriminate|].
    unfold api.handleStream.
    match goal with
    | |- api.before_each _ _ (?s :: ?hs ++ ?p) =>
        change (s :: hs ++ p) with ((s :: hs) ++ p)
    end.
    apply before_each_app; [now apply before_each_none|].
    eapply before_each_impl; [|apply pump_before_trailer].
    intros pre e _ [Hq [fc' Hr]]. cbv beta.
    exists [], (api.stream_record env (api.provReq req t) rid route t
                  tenant useCase fc').
    rewrite !header_values_app, !Hq.
    cbn [app api.logged_records]. rewrite Hr.
    repeat split; reflexivity.
  - intros t a0 l0 p r _ _. split; [discriminate|].
    change (api.call env req rid t a0 (Some r) None
            ++ api.respond env rid route tenant useCase t r)
      with ((api.call env req rid t a0 (Some r) None
             ++ removelast (api.respond env rid route tenant useCase t r))
            ++ [api.EvWrite (api.JSONResponse r)]).
    apply before_each_app; [now apply before_each_none|].
    apply before_each_cons; [|apply before_each_nil].
    intros _. rewrite app_nil_r.
    exists [], (api.success_record env rid route tenant useCase t r).
    repeat split; reflexivity.
  - intros. split; [discriminate|now apply before_each_none].
  - intros t a0 l0 resp e evs flow _ _ [Hn Hb]. split.
    + intros a' l' E. destruct (Hn a' l' E) as [H1 H2].
      split; [intros key; cbn; apply H1|cbn; exact H2].
    + now apply before_completion_later.
  - intros. split; [now split|now apply before_each_none].
  - intros a0 l0 evs a' l' evs' flow' [Hn Hb] [Hn' Hb'].
    destruct (Hn a' l' eq_refl) as [H1 H2]. split.
    + intros a2 l2 E. destruct (Hn' a2 l2 E) as [H1' H2']. split.
      * intros key. now rewrite header_values_app, H1, H1'.
      * now rewrite existsb_app, H2, H2'.
    + now apply before_completion_later.
Qed.

(** X12: When the handler completes a response, by the JSON body or by the
    trailer of a stream, the [x-gw-route], [x-gw-provider] and
    [x-gw-model] headers have each been set once, and they name the
    route, provider and model of the last record handed to the journal,
    whose status is 200. *)
Theorem HandleChat_headers_match_journal (h : api.Handler) (env : api.Env)
  (r : api.Request) :
  api.before_each api.is_completion (fun pre _ => api.announced pre)
    (api.HandleChat h env r).
Proof.
  destruct (api.Body r) as [req|] eqn:Hbody.
  - destruct (admission_quiet (api.requestID_of env r) (api.tenant_of req)
                (api.promptTokens_of req)
                (snd (api.limiter_Allow h (api.tenant_of req)
                        (api.promptTokens_of req))))
      as [_ [_ [_ [_ [_ [_ [_ [_ Hc]]]]]]]].
    destruct (fst (api.limiter_Allow h (api.tenant_of req)
                     (api.promptTokens_of req))) eqn:Hadm.
    + rewrite (HandleChat_admitted h env r req Hbody Hadm).
      apply before_completion_later; [exact Hc| |].
      { intros key.
        now destruct (snd (api.limiter_Allow h (api.tenant_of req)
                             (api.promptTokens_of req))). }
      apply (before_completion_later [api.EvLog _]);
        [reflexivity|reflexivity|].
      destruct (loop_announced h env req (api.requestID_of env r)
                  (api.router_Route h (api.useCase_of req))
                  (api.tenant_of req) (api.useCase_of req)
                  (config.Primary (api.router_Route h (api.useCase_of req))
                   :: config.Fallbacks
                        (api.router_Route h (api.useCase_of req)))
                  1 None) as [Hn Hb].
      fold (api.loop h env r req) in Hn, Hb.
      destruct (after_loop_quiet (api.requestID_of env r)
                  (snd (api.loop h env r req)))
        as [_ [_ [_ [_ [_ [_ Hafter]]]]]].
      apply before_each_app; [exact Hb|].
      now apply before_each_none.
    + rewrite (HandleChat_denied h env r req Hbody Hadm).
      apply before_each_none. rewrite existsb_app, Hc. reflexivity.
  - rewrite (HandleChat_invalid h env r Hbody). now apply before_each_none.
Qed.

(** ** Where the journal's rows come from *)

Section Provenance.

Variables (h : api.Handler) (env : api.Env) (req : api.ChatRequest).
Variables (rid : string) (route : config.Route) (tenant useCase : string).

Local Notation attempt := (api.attempt h env req rid route tenant useCase).
Local Notation attempts := (api.attempts h env req rid route tenant useCase).

Lemma names_target_here (t : config.Target) (rest : list config.Target) :
  api.names_target (t :: rest) (config.Provider t) (config.Model t).
Proof. exists t. split; [now left|now split]. Qed.

Lemma attempt_of_more (t : config.Target) (targets : list config.Target)
  (x : usage.Attempt.t) :
  api.attempt_of rid targets x -> api.attempt_of rid (t :: targets) x.
Proof.
  intros [H1 [[t' [Hin Ht']] H3]]. split; [exact H1|]. split; [|exact H3].
  exists t'. split; [now right|exact Ht'].
Qed.

Lemma record_of_more (t : config.Target) (targets : list config.Target)
  (rec : usage.Record_.t) :
  api.record_of rid tenant useCase targets rec ->
  api.record_of rid tenant useCase (t :: targets) rec.
Proof.
  intros [H1 [H2 [H3 [H4|[t' [Hin Ht']]]]]]; repeat split; auto.
  right. exists t'. split; [now right|exact Ht'].
Qed.

Lemma attempt_provenance (t : config.Target) (n : nat) (a : Z)
  (l : option error) :
  Forall (api.attempt_of rid [t])
    (api.logged_attempts (fst (attempt t n a l))) /\
  Forall (api.record_of rid tenant useCase [t])
    (api.logged_records (fst (attempt t n a l))).
Proof.
  assert (forall resp err,
            api.attempt_of rid [t] (api.attempt_row env rid t a resp err))
    as Hrow.
  { intros resp err. split; [reflexivity|].
    split; [apply names_target_here|].
    destruct resp; [now left|now right]. }
  revert a l Hrow. induction n as [|n IH]; intros a l Hrow; [now split|].
  generalize (attempt_cases h env req rid route tenant useCase t n a l).
  generalize (fst (attempt t (S n) a l)) (snd (attempt t (S n) a l)).
  intros evs flow C. destruct C.
  - now split.
  - cbn [api.logged_attempts api.logged_records].
    rewrite handleStream_logged_attempts, handleStream_logged_records.
    split.
    + destruct (pump_attempts env (api.provReq req t) rid route t tenant
                  useCase a (providers.ChatStream p (api.provReq req t) a)
                  "") as [->|[e ->]]; constructor; [|constructor].
      split; [reflexivity|]. split; [apply names_target_here|now right].
    + destruct (pump_records env (api.provReq req t) rid route t tenant
                  useCase a (providers.ChatStream p (api.provReq req t) a)
                  "") as [->|[fc ->]]; constructor; [|constructor].
      split; [reflexivity|]. split; [reflexivity|].
      split; [reflexivity|]. right. apply names_target_here.
  - split; cbn; (constructor; [|constructor]); [apply Hrow|].
    split; [reflexivity|]. split; [reflexivity|].
    split; [reflexivity|]. right. apply names_target_here.
  - split; cbn; [|constructor]. constructor; [apply Hrow|constructor].
  - destruct (IH (a + 1) (Some e)) as [Ha Hr].
    { intros resp' err'. split; [reflexivity|].
      split; [apply names_target_here|].
      destruct resp'; [now left|now right]. }
    split; cbn; [|exact Hr]. constructor; [apply Hrow|exact Ha].
  - split; cbn; [|constructor]. constructor; [apply Hrow|constructor].
Qed.

Lemma attempts_provenance (targets : list config.Target) (a : Z)
  (l : option error) :
  Forall (api.attempt_of rid targets)
    (api.logged_attempts (fst (attempts targets a l))) /\
  Forall (api.record_of rid tenant useCase targets)
    (api.logged_records (fst (attempts targets a l))).
Proof.
  revert a l. induction targets as [|t rest IH]; intros a l; [now split|].
  rewrite attempts_cons.
  destruct (attempt_provenance t (Z.to_nat (config.Retries route + 1)) a l)
    as [Ha Hr].
  assert (Forall (api.attempt_of rid (t :: rest))
            (api.logged_attempts
               (fst (attempt t (Z.to_nat (config.Retries route + 1)) a l))))
    as Ha'.
  { eapply Forall_impl; [|exact Ha].
    intros x [H1 [[t' [[<-|[]] Ht']] H3]]. split; [exact H1|].
    split; [|exact H3]. exists t. split; [now left|exact Ht']. }
  assert (Forall (api.record_of rid tenant useCase (t :: rest))
            (api.logged_records
               (fst (attempt t (Z.to_nat (config.Retries route + 1)) a l))))
    as Hr'.
  { eapply Forall_impl; [|exact Hr].
    intros x [H1 [H2 [H3 [H4|[t' [[<-|[]] Ht']]]]]]; repeat split; auto.
    right. exists t. split; [now left|exact Ht']. }
  destruct (snd (attempt t (Z.to_nat (config.Retries route + 1)) a l))
    as [|a' l']; cbn [fst snd]; [now split|].
  destruct (IH a' l') as [Ha2 Hr2].
  rewrite logged_attempts_app, logged_records_app. split.
  - apply Forall_app. split; [exact Ha'|].
    eapply Forall_impl; [|exact Ha2]. apply attempt_of_more.
  - apply Forall_app. split; [exact Hr'|].
    eapply Forall_impl; [|exact Hr2]. apply record_of_more.
Qed.

End Provenance.

Lemma tenant_of_not_empty (req : api.ChatRequest) : api.tenant_of req <> "".
Proof.
  unfold api.tenant_of.
  destruct (String.eqb_spec (api.string_at (api.Metadata req) "tenant") "");
    [discriminate|assumption].
Qed.

(** X13: Every row that a request hands to the journal is the request's own:
    a record carries its id, its tenant, which is never empty, and its use
    case, and names no provider or a target of its route; an attempt
    carries its id, a target of its route, and status 200 or 502. *)
Theorem HandleChat_journals_own_rows (h : api.Handler) (env : api.Env)
  (r : api.Request) (req : api.ChatRequest) :
  api.Body r = Some req ->
  api.tenant_of req <> "" /\
  Forall (api.record_of (api.requestID_of env r) (api.tenant_of req)
            (api.useCase_of req)
            (config.Primary (api.router_Route h (api.useCase_of req))
             :: config.Fallbacks (api.router_Route h (api.useCase_of req))))
    (api.logged_records (api.HandleChat h env r)) /\
  Forall (api.attempt_of (api.requestID_of env r)
            (config.Primary (api.router_Route h (api.useCase_of req))
             :: config.Fallbacks (api.router_Route h (api.useCase_of req))))
    (api.logged_attempts (api.HandleChat h env r)).
Proof.
  intros Hbody. split; [apply tenant_of_not_empty|].
  destruct (admission_quiet (api.requestID_of env r) (api.tenant_of req)
              (api.promptTokens_of req)
              (snd (api.limiter_Allow h (api.tenant_of req)
                      (api.promptTokens_of req))))
    as [Hr [Ha _]].
  destruct (fst (api.limiter_Allow h (api.tenant_of req)
                   (api.promptTokens_of req))) eqn:Hadm.
  - rewrite (HandleChat_admitted h env r req Hbody Hadm).
    destruct (after_loop_quiet (api.requestID_of env r)
                (snd (api.loop h env r req))) as [Hr' [Ha' _]].
    rewrite logged_records_app, logged_attempts_app, Hr, Ha.
    cbn [app api.logged_records api.logged_attempts].
    rewrite logged_records_app, logged_attempts_app, Hr', Ha', !app_nil_r.
    destruct (attempts_provenance h env req (api.requestID_of env r)
                (api.router_Route h (api.useCase_of req))
                (api.tenant_of req) (api.useCase_of req)
                (config.Primary (api.router_Route h (api.useCase_of req))
                 :: config.Fallbacks
                      (api.router_Route h (api.useCase_of req)))
                1 None) as [Hla Hlr].
    split; [|exact Hla].
    constructor; [|exact Hlr].
    split; [reflexivity|]. split; [reflexivity|].
    split; [reflexivity|]. left. now split.
  - rewrite (HandleChat_denied h env r req Hbody Hadm).
    rewrite logged_records_app, logged_attempts_app, Hr, Ha.
    split; [|constructor].
    constructor; [|constructor].
    split; [reflexivity|]. split; [reflexivity|].
    split; [reflexivity|]. left. now split.
Qed.

Lemma HandleChat_journals_own_rows_witness :
  Forall (api.attempt_of "req-1" [scenario.ghost; scenario.openai])
    (api.logged_attempts
       (api.HandleChat scenario.primary_down scenario.world
          (scenario.request false))).
Proof.
  exact (proj2 (proj2 (HandleChat_journals_own_rows scenario.primary_down
                         scenario.world (scenario.request false)
                         (scenario.body false) eq_refl))).
Defined.

(** ** What the attempt rows tell *)

Lemma attempts_tell_later (l1 l2 : list api.Event) :
  api.written l1 = [] -> Forall api.failed (api.logged_attempts l1) ->
  api.attempts_tell l2 -> api.attempts_tell (l1 ++ l2).
Proof.
  intros Hw Hf [Hall|[pre [x [resp [Hla [Hpre [Hs [He Hwr]]]]]]]].
  - left. rewrite logged_attempts_app. apply Forall_app. now split.
  - right. exists (api.logged_attempts l1 ++ pre), x, resp.
    rewrite logged_attempts_app, written_app, Hla, Hw, Hwr, app_assoc.
    repeat split; try assumption. apply Forall_app. now split.
Qed.

Section Telling.

Variables (h : api.Handler) (env : api.Env) (req : api.ChatRequest).
Variables (rid : string) (route : config.Route) (tenant useCase : string).

Hypothesis exclusive : api.exclusive_answers (api.registry h).

Local Notation attempt := (api.attempt h env req rid route tenant useCase).
Local Notation attempts := (api.attempts h env req rid route tenant useCase).

Lemma tells_later (l1 l2 : list api.Event) (flow : api.Flow) :
  api.written l1 = [] -> Forall api.failed (api.logged_attempts l1) ->
  api.tells l2 flow -> api.tells (l1 ++ l2) flow.
Proof.
  intros Hw Hf. destruct flow as [|a' l']; cbn [api.tells].
  - now apply attempts_tell_later.
  - intros [Hw2 Hf2]. rewrite written_app, logged_attempts_app, Hw, Hw2.
    split; [reflexivity|]. apply Forall_app. now split.
Qed.

Lemma attempt_tells (t : config.Target) (n : nat) (a : Z)
  (l : option error) :
  api.tells (fst (attempt t n a l)) (snd (attempt t n a l)).
Proof.
  revert a l. induction n as [|n IH]; intros a l.
  { split; [reflexivity|constructor]. }
  generalize (attempt_cases h env req rid route tenant useCase t n a l).
  generalize (fst (attempt t (S n) a l)) (snd (attempt t (S n) a l)).
  intros evs flow C. destruct C as [Hl|p Hl Hs|p r Hl Hs Hc|p Hl Hs Hc
                                     |p resp e Hl Hs Hc Hr
                                     |p resp e Hl Hs Hc Hr].
  - split; [reflexivity|constructor].
  - left. cbn [api.logged_attempts].
    rewrite handleStream_logged_attempts.
    destruct (pump_attempts env (api.provReq req t) rid route t tenant
                useCase a (providers.ChatStream p (api.provReq req t) a)
                "") as [->|[e ->]]; repeat constructor.
  - right. exists [], (api.attempt_row env rid t a (Some r) None), r.
    repeat split; constructor.
  - left. repeat constructor.
  - rewrite (exclusive _ _ _ _ _ _ Hl Hc).
    apply (tells_later (api.call env req rid t a None (Some e)));
      [reflexivity|repeat constructor|apply IH].
  - rewrite (exclusive _ _ _ _ _ _ Hl Hc).
    split; [reflexivity|repeat constructor].
Qed.

Lemma attempts_tells (targets : list config.Target) (a : Z)
  (l : option error) :
  api.tells (fst (attempts targets a l)) (snd (attempts targets a l)).
Proof.
  revert a l. induction targets as [|t rest IH]; intros a l.
  { split; [reflexivity|constructor]. }
  rewrite attempts_cons.
  pose proof (attempt_tells t (Z.to_nat (config.Retries route + 1)) a l)
    as Ht.
  destruct (snd (attempt t (Z.to_nat (config.Retries route + 1)) a l))
    as [|a' l']; cbn [fst snd]; [exact Ht|].
  destruct Ht as [Hw Hf]. apply tells_later; [exact Hw|exact Hf|apply IH].
Qed.

End Telling.

(** X14: When no provider answers with both a response and an error, as the
    adapters of this repository never do, the attempt rows of a request
    tell how it went: every row carries 502, except that a request which
    is answered from a buffered call has a last row with status 200 and no
    error message, and then the one thing written is the JSON response. *)
Theorem HandleChat_attempts_tell (h : api.Handler) (env : api.Env)
  (r : api.Request) :
  api.exclusive_answers (api.registry h) ->
  api.attempts_tell (api.HandleChat h env r).
Proof.
  intros Hex.
  destruct (api.Body r) as [req|] eqn:Hbody.
  - destruct (admission_quiet (api.requestID_of env r) (api.tenant_of req)
                (api.promptTokens_of req)
                (snd (api.limiter_Allow h (api.tenant_of req)
                        (api.promptTokens_of req))))
      as [_ [Ha [_ [_ [_ [Hw _]]]]]].
    destruct (fst (api.limiter_Allow h (api.tenant_of req)
                     (api.promptTokens_of req))) eqn:Hadm.
    + rewrite (HandleChat_admitted h env r req Hbody Hadm).
      apply attempts_tell_later; [exact Hw|rewrite Ha; constructor|].
      apply (attempts_tell_later [api.EvLog _]);
        [reflexivity|constructor|].
      pose proof (attempts_tells h env req (api.requestID_of env r)
                    (api.router_Route h (api.useCase_of req))
                    (api.tenant_of req) (api.useCase_of req) Hex
                    (config.Primary
                       (api.router_Route h (api.useCase_of req))
                     :: config.Fallbacks
                          (api.router_Route h (api.useCase_of req)))
                    1 None) as Ht.
      fold (api.loop h env r req) in Ht.
      destruct (after_loop_quiet (api.requestID_of env r)
                  (snd (api.loop h env r req))) as [_ [Ha' _]].
      destruct (snd (api.loop h env r req)) as [|a' l'];
        cbn [api.tells api.after_loop] in *.
      * now rewrite app_nil_r.
      * destruct Ht as [_ Hf]. left.
        rewrite logged_attempts_app, Ha', app_nil_r. exact Hf.
    + rewrite (HandleChat_denied h env r req Hbody Hadm).
      left. rewrite logged_attempts_app, Ha. constructor.
  - rewrite (HandleChat_invalid h env r Hbody). left. constructor.
Qed.

Lemma HandleChat_attempts_tell_witness :
  api.attempts_tell
    (api.HandleChat scenario.primary_down scenario.world
       (scenario.request false)).
Proof.
  apply HandleChat_attempts_tell.
  intros name p q a resp e. cbn -[String.eqb].
  destruct (String.eqb "ghost" name).
  - intros Hp. injection Hp as <-. cbn. intros Hc. now injection Hc as <-.
  - destruct (String.eqb "openai" name); [|discriminate].
    intros Hp. injection Hp as <-. cbn. discriminate.
Defined.

(** ** The estimator on small requests *)

Lemma upto_In (n : nat) (z : Z) :
  0 <= z <= Z.of_nat n -> In z (usage.upto n).
Proof.
  intros Hz. unfold usage.upto. apply in_map_iff.
  exists (Z.to_nat z). split; [lia|]. apply in_seq. lia.
Qed.

Lemma grid_sound (model : string) (n : nat) (p c : Z) :
  usage.grid model n = true ->
  0 <= p <= Z.of_nat n -> 0 <= c <= Z.of_nat n ->
  usage.near_exact model p c = true.
Proof.
  unfold usage.grid. intros Hg Hp Hc.
  rewrite forallb_forall in Hg. specialize (Hg p (upto_In n p Hp)).
  rewrite forallb_forall in Hg. exact (Hg c (upto_In n c Hc)).
Qed.

(** Every model is priced like one of the three of the table. *)
Lemma near_exact_table (model : string) :
  exists m,
    In m ["gpt-4o-mini"; "gpt-4.1-mini"; "claude-3-5-sonnet"] /\
    forall p c,
      usage.EstimateCost model p c = usage.EstimateCost m p c /\
      usage.exact_micro_usd model p c = usage.exact_micro_usd m p c /\
      usage.tie model p c = usage.tie m p c.
Proof.
  destruct (String.eqb_spec "gpt-4o-mini" model) as [<-|N1].
  { exists "gpt-4o-mini". split; [now left|]. now intros. }
  destruct (String.eqb_spec "gpt-4.1-mini" model) as [<-|N2].
  { exists "gpt-4.1-mini". split; [right; now left|]. now intros. }
  destruct (String.eqb_spec "claude-3-5-sonnet" model) as [<-|N3].
  { exists "claude-3-5-sonnet". split; [right; right; now left|].
    now intros. }
  exists "gpt-4o-mini". split; [now left|]. intros p c.
  apply String.eqb_neq in N1, N2, N3.
  unfold usage.EstimateCost, usage.exact_micro_usd, usage.tie,
    usage.exact_hundredths.
  rewrite (rates_price_table model),
    (rates_price_table "gpt-4o-mini").
  unfold usage.price_table, usage.exact_price_table, usage.price.
  rewrite N1, N2, N3. repeat split; reflexivity.
Qed.

Lemma near_exact_sound (model : string) (p c : Z) :
  usage.near_exact model p c = true ->
  (usage.tie model p c = false ->
   usage.EstimateCost model p c = usage.EstimateCost_exact model p c) /\
  (usage.EstimateCost model p c = usage.EstimateCost_exact model p c \/
   usage.EstimateCost model p c
   = usage.decimal6 (usage.exact_micro_usd model p c - 1)).
Proof.
  unfold usage.near_exact, usage.EstimateCost_exact.
  destruct (usage.tie model p c).
  - intros H. split; [discriminate|].
    apply orb_true_iff in H as [H|H];
      apply FloatAxioms.Leibniz.eqb_spec in H; auto.
  - intros H. apply FloatAxioms.Leibniz.eqb_spec in H. auto.
Qed.

Lemma grid_gpt_4o_mini : usage.grid "gpt-4o-mini" 100 = true.
Proof. vm_compute. reflexivity. Qed.

Lemma grid_gpt_41_mini : usage.grid "gpt-4.1-mini" 100 = true.
Proof. vm_compute. reflexivity. Qed.

Lemma grid_claude_35_sonnet : usage.grid "claude-3-5-sonnet" 100 = true.
Proof. vm_compute. reflexivity. Qed.

(** X15: For a request of at most 100 prompt tokens and 100 completion tokens,
    whatever the model, [EstimateCost] returns the exact cost rounded to
    six decimals, halves away from zero, unless the exact cost lies
    half-way between two millionths; and then it returns that or one
    millionth less, never more. *)
Theorem EstimateCost_small_requests (model : string) (p c : Z) :
  0 <= p <= 100 -> 0 <= c <= 100 ->
  (usage.tie model p c = false ->
   usage.EstimateCost model p c = usage.EstimateCost_exact model p c) /\
  (usage.EstimateCost model p c = usage.EstimateCost_exact model p c \/
   usage.EstimateCost model p c
   = usage.decimal6 (usage.exact_micro_usd model p c - 1)).
Proof.
  intros Hp Hc.
  destruct (near_exact_table model) as [m [Hm Heq]].
  destruct (Heq p c) as [E1 [E2 E3]].
  unfold usage.EstimateCost_exact. rewrite E1, E2, E3.
  apply (near_exact_sound m p c).
  destruct Hm as [<-|[<-|[<-|[]]]].
  - apply (grid_sound _ 100); [apply grid_gpt_4o_mini|lia|lia].
  - apply (grid_sound _ 100); [apply grid_gpt_41_mini|lia|lia].
  - apply (grid_sound _ 100); [apply grid_claude_35_sonnet|lia|lia].
Qed.

Lemma EstimateCost_small_requests_witness :
  usage.EstimateCost "claude-3-5-sonnet" 90 70
  = usage.EstimateCost_exact "claude-3-5-sonnet" 90 70.
Proof.
  apply (EstimateCost_small_requests "claude-3-5-sonnet" 90 70);
    [lia|lia|reflexivity].
Defined.

(** ** The mock stream through the handler *)

Section MockStream.

Variables (label id : string) (clock : nat -> Z).

Lemma Split_not_nil (s : string) (sep : ascii) : strings.Split s sep <> [].
Proof.
  destruct s as [|ch s']; cbn; [discriminate|].
  destruct (Ascii.eqb ch sep); [discriminate|].
  destruct (strings.Split s' sep); discriminate.
Qed.

(** The deltas of the chunks sent for the words of a text spell the text
    and one more space. *)
Lemma send_Split_content (model s : string) (k : nat) :
  api.content_of (mock.send id clock model k (strings.Split s " "%char))
  = (s ++ " ")%string.
Proof.
  revert k. induction s as [|ch s' IH]; intros k; [reflexivity|].
  cbn [strings.Split].
  destruct (Ascii.eqb_spec ch " "%char) as [->|Hch].
  - cbn [mock.send].
    destruct (strings.Split s' " "%char) as [|w ws] eqn:E.
    { now destruct (Split_not_nil s' " "%char). }
    cbn [api.content_of mock.word_chunk providers.CChoices
           providers.Delta_Content].
    now rewrite (IH (S k)).
  - specialize (IH k).
    destruct (strings.Split s' " "%char) as [|w ws] eqn:E.
    { now destruct (Split_not_nil s' " "%char). }
    cbn [mock.send api.content_of mock.word_chunk providers.CChoices
           providers.Delta_Content] in IH |- *.
    cbn [String.append]. now rewrite IH.
Qed.

Lemma observed_goes_on (chunks : list providers.ChatChunk) (nils : nat) :
  forallb api.goes_on
    (map providers.RecvChunk chunks
     ++ repeat (providers.RecvErr None) nils) = true /\
  api.chunks_in
    (map providers.RecvChunk chunks
     ++ repeat (providers.RecvErr None) nils) = chunks.
Proof.
  induction chunks as [|c cs [IH1 IH2]]; cbn.
  - induction nils as [|n IH]; [now split|exact IH].
  - split; [exact IH1|now rewrite IH2].
Qed.

(** The mock stream through the handler's pump: every chunk is forwarded,
    the final record is journaled with the text of the mock, which is the
    label, the content of the last message and a space, and the trailer
    is written. *)
Lemma mock_stream_pump (env : api.Env) (req : providers.ChatRequest)
  (rid : string) (route : config.Route) (t : config.Target)
  (tenant useCase : string) (a : Z) (nils : nat) (m : providers.Message) :
  mock.last_message (providers.Messages req) = Some m ->
  exists chunks,
    mock.ChatStream label id clock req = Some chunks /\
    api.content_of chunks = (label ++ providers.Content m ++ " ")%string /\
    api.pump env req rid route t tenant useCase a
      (mock.observed chunks nils) ""
    = api.forwarded chunks
      ++ [ api.EvLog
             (api.stream_record env req rid route t tenant useCase
                (label ++ providers.Content m ++ " "));
           api.EvWrite api.SSEDone;
           api.EvFlush ].
Proof.
  intros Hlast. unfold mock.ChatStream. rewrite Hlast.
  eexists. split; [reflexivity|].
  assert (api.content_of
            (mock.send id clock (providers.Model req) 0
               (strings.Split (label ++ providers.Content m) " "%char))
          = (label ++ providers.Content m ++ " ")%string) as Hcontent.
  { now rewrite send_Split_content, append_assoc. }
  split; [exact Hcontent|].
  unfold mock.observed. rewrite app_assoc.
  destruct (observed_goes_on
              (mock.send id clock (providers.Model req) 0
                 (strings.Split (label ++ providers.Content m) " "%char))
              nils) as [Hgo Hin].
  rewrite (pump_goes_on env req rid route t tenant useCase a _ _ _ Hgo).
  now rewrite Hin, Hcontent.
Qed.

End MockStream.

Lemma length_label (label s : string) :
  Z.of_nat (String.length (label ++ s ++ " "))
  = Z.of_nat (String.length label) + Z.of_nat (String.length s) + 1.
Proof. rewrite !length_append. cbn [String.length]. lia. Qed.

(** X16: A stream of the OpenAI adapter in mock mode, pumped by the handler
    until the channels are closed: the chunks are forwarded, the trailer
    is written, and the one record journaled says that the completion has
    a quarter of the length of the last message plus 21 bytes, rounded
    down, in tokens. *)
Theorem openai_mock_stream (env : api.Env) (req : providers.ChatRequest)
  (rid : string) (route : config.Route) (t : config.Target)
  (tenant useCase : string) (a : Z) (clock : nat -> Z) (nils : nat)
  (m : providers.Message) :
  mock.last_message (providers.Messages req) = Some m ->
  exists chunks rec,
    openai.ChatStream_mock clock req = Some chunks /\
    api.content_of chunks
    = ("OpenAI Mock Stream: " ++ providers.Content m ++ " ")%string /\
    api.pump env req rid route t tenant useCase a
      (mock.observed chunks nils) ""
    = api.forwarded chunks
      ++ [api.EvLog rec; api.EvWrite api.SSEDone; api.EvFlush] /\
    usage.Record_.StatusCode rec = 200 /\
    usage.Record_.CompletionTokens rec
    = (21 + Z.of_nat (String.length (providers.Content m))) / 4.
Proof.
  intros Hlast.
  destruct (mock_stream_pump "OpenAI Mock Stream: " "mock-stream-id" clock
              env req rid route t tenant useCase a nils m Hlast)
    as [chunks [Hc [Hcontent Hpump]]].
  exists chunks. eexists. split; [exact Hc|]. split; [exact Hcontent|].
  split; [exact Hpump|]. split; [reflexivity|].
  cbn [api.stream_record usage.Record_.CompletionTokens].
  unfold usage.ApproximateTokens. rewrite length_label.
  cbn [String.length]. rewrite Z.quot_div_nonneg by lia. f_equal. lia.
Qed.

Lemma openai_mock_stream_witness :
  exists chunks rec,
    openai.ChatStream_mock (fun _ => 0)
      (api.provReq (scenario.body true) scenario.openai) = Some chunks /\
    api.content_of chunks = "OpenAI Mock Stream: Hello! " /\
    api.pump scenario.world
      (api.provReq (scenario.body true) scenario.openai) "req-1"
      (scenario.route scenario.openai [] 0) scenario.openai "acme"
      "support_summary" 1 (mock.observed chunks 2) ""
    = api.forwarded chunks
      ++ [api.EvLog rec; api.EvWrite api.SSEDone; api.EvFlush] /\
    usage.Record_.StatusCode rec = 200 /\
    usage.Record_.CompletionTokens rec = 6.
Proof.
  exact (openai_mock_stream scenario.world
           (api.provReq (scenario.body true) scenario.openai) "req-1"
           (scenario.route scenario.openai [] 0) scenario.openai "acme"
           "support_summary" 1 (fun _ => 0) 2
           (providers.mkMessage "user" "Hello!") eq_refl).
Defined.

(** X17: A stream of the Anthropic adapter in mock mode, pumped by the handler
    until the channels are closed: the chunks are forwarded, the trailer
    is written, and the one record journaled says that the completion has
    a quarter of the length of the last message plus 24 bytes, rounded
    down, in tokens. *)
Theorem anthropic_mock_stream (env : api.Env) (req : providers.ChatRequest)
  (rid : string) (route : config.Route) (t : config.Target)
  (tenant useCase : string) (a : Z) (clock : nat -> Z) (nils : nat)
  (m : providers.Message) :
  mock.last_message (providers.Messages req) = Some m ->
  exists chunks rec,
    anthropic.ChatStream_mock clock req = Some chunks /\
    api.content_of chunks
    = ("Anthropic Mock Stream: " ++ providers.Content m ++ " ")%string /\
    api.pump env req rid route t tenant useCase a
      (mock.observed chunks nils) ""
    = api.forwarded chunks
      ++ [api.EvLog rec; api.EvWrite api.SSEDone; api.EvFlush] /\
    usage.Record_.StatusCode rec = 200 /\
    usage.Record_.CompletionTokens rec
    = (24 + Z.of_nat (String.length (providers.Content m))) / 4.
Proof.
  intros Hlast.
  destruct (mock_stream_pump "Anthropic Mock Stream: " "mock-anth-stream-id"
              clock env req rid route t tenant useCase a nils m Hlast)
    as [chunks [Hc [Hcontent Hpump]]].
  exists chunks. eexists. split; [exact Hc|]. split; [exact Hcontent|].
  split; [exact Hpump|]. split; [reflexivity|].
  cbn [api.stream_record usage.Record_.CompletionTokens].
  unfold usage.ApproximateTokens. rewrite length_label.
  cbn [String.length]. rewrite Z.quot_div_nonneg by lia. f_equal. lia.
Qed.

Lemma anthropic_mock_stream_witness :
  exists chunks rec,
    anthropic.ChatStream_mock (fun _ => 0)
      (api.provReq (scenario.body true) scenario.anthropic) = Some chunks /\
    api.content_of chunks = "Anthropic Mock Stream: Hello! " /\
    api.pump scenario.world
      (api.provReq (scenario.body true) scenario.anthropic) "req-1"
      (scenario.route scenario.anthropic [] 0) scenario.anthropic "acme"
      "support_summary" 1 (mock.observed chunks 0) ""
    = api.forwarded chunks
      ++ [api.EvLog rec; api.EvWrite api.SSEDone; api.EvFlush] /\
    usage.Record_.StatusCode rec = 200 /\
    usage.Record_.CompletionTokens rec = 7.
Proof.
  exact (anthropic_mock_stream scenario.world
           (api.provReq (scenario.body true) scenario.anthropic) "req-1"
           (scenario.route scenario.anthropic [] 0) scenario.anthropic "acme"
           "support_summary" 1 (fun _ => 0) 0
           (providers.mkMessage "user" "Hello!") eq_refl).
Defined.

(** ** The shape of the response *)

Lemma response_shape_later (rid : string) (l1 l2 : list api.Event) :
  api.written l1 = [] -> api.header_values "Content-Type" l1 = [] ->
  api.response_shape rid l2 -> api.response_shape rid (l1 ++ l2).
Proof.
  intros Hw Hh. unfold api.response_shape.
  rewrite written_app, header_values_app, Hw, Hh. cbn [app]. auto.
Qed.

Lemma pump_written (env : api.Env) (q : providers.ChatRequest)
  (rid : string) (route : config.Route) (t : config.Target)
  (tenant useCase : string) (a : Z) (rc : list providers.Received)
  (fc : string) :
  exists chunks tail,
    api.written (api.pump env q rid route t tenant useCase a rc fc)
    = map api.SSEData chunks ++ tail /\
    api.stream_end tail.
Proof.
  revert fc. induction rc as [|[c| |[e|]|] rc IH]; intros fc; cbn.
  - exists [], []. split; [reflexivity|now left].
  - destruct (IH (match providers.CChoices c with
                  | [] => fc
                  | ch :: _ => (fc ++ providers.Delta_Content ch)%string
                  end)) as [chunks [tail [Hw Ht]]].
    exists (c :: chunks), tail. cbn. now rewrite Hw.
  - exists [], [api.SSEDone]. split; [reflexivity|]. right. now left.
  - exists [], [api.SSEError (Error e)]. split; [reflexivity|].
    right. right. now exists (Error e).
  - apply IH.
  - exists [], []. split; [reflexivity|now left].
Qed.

Lemma loop_shape (h : api.Handler) (env : api.Env) (req : api.ChatRequest)
  (rid : string) (route : config.Route) (tenant useCase : string)
  (targets : list config.Target) (a : Z) (l : option error) :
  match snd (api.attempts h env req rid route tenant useCase targets a l)
  with
  | api.Next _ _ =>
      api.written
        (fst (api.attempts h env req rid route tenant useCase targets a l))
      = [] /\
      api.header_values "Content-Type"
        (fst (api.attempts h env req rid route tenant useCase targets a l))
      = []
  | api.Returned =>
      api.response_shape rid
        (fst (api.attempts h env req rid route tenant useCase targets a l))
  end.
Proof.
  apply (attempts_rules h env req rid route tenant useCase
           (fun _ _ evs flow =>
              match flow with
              | api.Next _ _ =>
                  api.written evs = [] /\
                  api.header_values "Content-Type" evs = []
              | api.Returned => api.response_shape rid evs
              end)).
  - now split.
  - now split.
  - intros t a0 l0 p _ _. right. right. right.
    destruct (pump_written env (api.provReq req t) rid route t tenant
                useCase a0 (providers.ChatStream p (api.provReq req t) a0)
                "") as [chunks [tail [Hw Ht]]].
    exists chunks, tail. cbn [api.written].
    rewrite handleStream_written, Hw. split; [reflexivity|].
    split; [exact Ht|].
    unfold api.handleStream.
    cbn [api.header_values app String.eqb Ascii.eqb Bool.eqb].
    now rewrite pump_header_values.
  - intros t a0 l0 p r _ _. right. right. left. exists r. now split.
  - intros. now left.
  - intros t a0 l0 resp e evs flow _ _ H.
    destruct flow as [|a' l']; [|exact H].
    now apply (response_shape_later rid (api.call env req rid t a0 resp
                                           (Some e))).
  - now split.
  - intros a0 l0 evs a' l' evs' flow' [Hw Hh] H.
    destruct flow' as [|a2 l2].
    + now apply response_shape_later.
    + destruct H as [Hw' Hh'].
      now rewrite written_app, header_values_app, Hw, Hh, Hw', Hh'.
Qed.

(** X18: Whatever the request, the handler writes one of four bodies: nothing;
    one JSON error, which names the request id and is announced as
    [application/json]; one JSON response, for which no [Content-Type] is
    ever set; or a stream of SSE records, announced as
    [text/event-stream], which is cut off or ends by the trailer or by one
    error frame. *)
Theorem HandleChat_response_shape (h : api.Handler) (env : api.Env)
  (r : api.Request) :
  api.response_shape (api.requestID_of env r) (api.HandleChat h env r).
Proof.
  assert (forall code msg,
            api.response_shape (api.requestID_of env r)
              (api.respondError code msg (api.requestID_of env r)))
    as Herr.
  { intros code msg. right. left. exists msg. now split. }
  destruct (api.Body r) as [req|] eqn:Hbody.
  - assert (api.written
              (api.admission (api.requestID_of env r) (api.tenant_of req)
                 (api.promptTokens_of req)
                 (snd (api.limiter_Allow h (api.tenant_of req)
                         (api.promptTokens_of req)))) = [] /\
            api.header_values "Content-Type"
              (api.admission (api.requestID_of env r) (api.tenant_of req)
                 (api.promptTokens_of req)
                 (snd (api.limiter_Allow h (api.tenant_of req)
                         (api.promptTokens_of req)))) = [])
      as [Hw Hh].
    { now destruct (snd (api.limiter_Allow h (api.tenant_of req)
                           (api.promptTokens_of req))). }
    destruct (fst (api.limiter_Allow h (api.tenant_of req)
                     (api.promptTokens_of req))) eqn:Hadm.
    + rewrite (HandleChat_admitted h env r req Hbody Hadm).
      apply response_shape_later; [exact Hw|exact Hh|].
      apply (response_shape_later _ [api.EvLog _]);
        [reflexivity|reflexivity|].
      pose proof (loop_shape h env req (api.requestID_of env r)
                    (api.router_Route h (api.useCase_of req))
                    (api.tenant_of req) (api.useCase_of req)
                    (config.Primary
                       (api.router_Route h (api.useCase_of req))
                     :: config.Fallbacks
                          (api.router_Route h (api.useCase_of req)))
                    1 None) as Hloop.
      fold (api.loop h env r req) in Hloop.
      destruct (snd (api.loop h env r req)) as [|a' [e|]];
        cbn [api.after_loop].
      * now rewrite app_nil_r.
      * destruct Hloop as [Hw' Hh'].
        apply response_shape_later; [exact Hw'|exact Hh'|apply Herr].
      * destruct Hloop as [Hw' Hh']. left.
        now rewrite written_app, Hw'.
    + rewrite (HandleChat_denied h env r req Hbody Hadm).
      apply response_shape_later; [exact Hw|exact Hh|].
      apply (response_shape_later _ [api.EvLog _]);
        [reflexivity|reflexivity|apply Herr].
  - rewrite (HandleChat_invalid h env r Hbody). apply Herr.
Qed.

(** ** Calls and writes *)

Lemma pump_no_call (env : api.Env) (q : providers.ChatRequest)
  (rid : string) (route : config.Route) (t : config.Target)
  (tenant useCase : string) (a : Z) (rc : list providers.Received)
  (fc : string) :
  existsb api.is_call (api.pump env q rid route t tenant useCase a rc fc)
  = false.
Proof.
  revert fc. induction rc as [|[c| |[e|]|] rc IH]; intros fc; cbn; auto.
Qed.

Lemma calls_first_later (l1 l2 : list api.Event) :
  api.written l1 = [] ->
  api.before_each api.is_call (fun pre _ => api.written pre = []) l1 ->
  api.before_each api.is_call (fun pre _ => api.written pre = []) l2 ->
  api.before_each api.is_call (fun pre _ => api.written pre = [])
    (l1 ++ l2).
Proof.
  intros Hw H1 H2. apply before_each_app; [exact H1|].
  eapply before_each_impl; [|exact H2].
  intros pre e _ Hp. now rewrite written_app, Hw.
Qed.

Lemma loop_calls_first (h : api.Handler) (env : api.Env)
  (req : api.ChatRequest) (rid : string) (route : config.Route)
  (tenant useCase : string) (targets : list config.Target) (a : Z)
  (l : option error) :
  api.before_each api.is_call (fun pre _ => api.written pre = [])
    (fst (api.attempts h env req rid route tenant useCase targets a l)).
Proof.
  assert (forall evs,
            api.written evs = [] ->
            api.before_each api.is_call (fun pre _ => api.written pre = [])
              evs) as Hquiet.
  { intros evs Hw pre e post E _. rewrite E, written_app in Hw.
    now apply app_eq_nil in Hw as [-> _]. }
  apply (attempts_rules h env req rid route tenant useCase
           (fun _ _ evs flow =>
              (forall a' l', flow = api.Next a' l' -> api.written evs = [])
              /\ api.before_each api.is_call
                   (fun pre _ => api.written pre = []) evs)).
  - intros. split; [reflexivity|apply before_each_nil].
  - intros. split; [reflexivity|now apply Hquiet].
  - intros t a0 l0 p _ _. split; [discriminate|].
    apply before_each_cons; [discriminate|].
    unfold api.handleStream. cbn [app].
    apply before_each_cons; [reflexivity|].
    apply before_each_none. cbn. apply pump_no_call.
  - intros t a0 l0 p r _ _. split; [discriminate|].
    apply before_each_cons; [discriminate|].
    apply before_each_cons; [reflexivity|].
    now apply before_each_none.
  - intros. split; [discriminate|now apply Hquiet].
  - intros t a0 l0 resp e evs flow _ _ [Hn Hb]. split.
    + intros a' l' E. cbn. now apply (Hn a' l').
    + apply calls_first_later; [reflexivity|now apply Hquiet|exact Hb].
  - intros. split; [reflexivity|now apply Hquiet].
  - intros a0 l0 evs a' l' evs' flow' [Hn Hb] [Hn' Hb']. split.
    + intros a2 l2 E.
      now rewrite written_app, (Hn _ _ eq_refl), (Hn' _ _ E).
    + apply calls_first_later; [now apply (Hn a' l')|exact Hb|exact Hb'].
Qed.

(** X19: The handler never calls a provider once it has begun to answer: when
    [Chat] or [ChatStream] is called, nothing has been written to the
    response. *)
Theorem HandleChat_calls_before_answer (h : api.Handler) (env : api.Env)
  (r : api.Request) :
  api.before_each api.is_call (fun pre _ => api.written pre = [])
    (api.HandleChat h env r).
Proof.
  destruct (api.Body r) as [req|] eqn:Hbody.
  - assert (api.written
              (api.admission (api.requestID_of env r) (api.tenant_of req)
                 (api.promptTokens_of req)
                 (snd (api.limiter_Allow h (api.tenant_of req)
                         (api.promptTokens_of req)))) = [] /\
            existsb api.is_call
              (api.admission (api.requestID_of env r) (api.tenant_of req)
                 (api.promptTokens_of req)
                 (snd (api.limiter_Allow h (api.tenant_of req)
                         (api.promptTokens_of req)))) = false)
      as [Hw Hc].
    { now destruct (snd (api.limiter_Allow h (api.tenant_of req)
                           (api.promptTokens_of req))). }
    destruct (fst (api.limiter_Allow h (api.tenant_of req)
                     (api.promptTokens_of req))) eqn:Hadm.
    + rewrite (HandleChat_admitted h env r req Hbody Hadm).
      apply calls_first_later;
        [exact Hw|now apply before_each_none|].
      apply (calls_first_later [api.EvLog _]);
        [reflexivity|now apply before_each_none|].
      apply before_each_app; [apply loop_calls_first|].
      apply before_each_none.
      now destruct (snd (api.loop h env r req)) as [|a' [e|]].
    + rewrite (HandleChat_denied h env r req Hbody Hadm).
      apply before_each_none. rewrite existsb_app, Hc. reflexivity.
  - rewrite (HandleChat_invalid h env r Hbody). now apply before_each_none.
Qed.

(** ** The handler's run against the specification's policy *)

Section PolicyProof.

Variables (h : api.Handler) (env : api.Env) (req : api.ChatRequest).
Variables (rid : string) (route : config.Route) (tenant useCase : string).

Hypothesis buffered : api.Stream req = false.

Local Notation R := (config.Retries route).
Local Notation attempt := (api.attempt h env req rid route tenant useCase).
Local Notation attempts := (api.attempts h env req rid route tenant useCase).
Local Notation from :=
  (api.attempts_from h env req rid route tenant useCase).
Local Notation follows := (policy.follows h env req R).
Local Notation it :=
  (fun p : policy.Position => (policy.target p, policy.attemptNo p)).
Local Notation called := (policy.called h req).
Local Notation leaves := (policy.leaves h req).

Lemma attempts_from_all (t : config.Target) (ts : list config.Target)
  (a : Z) (l : option error) :
  attempts (t :: ts) a l = from t ts (Z.to_nat (R + 1)) a l.
Proof. reflexivity. Qed.

Lemma attempts_from_eq (t : config.Target) (ts : list config.Target)
  (n : nat) (a : Z) (l : option error) :
  from t ts n a l
  = match snd (attempt t n a l) with
    | api.Returned => (fst (attempt t n a l), api.Returned)
    | api.Next a' l' =>
        (fst (attempt t n a l) ++ fst (attempts ts a' l'),
         snd (attempts ts a' l'))
    end.
Proof.
  unfold api.attempts_from.
  destruct (attempt t n a l) as [evs [|a' l']]; cbn [fst snd];
    [reflexivity|].
  now destruct (attempts ts a' l').
Qed.

Lemma leaves_later (z : policy.Position) (l1 l2 : list api.Event)
  (flow : api.Flow) :
  api.written l1 = [] -> api.response_status l1 = None ->
  leaves z l2 flow -> leaves z (l1 ++ l2) flow.
Proof.
  intros Hw Hs. unfold policy.leaves.
  rewrite written_app, response_status_app, Hw, Hs. cbn [app].
  destruct (policy.answer_at h req z); auto.
  intros [Hf [Hw2 [Hs2 Hp]]]. repeat split; auto.
  apply in_or_app. now right.
Qed.

(** The last iteration on a target, after which the loops go on with the
    targets that come later. *)
Lemma advance_follows (p : policy.Position) (evs : list api.Event)
  (a' : Z) (err : error) :
  (forall t2 ts2 a l,
     policy.later p = t2 :: ts2 ->
     exists ps z,
       follows (policy.mkPosition t2 ts2 0 a) ps z /\
       api.iterations (fst (attempts (t2 :: ts2) a l)) = map it ps /\
       api.chat_targets (fst (attempts (t2 :: ts2) a l))
       = map policy.target (filter called ps) /\
       leaves z (fst (attempts (t2 :: ts2) a l))
         (snd (attempts (t2 :: ts2) a l))) ->
  policy.next (api.IsRetryable env) R p (policy.answer_at h req p)
  = policy.advance p a' ->
  (policy.answer_at h req p = policy.Failed err \/
   (policy.answer_at h req p = policy.Unknown /\
    err = Errorf ("provider " ++ config.Provider (policy.target p)
                  ++ " not found")%string)) ->
  api.iterations evs = [it p] ->
  api.chat_targets evs = map policy.target (filter called [p]) ->
  api.written evs = [] -> api.response_status evs = None ->
  exists ps z,
    follows p ps z /\
    api.iterations (evs ++ fst (attempts (policy.later p) a' (Some err)))
    = map it ps /\
    api.chat_targets
      (evs ++ fst (attempts (policy.later p) a' (Some err)))
    = map policy.target (filter called ps) /\
    leaves z (evs ++ fst (attempts (policy.later p) a' (Some err)))
      (snd (attempts (policy.later p) a' (Some err))).
Proof.
  intros IH Hnext Hans Hits Hchat Hw Hs.
  destruct (policy.later p) as [|t2 ts2] eqn:Hlater.
  - exists [p], p. split; [|split; [|split]].
    + apply policy.follows_last. rewrite Hnext.
      unfold policy.advance. now rewrite Hlater.
    + cbn [api.attempts fst]. now rewrite app_nil_r.
    + cbn [api.attempts fst]. now rewrite app_nil_r.
    + cbn [api.attempts fst snd]. rewrite app_nil_r.
      unfold policy.leaves.
      destruct Hans as [Hans|[Hans Herr]]; rewrite Hans.
      * split; [now exists a'|now split].
      * rewrite <- Herr. split; [now exists a'|now split].
  - destruct (IH t2 ts2 a' (Some err) eq_refl)
      as [ps [z [Hf [Hi [Hc Hl]]]]].
    exists (p :: ps), z. split; [|split; [|split]].
    + apply policy.follows_step with (q := policy.mkPosition t2 ts2 0 a');
        [|exact Hf].
      rewrite Hnext. unfold policy.advance. now rewrite Hlater.
    + rewrite iterations_app, Hits, Hi. reflexivity.
    + rewrite chat_targets_app, Hchat, Hc. cbn [filter].
      destruct (called p); reflexivity.
    + now apply leaves_later.
Qed.

Lemma answer_unknown (t : config.Target) (ts : list config.Target)
  (j a : Z) :
  providers.lookup (api.registry h) (config.Provider t) = None ->
  policy.answer_at h req (policy.mkPosition t ts j a) = policy.Unknown.
Proof.
  intros H. unfold policy.answer_at, policy.answer. cbn. now rewrite H.
Qed.

Lemma answer_chat (t : config.Target) (ts : list config.Target)
  (j a : Z) (p : providers.Provider)
  (resp : option providers.ChatResponse) (err : option error) :
  providers.lookup (api.registry h) (config.Provider t) = Some p ->
  providers.Chat p (api.provReq req t) a = (resp, err) ->
  policy.answer_at h req (policy.mkPosition t ts j a)
  = match err, resp with
    | Some e, _ => policy.Failed e
    | None, Some r => policy.Answered r
    | None, None => policy.Empty
    end.
Proof.
  intros H C. unfold policy.answer_at, policy.answer. cbn.
  rewrite H, C. now destruct err, resp.
Qed.

(** The inner loop on a target, given that the loops on the targets that
    come later go by the policy. *)
Lemma from_follows_inner (ts : list config.Target) :
  (0 <= R ->
   forall t' ts' a0 l0,
     ts = t' :: ts' ->
     exists ps z,
       follows (policy.mkPosition t' ts' 0 a0) ps z /\
       api.iterations (fst (attempts (t' :: ts') a0 l0)) = map it ps /\
       api.chat_targets (fst (attempts (t' :: ts') a0 l0))
       = map policy.target (filter called ps) /\
       leaves z (fst (attempts (t' :: ts') a0 l0))
         (snd (attempts (t' :: ts') a0 l0))) ->
  forall (t : config.Target) (n : nat) (j a : Z) (l : option error),
    Z.of_nat n = R + 1 - j -> 0 <= j -> (0 < n)%nat ->
    exists ps z,
      follows (policy.mkPosition t ts j a) ps z /\
      api.iterations (fst (from t ts n a l)) = map it ps /\
      api.chat_targets (fst (from t ts n a l))
      = map policy.target (filter called ps) /\
      leaves z (fst (from t ts n a l)) (snd (from t ts n a l)).
Proof.
  intros Hout' t n.
  induction n as [|n IHn]; intros j a l Hn Hj Hpos; [lia|].
  assert (0 <= R) as HR by lia.
  pose proof (Hout' HR) as Hout.
  set (pos := policy.mkPosition t ts j a).
  rewrite attempts_from_eq.
  generalize (attempt_cases h env req rid route tenant useCase t n a l).
  generalize (fst (attempt t (S n) a l)) (snd (attempt t (S n) a l)).
  intros evs flow C.
  destruct C as [Hl|p Hl Hs|p r Hl Hs Hc|p Hl Hs Hc
                |p resp e Hl Hs Hc Hr|p resp e Hl Hs Hc Hr];
    try congruence; cbn [fst snd].
  - (* the registry does not know the provider *)
    apply (advance_follows pos [api.EvAttemptSpan t a] a
             (Errorf ("provider " ++ config.Provider t
                      ++ " not found")%string)).
    + exact Hout.
    + unfold pos. now rewrite answer_unknown.
    + right. split; [unfold pos; now apply answer_unknown|reflexivity].
    + reflexivity.
    + cbn [filter]. unfold policy.called, pos. now rewrite answer_unknown.
    + reflexivity.
    + reflexivity.
  - (* a response *)
    assert (policy.answer_at h req pos = policy.Answered r) as Ha
      by (unfold pos; now rewrite (answer_chat _ _ _ _ _ _ _ Hl Hc)).
    exists [pos], pos.
    split; [apply policy.follows_last; now rewrite Ha|].
    split; [reflexivity|].
    split; [cbn [filter]; unfold policy.called; now rewrite Ha|].
    unfold policy.leaves. rewrite Ha. now repeat split.
  - (* neither a response nor an error *)
    assert (policy.answer_at h req pos = policy.Empty) as Ha
      by (unfold pos; now rewrite (answer_chat _ _ _ _ _ _ _ Hl Hc)).
    exists [pos], pos.
    split; [apply policy.follows_last; now rewrite Ha|].
    split; [reflexivity|].
    split; [cbn [filter]; unfold policy.called; now rewrite Ha|].
    unfold policy.leaves. rewrite Ha. repeat split. cbn. auto 10.
  - (* a retryable error *)
    assert (policy.answer_at h req pos = policy.Failed e) as Ha
      by (unfold pos; now rewrite (answer_chat _ _ _ _ _ _ _ Hl Hc)).
    destruct n as [|n'].
    + cbn [api.attempt fst snd]. rewrite app_nil_r.
      apply (advance_follows pos (api.call env req rid t a resp (Some e))
               (a + 1) e).
      * exact Hout.
      * rewrite Ha. unfold policy.next. rewrite Hr.
        replace (policy.retry pos + 1 <=? R) with false
          by (symmetry; apply Z.leb_gt; unfold pos; cbn; lia).
        reflexivity.
      * now left.
      * reflexivity.
      * cbn [filter]. unfold policy.called. now rewrite Ha.
      * reflexivity.
      * reflexivity.
    + destruct (IHn (j + 1) (a + 1) (Some e))
        as [ps [z [Hf [Hi [Hch Hlv]]]]]; try lia.
      rewrite attempts_from_eq in Hi, Hch, Hlv.
      exists (pos :: ps), z.
      split.
      { apply policy.follows_step
          with (q := policy.mkPosition t ts (j + 1) (a + 1)); [|exact Hf].
        rewrite Ha. unfold policy.next. rewrite Hr.
        replace (policy.retry pos + 1 <=? R) with true
          by (symmetry; apply Z.leb_le; unfold pos; cbn; lia).
        reflexivity. }
      destruct (snd (attempt t (S n') (a + 1) (Some e))) as [|a2 l2];
        cbn [fst snd] in *; rewrite <- ?app_assoc.
      * split; [cbn [app api.call api.iterations]; now rewrite Hi|].
        split.
        { cbn [app api.call api.chat_targets filter].
          unfold policy.called at 1. rewrite Ha. cbn [map].
          now rewrite Hch. }
        now apply (leaves_later z (api.call env req rid t a resp (Some e))).
      * split; [cbn [app api.call api.iterations]; now rewrite Hi|].
        split.
        { cbn [app api.call api.chat_targets filter].
          unfold policy.called at 1. rewrite Ha. cbn [map].
          now rewrite Hch. }
        now apply (leaves_later z (api.call env req rid t a resp (Some e))).
  - (* an error that is not retryable *)
    assert (policy.answer_at h req pos = policy.Failed e) as Ha
      by (unfold pos; now rewrite (answer_chat _ _ _ _ _ _ _ Hl Hc)).
    apply (advance_follows pos
             (api.call env req rid t a resp (Some e)
              ++ [api.EvLogError rid "non-retryable error" e])
             (a + 1) e).
    + exact Hout.
    + rewrite Ha. unfold policy.next. now rewrite Hr.
    + now left.
    + reflexivity.
    + cbn [filter]. unfold policy.called. now rewrite Ha.
    + reflexivity.
    + reflexivity.
Qed.

(** The loops, from any iteration on, go by the policy. *)
Lemma from_follows (ts : list config.Target) :
  forall (t : config.Target) (n : nat) (j a : Z) (l : option error),
    Z.of_nat n = R + 1 - j -> 0 <= j -> (0 < n)%nat ->
    exists ps z,
      follows (policy.mkPosition t ts j a) ps z /\
      api.iterations (fst (from t ts n a l)) = map it ps /\
      api.chat_targets (fst (from t ts n a l))
      = map policy.target (filter called ps) /\
      leaves z (fst (from t ts n a l)) (snd (from t ts n a l)).
Proof.
  induction ts as [|t2 ts2 IHts]; apply from_follows_inner.
  - intros _ t' ts' a0 l0 H. discriminate H.
  - intros HR t' ts' a0 l0 H. injection H as <- <-.
    rewrite attempts_from_all. apply IHts; lia.
Qed.

End PolicyProof.

Lemma untried_targets (ts : list config.Target) :
  flat_map (fun tk : config.Target * nat => repeat (fst tk) (snd tk))
    (combine ts (repeat O (List.length ts))) = [].
Proof. induction ts as [|t ts IH]; [reflexivity|exact IH]. Qed.

(** Every target has its block of calls, of at most retries+1 calls and
    possibly of none, and the blocks come in the order of the targets. *)
Lemma attempts_calls (h : api.Handler) (env : api.Env)
  (req : api.ChatRequest) (rid : string) (route : config.Route)
  (tenant useCase : string) (targets : list config.Target) (a : Z)
  (l : option error) :
  exists ks,
    List.length ks = List.length targets /\
    Forall (fun k => (k <= Z.to_nat (config.Retries route + 1))%nat) ks /\
    api.chat_targets
      (fst (api.attempts h env req rid route tenant useCase targets a l))
    = flat_map (fun tk => repeat (fst tk) (snd tk)) (combine targets ks).
Proof.
  revert a l. induction targets as [|t rest IH]; intros a l.
  - exists []. split; [reflexivity|]. split; [constructor|reflexivity].
  - rewrite attempts_cons.
    destruct (attempt_chat_targets h env req rid route tenant useCase t
                (Z.to_nat (config.Retries route + 1)) a l) as [k [Hk E]].
    destruct (snd (api.attempt h env req rid route tenant useCase t
                     (Z.to_nat (config.Retries route + 1)) a l))
      as [|a' l']; cbn [fst snd].
    + exists (k :: repeat O (List.length rest)).
      split; [cbn; now rewrite repeat_length|]. split.
      * constructor; [exact Hk|]. apply Forall_forall.
        intros x Hx. apply repeat_spec in Hx. lia.
      * cbn [combine flat_map fst snd].
        now rewrite untried_targets, app_nil_r.
    + destruct (IH a' l') as [ks [Hlen [Hks E']]].
      exists (k :: ks). split; [cbn; now rewrite Hlen|].
      split; [now constructor|].
      rewrite chat_targets_app, E, E'. reflexivity.
Qed.


